(** * bandwidth-throttle-stream: a shallow embedding

    The development follows the TypeScript sources:
    - [lib/BandwidthThrottleGroup.ts]  (the group, its clock and its tick),
    - [lib/BandwidthThrottle.ts]       (the plain throttle),
    - [lib/BandwidthThrottleWithBackpressure.ts] (the backpressure throttle),
    - [lib/Platform/BaseTransformStream.ts] ([push] and [destroy]).

    JavaScript numbers are modelled by exact rationals ([Q], kept in lowest
    terms), which covers the integers and the fractional quotas a late tick
    hands to [process]; [Infinity] is a separate constructor of [quota].
    The code computes in doubles: the two agree on the integers and on the
    quotients a double holds exactly; they differ where the code rounds a
    quotient (a tick duration [1000 / ticksPerSecond] that is not a whole
    number, the multiplier of a late tick), where the model keeps the exact
    quota.  The runs evaluated below have a tick duration that is a whole
    number of milliseconds, and ticks that come on time.
    Typed arrays are lists of bytes.  Objects shared between the group and
    the throttles live in one store ([World]), addressed by index. *)

From Stdlib Require Import ZArith QArith Qround Lia Bool Strings.Byte.
From Stdlib Require Import Sorting.Sorted.
From stdpp Require Import base list.

Open Scope Z_scope.

(** ** JavaScript numbers *)

Module Num.

Definition of_Z (z : Z) : Q := inject_Z z.

(** The four operations, exact.  The code's results are the nearest
    doubles: [div] gives the code's value when the quotient is a double
    (1000 / 10), not when it is rounded (1000 / 7, where the code goes on
    with 142.85714285714286). *)
Definition add (a b : Q) : Q := Qred (a + b).
Definition sub (a b : Q) : Q := Qred (a - b).
Definition mul (a b : Q) : Q := Qred (a * b).
Definition div (a b : Q) : Q := Qred (a / b).

Definition leb (a b : Q) : bool := Qle_bool a b.
Definition ltb (a b : Q) : bool := negb (Qle_bool b a).
Definition eqb (a b : Q) : bool := Qeq_bool a b.

(** [Math.min], [Math.max] *)
Definition min (a b : Q) : Q := if leb a b then a else b.
Definition max (a b : Q) : Q := if leb a b then b else a.

(** [ToIntegerOrInfinity]: what a typed array does to an index. *)
Definition trunc (a : Q) : Z := Z.quot (Qnum a) (Zpos (Qden a)).

(** [Math.round]: to the nearest integer, halves upwards. *)
Definition round (a : Q) : Z := Qfloor (a + (1 # 2)).

(** [Math.ceil] *)
Definition ceil (a : Q) : Z := Qceiling a.

End Num.

(** The argument of [process]: a number, or [Infinity] (its default). *)
Inductive quota : Type :=
| Finite (q : Q)
| Infinity.

(** [ClampNum(number, min, max) = Math.max(min, Math.min(number, max))] *)
Definition ClampNum (number min max : Q) : Q :=
  Num.max min (Num.min number max).

(** ** Typed arrays ([Uint8Array]) *)

Module TypedArray.

(** [new Uint8Array(n)]: [n] zero bytes, for a length [n >= 0]. *)
Definition alloc (n : Z) : list Byte.byte := replicate (Z.to_nat n) Byte.x00.

(** The largest length [ToIndex] admits. *)
Definition maxLength : Z := 2 ^ 53 - 1.

(** [new Uint8Array(n)] with its error: [None] is the [RangeError] of a
    length that is negative or beyond [maxLength].  An engine that cannot
    find the memory for an admissible length throws as well; memory is not
    modelled. *)
Definition create (n : Z) : option (list Byte.byte) :=
  if (n <? 0) || (maxLength <? n) then None else Some (alloc n).

(** A relative index of [subarray]: negative values count from the end,
    the result is clamped to the array. *)
Definition relative (i len : Z) : Z :=
  if i <? 0 then Z.max (len + i) 0 else Z.min i len.

(** [a.subarray(begin, end)] *)
Definition subarray (a : list Byte.byte) (b e : Q) : list Byte.byte :=
  let len := Z.of_nat (length a) in
  let b' := relative (Num.trunc b) len in
  let e' := relative (Num.trunc e) len in
  take (Z.to_nat (e' - b')) (drop (Z.to_nat b') a).

(** [a.set(src, offset)]: [None] is the [RangeError] of a source that
    does not fit. *)
Definition set (a src : list Byte.byte) (offset : Q) : option (list Byte.byte) :=
  let off := Num.trunc offset in
  if (off <? 0) || (Z.of_nat (length a) <? off + Z.of_nat (length src)) then None
  else Some (take (Z.to_nat off) a ++ src
             ++ drop (Z.to_nat off + length src) a).

End TypedArray.

(** ** Arrays of object references *)

Module JsArray.

(** [xs.indexOf(x)]: the first position of [x], or [-1]. *)
Fixpoint indexOf (x : nat) (xs : list nat) : Z :=
  match xs with
  | [] => -1
  | y :: ys =>
      if Nat.eqb x y then 0
      else let r := indexOf x ys in if r <? 0 then -1 else r + 1
  end.

(** [xs.splice(start, 1)]: a negative [start] counts from the end, so
    [splice(-1, 1)] removes the last element. *)
Definition splice1 (start : Z) (xs : list nat) : list nat :=
  let len := Z.of_nat (length xs) in
  let s := if start <? 0 then Z.max (len + start) 0 else Z.min start len in
  delete (Z.to_nat s) xs.

End JsArray.

(** ** The partitioner *)

(** Modelled from the spec: [Util/getPartitionedIntegerPartAtIndex.ts] is
    not among the sources.  "Each part is either ⌊total/parts⌋ or
    ⌊total/parts⌋ + 1; the first [total mod parts] indices get the larger
    value." *)
Definition getPartitionedIntegerPartAtIndex (total parts index : Z) : Z :=
  total / parts + (if index <? total mod parts then 1 else 0).

(** The sum of the parts at the indices [0 .. n-1]. *)
Fixpoint partitionSum (total parts : Z) (n : nat) : Z :=
  match n with
  | O => 0
  | S m => partitionSum total parts m
           + getPartitionedIntegerPartAtIndex total parts (Z.of_nat m)
  end.

(** ** Configuration *)

(** Modelled from the spec: [lib/Config.ts] is not among the sources.  The
    record holds the parameters the throttles and the group read; the group
    and all its throttles share one configuration object. *)
Record Config : Type := mkConfig {
  bytesPerSecond : Z;
  isThrottled : bool;
  ticksPerSecond : Z;
  maxBufferSize : Z
}.

(** Modelled from the spec: the derived [tickDurationMs = 1000 / ticksPerSecond]. *)
Definition tickDurationMs (cfg : Config) : Q :=
  Num.div (Num.of_Z 1000) (Num.of_Z (ticksPerSecond cfg)).

(** ** Throttles *)

Inductive Variant : Type :=
| Plain               (* BandwidthThrottle *)
| WithBackpressure.   (* BandwidthThrottleWithBackpressure *)

Record Throttle : Type := mkThrottle {
  variant : Variant;
  pendingBytesBuffer : option (list Byte.byte);
  pendingBytesCount : Q;
  pendingBytesReadIndex : Q;
  pendingBytesBufferExpandedFactor : Z;
  pendingBytesBufferExpandedSize : Z;
  isDataBeingWritten : bool;
  (** [done]: has the deferred been resolved? *)
  done : bool;
  chunkCounter : Z;
  (** [resolver_backpressure]: the number of the chunk whose write is waiting. *)
  resolver_backpressure : option Z;
  (** the writes whose promise has been resolved, oldest first *)
  writesCompleted : list Z;
  (** [controller] is not [null]: the host has handed the controller of the
      stream to the throttle, which it does with every chunk it delivers *)
  controller : bool;
  (** the readable side: the chunks enqueued so far, oldest first *)
  enqueued : list (list Byte.byte);
  (** [controller.terminate()] has been called *)
  terminated : bool;
  (** [readable.locked], [writable.locked]: set by the host runtime *)
  readableLocked : bool;
  writableLocked : bool
}.

Definition set_pendingBytesBuffer (b : option (list Byte.byte)) (t : Throttle) : Throttle :=
  mkThrottle (variant t) b (pendingBytesCount t) (pendingBytesReadIndex t)
    (pendingBytesBufferExpandedFactor t) (pendingBytesBufferExpandedSize t)
    (isDataBeingWritten t) (done t) (chunkCounter t) (resolver_backpressure t)
    (writesCompleted t) (controller t) (enqueued t) (terminated t)
    (readableLocked t) (writableLocked t).

Definition set_pendingBytesCount (c : Q) (t : Throttle) : Throttle :=
  mkThrottle (variant t) (pendingBytesBuffer t) c (pendingBytesReadIndex t)
    (pendingBytesBufferExpandedFactor t) (pendingBytesBufferExpandedSize t)
    (isDataBeingWritten t) (done t) (chunkCounter t) (resolver_backpressure t)
    (writesCompleted t) (controller t) (enqueued t) (terminated t)
    (readableLocked t) (writableLocked t).

Definition set_pendingBytesReadIndex (r : Q) (t : Throttle) : Throttle :=
  mkThrottle (variant t) (pendingBytesBuffer t) (pendingBytesCount t) r
    (pendingBytesBufferExpandedFactor t) (pendingBytesBufferExpandedSize t)
    (isDataBeingWritten t) (done t) (chunkCounter t) (resolver_backpressure t)
    (writesCompleted t) (controller t) (enqueued t) (terminated t)
    (readableLocked t) (writableLocked t).

Definition set_expanded (factor size : Z) (t : Throttle) : Throttle :=
  mkThrottle (variant t) (pendingBytesBuffer t) (pendingBytesCount t)
    (pendingBytesReadIndex t) factor size
    (isDataBeingWritten t) (done t) (chunkCounter t) (resolver_backpressure t)
    (writesCompleted t) (controller t) (enqueued t) (terminated t)
    (readableLocked t) (writableLocked t).

Definition set_isDataBeingWritten (b : bool) (t : Throttle) : Throttle :=
  mkThrottle (variant t) (pendingBytesBuffer t) (pendingBytesCount t)
    (pendingBytesReadIndex t)
    (pendingBytesBufferExpandedFactor t) (pendingBytesBufferExpandedSize t)
    b (done t) (chunkCounter t) (resolver_backpressure t)
    (writesCompleted t) (controller t) (enqueued t) (terminated t)
    (readableLocked t) (writableLocked t).

Definition resolve_done (t : Throttle) : Throttle :=
  mkThrottle (variant t) (pendingBytesBuffer t) (pendingBytesCount t)
    (pendingBytesReadIndex t)
    (pendingBytesBufferExpandedFactor t) (pendingBytesBufferExpandedSize t)
    (isDataBeingWritten t) true (chunkCounter t) (resolver_backpressure t)
    (writesCompleted t) (controller t) (enqueued t) (terminated t)
    (readableLocked t) (writableLocked t).

Definition set_chunkCounter (n : Z) (t : Throttle) : Throttle :=
  mkThrottle (variant t) (pendingBytesBuffer t) (pendingBytesCount t)
    (pendingBytesReadIndex t)
    (pendingBytesBufferExpandedFactor t) (pendingBytesBufferExpandedSize t)
    (isDataBeingWritten t) (done t) n (resolver_backpressure t)
    (writesCompleted t) (controller t) (enqueued t) (terminated t)
    (readableLocked t) (writableLocked t).

Definition set_resolver_backpressure (r : option Z) (t : Throttle) : Throttle :=
  mkThrottle (variant t) (pendingBytesBuffer t) (pendingBytesCount t)
    (pendingBytesReadIndex t)
    (pendingBytesBufferExpandedFactor t) (pendingBytesBufferExpandedSize t)
    (isDataBeingWritten t) (done t) (chunkCounter t) r
    (writesCompleted t) (controller t) (enqueued t) (terminated t)
    (readableLocked t) (writableLocked t).

Definition set_downstream (completed : list Z) (out : list (list Byte.byte))
    (t : Throttle) : Throttle :=
  mkThrottle (variant t) (pendingBytesBuffer t) (pendingBytesCount t)
    (pendingBytesReadIndex t)
    (pendingBytesBufferExpandedFactor t) (pendingBytesBufferExpandedSize t)
    (isDataBeingWritten t) (done t) (chunkCounter t) (resolver_backpressure t)
    completed (controller t) out (terminated t) (readableLocked t) (writableLocked t).

Definition set_controller (c : bool) (t : Throttle) : Throttle :=
  mkThrottle (variant t) (pendingBytesBuffer t) (pendingBytesCount t)
    (pendingBytesReadIndex t)
    (pendingBytesBufferExpandedFactor t) (pendingBytesBufferExpandedSize t)
    (isDataBeingWritten t) (done t) (chunkCounter t) (resolver_backpressure t)
    (writesCompleted t) c (enqueued t) (terminated t)
    (readableLocked t) (writableLocked t).

(** [this.controller?.terminate()]: a controller that is there is
    terminated. *)
Definition terminate (t : Throttle) : Throttle :=
  mkThrottle (variant t) (pendingBytesBuffer t) (pendingBytesCount t)
    (pendingBytesReadIndex t)
    (pendingBytesBufferExpandedFactor t) (pendingBytesBufferExpandedSize t)
    (isDataBeingWritten t) (done t) (chunkCounter t) (resolver_backpressure t)
    (writesCompleted t) (controller t) (enqueued t)
    (if controller t then true else terminated t)
    (readableLocked t) (writableLocked t).

Definition set_locked (r w : bool) (t : Throttle) : Throttle :=
  mkThrottle (variant t) (pendingBytesBuffer t) (pendingBytesCount t)
    (pendingBytesReadIndex t)
    (pendingBytesBufferExpandedFactor t) (pendingBytesBufferExpandedSize t)
    (isDataBeingWritten t) (done t) (chunkCounter t) (resolver_backpressure t)
    (writesCompleted t) (controller t) (enqueued t) (terminated t) r w.

(** How a call ends: it returns, it throws, or (for [process]) it is
    suspended at [await this.trim_buffer()] holding the slice [bytesToPush]. *)
Inductive Completion : Type :=
| Returns
| Throws
| Awaits (bytesToPush : list Byte.byte).

(** [push(chunk, backpressure_resolver)]: [this.controller!.enqueue(chunk)],
    then the resolver is called when there is one.  Without a controller
    the call throws, and enqueueing on a terminated controller is the host's
    [TypeError]. *)
Definition push (chunk : list Byte.byte) (backpressure_resolver : option Z)
    (t : Throttle) : Throttle * Completion :=
  if negb (controller t) || terminated t then (t, Throws)
  else
    (set_downstream
       (match backpressure_resolver with
        | Some k => writesCompleted t ++ [k]
        | None => writesCompleted t
        end)
       (enqueued t ++ [chunk]) t, Returns).

(** [trim_buffer]: the unemitted bytes move to the front of a fresh buffer of
    [pendingBytesBufferExpandedSize] bytes.  The plain throttle clamps the
    new count against [maxBufferSize]; the backpressure throttle takes the
    length of the transferred slice, and tolerates a released buffer. *)
Definition trim_buffer (cfg : Config) (t : Throttle) : Throttle * Completion :=
  match variant t with
  | Plain =>
      let transferBufferLength :=
        ClampNum (Num.sub (pendingBytesCount t) (pendingBytesReadIndex t))
                 0 (Num.of_Z (maxBufferSize cfg)) in
      match pendingBytesBuffer t with
      | None => (t, Throws)
      | Some buf =>
          let transferredBuffer :=
            TypedArray.subarray buf (pendingBytesReadIndex t) (pendingBytesCount t) in
          let fresh := TypedArray.alloc (pendingBytesBufferExpandedSize t) in
          match TypedArray.set fresh transferredBuffer 0 with
          | None => (set_pendingBytesBuffer (Some fresh) t, Throws)
          | Some buf' =>
              (set_pendingBytesCount transferBufferLength
                 (set_pendingBytesReadIndex 0
                    (set_pendingBytesBuffer (Some buf') t)), Returns)
          end
      end
  | WithBackpressure =>
      let transferredBuffer :=
        match pendingBytesBuffer t with
        | Some buf =>
            TypedArray.subarray buf (pendingBytesReadIndex t) (pendingBytesCount t)
        | None => []
        end in
      let fresh := TypedArray.alloc (pendingBytesBufferExpandedSize t) in
      match TypedArray.set fresh transferredBuffer 0 with
      | None => (set_pendingBytesBuffer (Some fresh) t, Throws)
      | Some buf' =>
          (set_pendingBytesCount (Num.of_Z (Z.of_nat (length transferredBuffer)))
             (set_pendingBytesReadIndex 0
                (set_pendingBytesBuffer (Some buf') t)), Returns)
      end
  end.

(** ** The group and the object store *)

(** The handle [setInterval] returns; it records the period of the timer. *)
Inductive Timeout : Type :=
| Interval (everyMs : Q).

(** The fields of [BandwidthThrottleGroup], the configuration object it
    shares with its throttles, and the store of throttle objects.  A throttle
    is referred to by its index in [heap].  [totalBytesProcessed] and the
    throughput sampler are left out: they do not feed back into scheduling. *)
Record World : Type := mkWorld {
  config : Config;
  heap : list Throttle;
  inFlightRequests : list nat;
  bandwidthThrottles : list nat;
  clockIntervalId : option Timeout;
  lastTickTime : Z;
  tickIndex : Z;
  secondIndex : Z
}.

Definition set_config (c : Config) (w : World) : World :=
  mkWorld c (heap w) (inFlightRequests w) (bandwidthThrottles w)
    (clockIntervalId w) (lastTickTime w) (tickIndex w) (secondIndex w).

Definition set_heap (h : list Throttle) (w : World) : World :=
  mkWorld (config w) h (inFlightRequests w) (bandwidthThrottles w)
    (clockIntervalId w) (lastTickTime w) (tickIndex w) (secondIndex w).

Definition set_inFlightRequests (l : list nat) (w : World) : World :=
  mkWorld (config w) (heap w) l (bandwidthThrottles w)
    (clockIntervalId w) (lastTickTime w) (tickIndex w) (secondIndex w).

Definition set_bandwidthThrottles (l : list nat) (w : World) : World :=
  mkWorld (config w) (heap w) (inFlightRequests w) l
    (clockIntervalId w) (lastTickTime w) (tickIndex w) (secondIndex w).

Definition set_clock (c : option Timeout) (last tick second : Z) (w : World) : World :=
  mkWorld (config w) (heap w) (inFlightRequests w) (bandwidthThrottles w)
    c last tick second.

(** Update the throttle object [id] in place. *)
Definition modifyThrottle (id : nat) (f : Throttle -> Throttle) (w : World) : World :=
  set_heap (alter f id (heap w)) w.

Definition storeThrottle (id : nat) (t : Throttle) (w : World) : World :=
  set_heap (<[id := t]> (heap w)) w.

Definition hasTicked (w : World) : bool := -1 <? lastTickTime w.

Definition isTicking (w : World) : bool :=
  match clockIntervalId w with Some _ => true | None => false end.

(** [new BandwidthThrottleGroup(options)] *)
Definition newGroup (options : Config) : World :=
  mkWorld options [] [] [] None (-1) 0 0.

(** [configure(options)] *)
Definition configure (options : Config) (w : World) : World :=
  set_config options w.

(** The constructor of both throttle classes.  It allocates the buffer at
    [bytesPerSecond * pendingBytesBufferExpandedFactor] bytes; [None] is the
    [RangeError] that [new Uint8Array] throws out of the constructor. *)
Definition newThrottle (v : Variant) (cfg : Config) : option Throttle :=
  let size := bytesPerSecond cfg * 1 in
  match TypedArray.create size with
  | None => None
  | Some buf =>
      Some (mkThrottle v (Some buf) 0 0 1 size
              false false 0 None [] false [] false false false)
  end.

(** [createBandwidthThrottle(contentLength, backpressure)]: the throttle is
    constructed, then registered.  When the constructor throws, the call
    throws before [bandwidthThrottles.push] and the group is as before. *)
Definition createBandwidthThrottle (backpressure : bool) (w : World) : World :=
  match
    newThrottle (if backpressure then WithBackpressure else Plain) (config w)
  with
  | None => w
  | Some t =>
      let id := length (heap w) in
      set_bandwidthThrottles (bandwidthThrottles w ++ [id])
        (set_heap (heap w ++ [t]) w)
  end.

(** [startClock()]: the timer runs five times per tick. *)
Definition startClock (w : World) : Timeout :=
  Interval (Num.div (tickDurationMs (config w)) (Num.of_Z 5)).

(** [stopClock()] *)
Definition stopClock (w : World) : World :=
  set_clock None (-1) 0 0 w.

(** [handleRequestStart(bandwidthThrottle)] *)
Definition handleRequestStart (id : nat) (w : World) : World :=
  let w1 := set_inFlightRequests (inFlightRequests w ++ [id]) w in
  match clockIntervalId w1 with
  | Some _ => w1
  | None =>
      set_clock (Some (startClock w1)) (lastTickTime w1) (tickIndex w1)
        (secondIndex w1) w1
  end.

(** [handleRequestStop(bandwidthThrottle)] *)
Definition handleRequestStop (id : nat) (w : World) : World :=
  let w1 := modifyThrottle id (set_pendingBytesBuffer None) w in
  let w2 :=
    set_inFlightRequests
      (JsArray.splice1 (JsArray.indexOf id (inFlightRequests w1))
         (inFlightRequests w1)) w1 in
  if (length (inFlightRequests w2) =? 0)%nat then stopClock w2 else w2.

(** [handleRequestDestroy(bandwidthThrottle)] *)
Definition handleRequestDestroy (id : nat) (w : World) : World :=
  let w1 := modifyThrottle id (set_pendingBytesBuffer None) w in
  set_bandwidthThrottles
    (JsArray.splice1 (JsArray.indexOf id (bandwidthThrottles w1))
       (bandwidthThrottles w1)) w1.

(** ** Throttle methods *)

(** [destroy()]: [handleRequestDestroy(this)], then the controller, if the
    throttle has one, is terminated. *)
Definition destroy (id : nat) (w : World) : World :=
  modifyThrottle id terminate (handleRequestDestroy id w).

(** [abort()] *)
Definition abort (id : nat) (w : World) : World :=
  destroy id (handleRequestStop id w).

(** [gracefulAbort()] *)
Definition gracefulAbort (id : nat) (w : World) : World :=
  destroy id (handleRequestStop id (modifyThrottle id resolve_done w)).

(** The end of [process]: the completion test, and the end of the request
    when it passes. *)
Definition process_finish (id : nat) (w : World) : World :=
  match heap w !! id with
  | None => w
  | Some t =>
      if Num.ltb (pendingBytesReadIndex t) (pendingBytesCount t)
         || isDataBeingWritten t
         || negb (isThrottled (config w))
      then w
      else destroy id (handleRequestStop id (modifyThrottle id resolve_done w))
  end.

(** [endReadIndex]: the backpressure throttle rounds the quota. *)
Definition endReadIndex (t : Throttle) (maxBytesToProcess : quota) : Q :=
  match maxBytesToProcess with
  | Infinity => pendingBytesCount t
  | Finite m =>
      Num.min
        (Num.add (pendingBytesReadIndex t)
           (match variant t with
            | Plain => m
            | WithBackpressure => Num.of_Z (Num.round m)
            end))
        (pendingBytesCount t)
  end.

(** What [process(maxBytesToProcess)] does to its own throttle up to the
    [await]: with nothing to push ([None]) the buffer is left alone;
    otherwise the slice is taken, the read index advanced and the buffer
    trimmed (the plain throttle pushes the slice first), and the call is
    suspended holding the slice. *)
Definition process_take (cfg : Config) (maxBytesToProcess : quota) (t : Throttle)
    : option (Throttle * Completion) :=
  let startReadIndex := pendingBytesReadIndex t in
  let endReadIndex := endReadIndex t maxBytesToProcess in
  let bytesToPushLength := Num.sub endReadIndex startReadIndex in
  if Num.ltb 0 bytesToPushLength then
    Some
      match pendingBytesBuffer t with
      | None => (t, Throws)
      | Some buf =>
          let bytesToPush := TypedArray.subarray buf startReadIndex endReadIndex in
          let t1 := set_pendingBytesReadIndex endReadIndex t in
          match variant t with
          | Plain =>
              match push bytesToPush None t1 with
              | (t2, Returns) =>
                  match trim_buffer cfg t2 with
                  | (t3, Returns) => (t3, Awaits bytesToPush)
                  | (t3, _) => (t3, Throws)
                  end
              | (t2, _) => (t2, Throws)
              end
          | WithBackpressure =>
              match trim_buffer cfg t1 with
              | (t2, Returns) => (t2, Awaits bytesToPush)
              | (t2, _) => (t2, Throws)
              end
          end
      end
  else None.

(** What [process] does to its own throttle after the [await], before the
    completion test: the backpressure throttle pushes the slice now, handing
    over the pending write resolver. *)
Definition process_push (bytesToPush : list Byte.byte) (t : Throttle)
    : Throttle * Completion :=
  match variant t with
  | Plain => (t, Returns)
  | WithBackpressure =>
      let formerresolver := resolver_backpressure t in
      push bytesToPush formerresolver (set_resolver_backpressure None t)
  end.

(** [process(maxBytesToProcess)] up to its [await]; with nothing to push it
    runs to its end at once. *)
Definition process_begin (id : nat) (maxBytesToProcess : quota) (w : World)
    : World * Completion :=
  match heap w !! id with
  | None => (w, Returns)
  | Some t =>
      match process_take (config w) maxBytesToProcess t with
      | Some (t', c) => (storeThrottle id t' w, c)
      | None => (process_finish id w, Returns)
      end
  end.

(** [process] after its [await]. *)
Definition process_resume (id : nat) (bytesToPush : list Byte.byte) (w : World)
    : World * Completion :=
  match heap w !! id with
  | None => (w, Returns)
  | Some t =>
      match process_push bytesToPush t with
      | (t1, Returns) => (process_finish id (storeThrottle id t1 w), Returns)
      | (t1, c) => (storeThrottle id t1 w, c)
      end
  end.

(** A whole call of [process], run to its end. *)
Definition process (id : nat) (maxBytesToProcess : quota) (w : World)
    : World * Completion :=
  match process_begin id maxBytesToProcess w with
  | (w1, Awaits bytesToPush) => process_resume id bytesToPush w1
  | r => r
  end.

(** The new buffer size in [transform]: a multiple of [bytesPerSecond]
    that holds [needed] bytes, capped at [maxBufferSize]. *)
Definition grow (cfg : Config) (needed : Q) (t : Throttle) : Throttle :=
  let factor := Num.ceil (Num.div needed (Num.of_Z (bytesPerSecond cfg))) in
  if maxBufferSize cfg <? bytesPerSecond cfg * factor
  then set_expanded factor (maxBufferSize cfg) t
  else set_expanded factor (bytesPerSecond cfg * factor) t.

(** [this.pendingBytesBuffer.set(chunk, this.pendingBytesCount);
     this.pendingBytesCount += chunk.length].  With [optional] the call is
    [this.pendingBytesBuffer?.set(...)], which a released buffer skips. *)
Definition append (optional : bool) (chunk : list Byte.byte) (t : Throttle)
    : Throttle * Completion :=
  let bump :=
    set_pendingBytesCount
      (Num.add (pendingBytesCount t) (Num.of_Z (Z.of_nat (length chunk)))) in
  match pendingBytesBuffer t with
  | None => if optional then (bump t, Returns) else (t, Throws)
  | Some buf =>
      match TypedArray.set buf chunk (pendingBytesCount t) with
      | None => (t, Throws)
      | Some buf' => (bump (set_pendingBytesBuffer (Some buf') t), Returns)
      end
  end.

(** What [transform(chunk)] does to the buffer of its throttle: the chunk is
    appended, after making room if the buffer is too small, or the write
    overflows [maxBufferSize]. *)
Inductive Buffered : Type :=
| Appended (t : Throttle) (c : Completion)
| Overflows.

Definition transform_buffer (cfg : Config) (chunk : list Byte.byte) (t : Throttle)
    : Buffered :=
  let chunkLength := Num.of_Z (Z.of_nat (length chunk)) in
  if Num.ltb (Num.of_Z (pendingBytesBufferExpandedSize t))
             (Num.add chunkLength (pendingBytesCount t))
  then
    let remainingContentInBufferLength :=
      Num.sub (pendingBytesCount t) (pendingBytesReadIndex t) in
    let needed := Num.add chunkLength remainingContentInBufferLength in
    if Num.leb needed (Num.of_Z (maxBufferSize cfg)) then
      let t1 :=
        if match variant t with
           | Plain => pendingBytesBufferExpandedSize t <? maxBufferSize cfg
           | WithBackpressure =>
               Num.ltb (Num.of_Z (pendingBytesBufferExpandedSize t))
                 (Num.add remainingContentInBufferLength chunkLength)
           end
        then grow cfg needed t else t in
      match trim_buffer cfg t1 with
      | (t2, Returns) =>
          match append false chunk t2 with
          | (t3, c) => Appended t3 c
          end
      | (t2, c) => Appended t2 c
      end
    else Overflows
  else
    match append true chunk t with
    | (t1, c) => Appended t1 c
    end.

(** [transform(chunk)]: the write path. *)
Definition transform (id : nat) (chunk : list Byte.byte) (w : World)
    : World * Completion :=
  match heap w !! id with
  | None => (w, Returns)
  | Some t0 =>
      let w1 :=
        if isDataBeingWritten t0 then w
        else modifyThrottle id (set_isDataBeingWritten true)
               (handleRequestStart id w) in
      match transform_buffer (config w1) chunk (set_isDataBeingWritten true t0) with
      | Overflows => (handleRequestDestroy id w1, Returns)
      | Appended t Returns =>
          let w2 := storeThrottle id t w1 in
          if isThrottled (config w2) then (w2, Returns)
          else (fst (process id Infinity w2), Returns)
      | Appended t c => (storeThrottle id t w1, c)
      end
  end.

(** What the promise returned by [flush] does: it is settled at once, or it
    follows [done]. *)
Inductive Flushed : Type :=
| Settled
| FollowsDone.

(** [flush()]: end of input. *)
Definition flush (id : nat) (w : World) : World * Flushed :=
  match heap w !! id with
  | None => (w, Settled)
  | Some t =>
      let w1 := modifyThrottle id (set_isDataBeingWritten false) w in
      if Num.eqb (pendingBytesCount t) 0 then (w1, Settled)
      else if negb (isThrottled (config w1)) then
        (destroy id (handleRequestStop id w1), Settled)
      else (w1, FollowsDone)
  end.

(** The [transform] callback each class hands to the stream constructor:
    what the host calls for a chunk the producer writes.  The wrapper of
    [BaseTransformStream] keeps the controller the host passes.  The result tells
    whether a call of [transform(chunk)] has been scheduled (the backpressure
    throttle schedules it through [setTimeout], for the first 1000 chunks;
    the plain throttle has the call commented out).  The promise of the
    write is resolved by [push] for the backpressure throttle, and by nobody
    for the plain one. *)
Definition onChunk (id : nat) (w : World) : World * bool :=
  match heap w !! id with
  | None => (w, false)
  | Some t =>
      let n := chunkCounter t + 1 in
      match variant t with
      | Plain =>
          (modifyThrottle id
             (fun t => set_chunkCounter n (set_controller true t)) w, false)
      | WithBackpressure =>
          (modifyThrottle id
             (fun t => set_resolver_backpressure (Some n)
                         (set_chunkCounter n (set_controller true t))) w,
           n <=? 1000)
      end
  end.

(** ** The tick *)

(** The callback of [inFlightRequests.forEach] for the element [id] at
    position [i].  The length of the array is read as it is now. *)
Definition tickRequest (period : Z) (delayMultiplier : Q) (id i : nat)
    (w : World) : World * Completion :=
  match heap w !! id with
  | None => (w, Returns)
  | Some t =>
      if negb (readableLocked t) || negb (writableLocked t)
      then (gracefulAbort id w, Returns)
      else
        let len := Z.of_nat (length (inFlightRequests w)) in
        let rotatedIndex := Z.rem (Z.of_nat i + period) len in
        let bytesPerRequestPerSecond :=
          getPartitionedIntegerPartAtIndex (bytesPerSecond (config w)) len
            rotatedIndex in
        let bytesPerRequestPerTick :=
          getPartitionedIntegerPartAtIndex bytesPerRequestPerSecond
            (ticksPerSecond (config w)) (tickIndex w) in
        process_begin id
          (Finite (Num.mul (Num.of_Z bytesPerRequestPerTick) delayMultiplier)) w
  end.

(** [forEach]: the positions [i, i+1, ..] up to the length the array had
    when the loop started ([n] positions are left); a position the array no
    longer has is skipped.  The calls of [process] that are suspended are
    collected in order. *)
Fixpoint forEachInFlight (period : Z) (delayMultiplier : Q) (n i : nat)
    (w : World) (suspended : list (nat * list Byte.byte))
    : World * list (nat * list Byte.byte) :=
  match n with
  | O => (w, suspended)
  | S n' =>
      match inFlightRequests w !! i with
      | None => forEachInFlight period delayMultiplier n' (S i) w suspended
      | Some id =>
          match tickRequest period delayMultiplier id i w with
          | (w1, Awaits bytesToPush) =>
              forEachInFlight period delayMultiplier n' (S i) w1
                (suspended ++ [(id, bytesToPush)])
          | (w1, _) => forEachInFlight period delayMultiplier n' (S i) w1 suspended
          end
      end
  end.

(** The suspended calls of [process] resume, in order, once the tick has
    run to its end. *)
Definition resumeAll (suspended : list (nat * list Byte.byte)) (w : World) : World :=
  foldl (fun w s => fst (process_resume (fst s) (snd s) w)) w suspended.

(** [processInFlightRequests()], called by the clock at time [now]
    ([Date.now()]). *)
Definition processInFlightRequests (now : Z) (w : World) : World :=
  let elapsedTime := if hasTicked w then now - lastTickTime w else 0 in
  if isThrottled (config w) && hasTicked w
     && Num.ltb (Num.of_Z elapsedTime) (tickDurationMs (config w))
  then w
  else
    let delayMultiplier :=
      Num.max 1 (Num.div (Num.of_Z elapsedTime) (tickDurationMs (config w))) in
    let period := Z.rem (secondIndex w) (Z.of_nat (length (inFlightRequests w))) in
    let '(w1, suspended) :=
      forEachInFlight period delayMultiplier (length (inFlightRequests w)) 0 w [] in
    let w2 :=
      if isTicking w1 then
        let tick := tickIndex w1 + 1 in
        let last := if hasTicked w1 then lastTickTime w1 + elapsedTime else now in
        if tick =? ticksPerSecond (config w1)
        then set_clock (clockIntervalId w1) last 0 (secondIndex w1 + 1) w1
        else set_clock (clockIntervalId w1) last tick (secondIndex w1) w1
      else w1 in
    resumeAll suspended w2.

(** [BandwidthThrottleGroup.destroy()]: while the list is not empty, pop its
    last throttle and destroy it.  Every round shortens the list, so its
    length bounds the number of rounds. *)
Fixpoint destroyAll (rounds : nat) (w : World) : World :=
  match rounds with
  | O => w
  | S n =>
      match last (bandwidthThrottles w) with
      | None => w
      | Some id =>
          destroyAll n
            (destroy id
               (set_bandwidthThrottles
                  (take (length (bandwidthThrottles w) - 1) (bandwidthThrottles w)) w))
      end
  end.

Definition destroyGroup (w : World) : World :=
  destroyAll (length (bandwidthThrottles w)) w.

(** ** Events and runs *)

(** What can happen to a group: the calls of its public interface, the
    callbacks of the host (chunks, end of input, the clock), and the host
    locking or releasing the two ends of a throttle. *)
Inductive Event : Type :=
| Create (backpressure : bool)
| Configure (options : Config)
| Lock (id : nat) (readable writable : bool)
| Chunk (id : nat)
| Write (id : nat) (chunk : list Byte.byte)
| Flush (id : nat)
| Process (id : nat) (maxBytesToProcess : quota)
| Abort (id : nat)
| GracefulAbort (id : nat)
| Destroy (id : nat)
| Tick (now : Z)
| DestroyGroup.

Definition step (w : World) (e : Event) : World :=
  match e with
  | Create backpressure => createBandwidthThrottle backpressure w
  | Configure options => configure options w
  | Lock id r wr => modifyThrottle id (set_locked r wr) w
  | Chunk id => fst (onChunk id w)
  | Write id chunk => fst (transform id chunk w)
  | Flush id => fst (flush id w)
  | Process id q => fst (process id q w)
  | Abort id => abort id w
  | GracefulAbort id => gracefulAbort id w
  | Destroy id => destroy id w
  | Tick now => processInFlightRequests now w
  | DestroyGroup => destroyGroup w
  end.

Definition run (events : list Event) (w : World) : World :=
  foldl step w events.

(** The scheduling state of the group. *)
Definition sched (w : World) : list nat * option Timeout * Z * Z * Z :=
  (inFlightRequests w, clockIntervalId w, lastTickTime w, tickIndex w, secondIndex w).

(** The clock is stopped and its counters are reset. *)
Definition clockReset (w : World) : Prop :=
  clockIntervalId w = None /\ tickIndex w = 0 /\ secondIndex w = 0
  /\ lastTickTime w = -1.

(** The invariant of the scheduling state: an empty in-flight list goes with
    a stopped, reset clock, and a stopped clock with an empty list. *)
Definition schedInv (w : World) : Prop :=
  (inFlightRequests w = [] -> clockReset w)
  /\ (clockIntervalId w = None -> inFlightRequests w = []).

(** A throttle has been finalized: [done] is resolved, the group has taken
    it out of its in-flight list and released it, and its controller is
    terminated. *)
Definition finalized (id : nat) (w : World) : bool :=
  match heap w !! id with
  | None => false
  | Some t =>
      done t && terminated t
      && (JsArray.indexOf id (inFlightRequests w) <? 0)
      && (JsArray.indexOf id (bandwidthThrottles w) <? 0)
  end.

(** The bytes a throttle has emitted downstream, in order. *)
Definition emitted (t : Throttle) : list Byte.byte := concat (enqueued t).

(** The unemitted bytes the pending buffer holds. *)
Definition pending (t : Throttle) : list Byte.byte :=
  match pendingBytesBuffer t with
  | None => []
  | Some buf => TypedArray.subarray buf (pendingBytesReadIndex t) (pendingBytesCount t)
  end.

(** One call of [process] seen from its throttle, when the call does not
    end the request: the slice is taken and pushed. *)
Definition emitT (cfg : Config) (maxBytesToProcess : quota) (t : Throttle) : Throttle :=
  match process_take cfg maxBytesToProcess t with
  | Some (t', Awaits bytesToPush) => fst (process_push bytesToPush t')
  | Some (t', _) => t'
  | None => t
  end.

(** A throttle at rest between two calls, holding [c] unemitted bytes: the
    buffer is allocated at its expanded size, which [maxBufferSize] bounds,
    the read index is back at 0 and the count is the integer [c]. *)
Definition Ready (cfg : Config) (t : Throttle) (c : Z) : Prop :=
  exists buf,
    pendingBytesBuffer t = Some buf
    /\ length buf = Z.to_nat (pendingBytesBufferExpandedSize t)
    /\ Z.of_nat (length buf) <= maxBufferSize cfg
    /\ pendingBytesReadIndex t = Num.of_Z 0
    /\ pendingBytesCount t = Num.of_Z c
    /\ 0 <= c <= Z.of_nat (length buf).

(** The same, as a test. *)
Definition atRest (cfg : Config) (t : Throttle) : bool :=
  match pendingBytesBuffer t with
  | None => false
  | Some buf =>
      (length buf =? Z.to_nat (pendingBytesBufferExpandedSize t))%nat
      && (Z.of_nat (length buf) <=? maxBufferSize cfg)
      && (Qnum (pendingBytesReadIndex t) =? 0)
      && (Qden (pendingBytesReadIndex t) =? 1)%positive
      && (Qden (pendingBytesCount t) =? 1)%positive
      && (0 <=? Qnum (pendingBytesCount t))
      && (Qnum (pendingBytesCount t) <=? Z.of_nat (length buf))
  end.

(** The first half of [emitT], up to the [await], and the slice the
    suspended call holds. *)
Definition takeT (cfg : Config) (maxBytesToProcess : quota) (t : Throttle) : Throttle :=
  match process_take cfg maxBytesToProcess t with
  | Some (t', _) => t'
  | None => t
  end.

Definition owed (cfg : Config) (maxBytesToProcess : quota) (t : Throttle)
    : option (list Byte.byte) :=
  match process_take cfg maxBytesToProcess t with
  | Some (_, Awaits bytesToPush) => Some bytesToPush
  | _ => None
  end.

(** The quota of the request at position [j] of [k] requests in flight, in
    the tick [tick] of a second with rotation offset [period]. *)
Definition quotaAt (cfg : Config) (k : nat) (period tick : Z) (j : nat) : Z :=
  getPartitionedIntegerPartAtIndex
    (getPartitionedIntegerPartAtIndex (bytesPerSecond cfg) (Z.of_nat k)
       (Z.rem (Z.of_nat j + period) (Z.of_nat k)))
    (ticksPerSecond cfg) tick.

(** The calls of [process] a tick leaves suspended, for the requests [js]
    (position and throttle) over the store [h]. *)
Definition owedList (cfg : Config) (quota : nat -> Z) (h : list Throttle)
    (js : list (nat * nat)) : list (nat * list Byte.byte) :=
  omap (fun '(j, id) =>
          t ← h !! id;
          s ← owed cfg (Finite (Num.of_Z (quota j))) t;
          Some (id, s)) js.

(** A throttle that a tick with quota [q] leaves in flight: it is at rest
    with at least [q] bytes, open (it has its controller, which is not
    terminated) and locked at both ends, and either its producer is still
    writing or it holds more than [q] bytes. *)
Definition Holds (cfg : Config) (t : Throttle) (q : Z) : Prop :=
  (controller t = true /\ terminated t = false)
  /\ readableLocked t = true /\ writableLocked t = true
  /\ exists c, Ready cfg t c /\ 0 <= q <= c
               /\ (isDataBeingWritten t = true \/ q < c).

(** A throttle a tick with quota [q] can serve in full: it is at rest with
    at least [q] bytes, open and locked at both ends, and its producer is
    still writing or it holds a byte.  The call of [process] that emits its
    last byte may end the request. *)
Definition Feeds (cfg : Config) (t : Throttle) (q : Z) : Prop :=
  (controller t = true /\ terminated t = false)
  /\ readableLocked t = true /\ writableLocked t = true
  /\ exists c, Ready cfg t c /\ 0 <= q <= c
               /\ (isDataBeingWritten t = true \/ 0 < c).

(** [n] firings of the clock, the first at time [now], one every [d] ms. *)
Fixpoint ticks (n : nat) (now d : Z) (w : World) : World :=
  match n with
  | O => w
  | S n' => ticks n' (now + d) d (processInFlightRequests now w)
  end.

(** The number of bytes throttle [id] has emitted. *)
Definition emittedCount (id : nat) (w : World) : Z :=
  match heap w !! id with
  | None => 0
  | Some t => Z.of_nat (length (emitted t))
  end.

(** The counters after one tick: [tickIndex] wraps at [ticksPerSecond] and
    carries into [secondIndex]. *)
Definition nextTick (cfg : Config) (c : Z * Z) : Z * Z :=
  if fst c + 1 =? ticksPerSecond cfg then (0, snd c + 1) else (fst c + 1, snd c).


(** The quotas the request at position [j] of [k] gets in [n] consecutive
    ticks, starting with the counters [c = (tickIndex, secondIndex)]. *)
Fixpoint budget (cfg : Config) (k j n : nat) (c : Z * Z) : Z :=
  match n with
  | O => 0
  | S n' =>
      quotaAt cfg k (Z.rem (snd c) (Z.of_nat k)) (fst c) j
      + budget cfg k j n' (nextTick cfg c)
  end.



Definition total (l : list Z) : Z := foldr Z.add 0 l.


(** A test that keeps the in-flight list as it is for a second: on top of
    the above, the producer of throttle [id] is still writing or the
    throttle holds more than [b] bytes, so that emitting [b] bytes does not
    end the request. *)
Definition stocked (w : World) (b : Z) (id : nat) : bool :=
  match heap w !! id with
  | None => false
  | Some t =>
      atRest (config w) t && (controller t && negb (terminated t))
      && readableLocked t && writableLocked t
      && (b <=? Z.of_nat (length (pending t)))
      && (isDataBeingWritten t || (b <? Z.of_nat (length (pending t))))
  end.

(** ** Comparing the two throttle classes *)

(** A throttle without what only the backpressure class keeps: the class
    itself, the pending write resolver and the writes it has completed. *)
Definition erase (t : Throttle) : Throttle :=
  mkThrottle Plain (pendingBytesBuffer t) (pendingBytesCount t)
    (pendingBytesReadIndex t) (pendingBytesBufferExpandedFactor t)
    (pendingBytesBufferExpandedSize t) (isDataBeingWritten t) (done t)
    (chunkCounter t) None [] (controller t) (enqueued t) (terminated t)
    (readableLocked t) (writableLocked t).

Definition eraseW (w : World) : World := set_heap (erase <$> heap w) w.

Definition eraseBuffered (b : Buffered) : Buffered :=
  match b with
  | Appended t c => Appended (erase t) c
  | Overflows => Overflows
  end.

(** A whole call of [process] seen from its throttle; the flag tells
    whether the call reaches the completion test. *)
Definition processT (cfg : Config) (maxBytesToProcess : quota) (t : Throttle)
    : Throttle * bool :=
  match process_take cfg maxBytesToProcess t with
  | None => (t, true)
  | Some (t1, Awaits bytesToPush) =>
      match process_push bytesToPush t1 with
      | (t2, Returns) => (t2, true)
      | (t2, _) => (t2, false)
      end
  | Some (t1, _) => (t1, false)
  end.

(** A throttle between two calls of a run with integer quotas: the read
    index is 0, the count an integer [c >= 0]; as long as the buffer has not
    been released, it is allocated at its expanded size, [maxBufferSize]
    bounds it, it holds the [c] bytes, and the controller is open. *)
Definition Sound (cfg : Config) (t : Throttle) : Prop :=
  pendingBytesReadIndex t = Num.of_Z 0
  /\ exists c, pendingBytesCount t = Num.of_Z c /\ 0 <= c
       /\ forall buf, pendingBytesBuffer t = Some buf ->
            length buf = Z.to_nat (pendingBytesBufferExpandedSize t)
            /\ Z.of_nat (length buf) <= maxBufferSize cfg
            /\ c <= Z.of_nat (length buf)
            /\ controller t = true /\ terminated t = false.

Definition SoundW (w : World) : Prop :=
  forall id t, heap w !! id = Some t -> Sound (config w) t.

Definition isInteger (q : Q) : bool := (Qden q =? 1)%positive.

(** The calls the comparison is about: the host delivering a chunk,
    [transform], [flush] and [process] with an integer quota or none. *)
Definition throttleCall (e : Event) : bool :=
  match e with
  | Chunk _ | Write _ _ | Flush _ | Process _ Infinity => true
  | Process _ (Finite q) => isInteger q
  | _ => false
  end.

(** The producer does not write to a throttle whose buffer has been
    released, that is, after a write that overflowed or after the end of
    the request. *)
Definition writable (e : Event) (w : World) : bool :=
  match e with
  | Write id _ =>
      match heap w !! id with
      | Some t => match pendingBytesBuffer t with Some _ => true | None => false end
      | None => true
      end
  | _ => true
  end.

Fixpoint wellUsed (events : list Event) (w : World) : bool :=
  match events with
  | [] => true
  | e :: rest => throttleCall e && writable e w && wellUsed rest (step w e)
  end.

(** A group with one throttle of the given class. *)
Definition single (backpressure : bool) (options : Config) : World :=
  createBandwidthThrottle backpressure (newGroup options).

(** The same once the host has delivered a first chunk, handing over the
    controller. *)
Definition piped (backpressure : bool) (options : Config) : World :=
  step (single backpressure options) (Chunk 0).

(** ** The registry and the history of a throttle *)

(** [getThisThrottleIndex(throttle)] *)
Definition getThisThrottleIndex (id : nat) (w : World) : Z :=
  JsArray.indexOf id (bandwidthThrottles w).

(** The registry lists every throttle once, and lists throttle objects
    only. *)
Definition registered (w : World) : Prop :=
  NoDup (bandwidthThrottles w)
  /\ Forall (fun id => (id < length (heap w))%nat) (bandwidthThrottles w).

(** What a later state [t'] of a throttle keeps of an earlier state [t]:
    the chunks enqueued and the writes completed, in order; [done] once
    resolved, the controller once handed over and once terminated; the
    class; the chunks counted. *)
Definition Kept (t t' : Throttle) : Prop :=
  enqueued t `prefix_of` enqueued t'
  /\ writesCompleted t `prefix_of` writesCompleted t'
  /\ (done t = true -> done t' = true)
  /\ (terminated t = true -> terminated t' = true)
  /\ (controller t = true -> controller t' = true)
  /\ variant t' = variant t
  /\ chunkCounter t <= chunkCounter t'.

Definition KeptW (w w' : World) : Prop :=
  forall id t, heap w !! id = Some t ->
    exists t', heap w' !! id = Some t' /\ Kept t t'.

(** A plain throttle that has completed no write and holds no resolver. *)
Definition Unanswered (t : Throttle) : Prop :=
  variant t = Plain -> writesCompleted t = [] /\ resolver_backpressure t = None.

(** The throttles [BandwidthThrottleGroup.destroy()] destroys: those at an
    even distance from the end of the registry. *)
Definition destroyedByGroup (registry : list nat) (id : nat) : bool :=
  let k := JsArray.indexOf id (reverse registry) in
  (0 <=? k) && Z.even k.

(** Across the loop of the tick and across the calls that resume after it,
    the clock is left as it is, or it is stopped. *)
Definition clockKept (w w' : World) : Prop :=
  clockIntervalId w' = None
  \/ (clockIntervalId w', lastTickTime w', tickIndex w', secondIndex w')
     = (clockIntervalId w, lastTickTime w, tickIndex w, secondIndex w).

(** ** Accounting for the bytes *)








(** ** Acknowledging the writes *)

(** The acknowledgements of a throttle are in order: the completed writes
    are numbers of delivered chunks, strictly increasing, each completed
    together with an emitted slice; a resolver that is held is the one of
    the latest chunk, which is not completed yet. *)
Definition Acked (t : Throttle) : Prop :=
  0 <= chunkCounter t
  /\ StronglySorted Z.lt (writesCompleted t)
  /\ Forall (fun k => 1 <= k <= chunkCounter t) (writesCompleted t)
  /\ (length (writesCompleted t) <= length (enqueued t))%nat
  /\ forall k, resolver_backpressure t = Some k ->
       variant t = WithBackpressure /\ k = chunkCounter t /\ 1 <= k
       /\ Forall (fun j => j < k) (writesCompleted t).

(** ** Counting the chunks *)

(** The number of chunks the host delivers to throttle [id] in the events. *)
Definition delivered (id : nat) (events : list Event) : Z :=
  Z.of_nat
    (length (omap (fun e => match e with
                            | Chunk i => if decide (i = id) then Some i else None
                            | _ => None
                            end) events)).

(** The chunk counter and the class of a throttle are as before. *)
Definition CounterKept (t t' : Throttle) : Prop :=
  chunkCounter t' = chunkCounter t /\ variant t' = variant t.

Definition CounterKeptW (w w' : World) : Prop :=
  forall id t, heap w !! id = Some t ->
    exists t', heap w' !! id = Some t' /\ CounterKept t t'.

(** ** A write through the stream *)

(** A chunk the producer writes to the stream of a throttle: the host calls
    the [transform] callback of the constructor, and the call of
    [transform(chunk)] that the callback has scheduled, if any, runs when
    its timer fires (1000 ms later), here with nothing else in between. *)
Definition streamWrite (id : nat) (chunk : list Byte.byte) (w : World) : World :=
  let (w1, scheduled) := onChunk id w in
  if scheduled then fst (transform id chunk w1) else w1.

(** ** Test data *)

Definition byteAt (n : nat) : Byte.byte :=
  match Strings.Byte.of_N (N.of_nat n mod 256) with
  | Some b => b
  | None => Byte.x00
  end.

(** [n] bytes with the values [start], [start + 1], ... *)
Definition bytesFrom (start n : nat) : list Byte.byte := map byteAt (seq start n).

(** A throttled configuration: 100 bytes per second in 10 ticks, buffers
    of at most 10000 bytes; and the same without throttling. *)
Definition throttledConfig : Config := mkConfig 100 true 10 10000.

(** One plain throttle, both ends locked by the host, which has delivered a
    chunk; 50 bytes written. *)
Definition oneWrite (options : Config) : World :=
  run [Create false; Lock 0 true true; Chunk 0; Write 0 (bytesFrom 0 50)]
    (newGroup options).

(** One plain throttle whose 10 bytes the first tick has emitted, the
    producer still writing. *)
Definition drainedWhileWriting : World :=
  run [Create false; Lock 0 true true; Chunk 0; Write 0 (bytesFrom 0 10); Tick 0]
    (newGroup throttledConfig).

(** A whole request: 50 bytes, end of input, and the five ticks that emit
    them. *)
Definition wholeRequest : list Event :=
  [Create false; Lock 0 true true; Chunk 0; Write 0 (bytesFrom 0 50); Flush 0;
   Tick 0; Tick 100; Tick 200; Tick 300; Tick 400].

(** Seed scenario 5: buffers of at most 1000 bytes, one chunk of 1500. *)
Definition smallBufferConfig : Config := mkConfig 100 true 10 1000.

Definition overflowingWrite (backpressure : bool) : World :=
  run [Create backpressure; Lock 0 true true; Chunk 0; Write 0 (bytesFrom 0 1500)]
    (newGroup smallBufferConfig).



(** Two throttles, the second one in flight with 3 bytes pending. *)
Definition twoThrottles : World :=
  run [Create false; Create false; Lock 1 true true; Chunk 0; Chunk 1;
       Write 1 (bytesFrom 0 3)]
    (newGroup throttledConfig).

(** Seed scenario 3: 7 bytes per second in one tick per second, three
    requests in flight (the second one with backpressure), 100 bytes each. *)
Definition sevenConfig : Config := mkConfig 7 true 1 10000.

Definition threeRequests : World :=
  run [Create false; Create true; Create false;
       Lock 0 true true; Lock 1 true true; Lock 2 true true;
       Chunk 0; Chunk 1; Chunk 2;
       Write 0 (bytesFrom 0 100); Write 1 (bytesFrom 0 100);
       Write 2 (bytesFrom 0 100)]
    (newGroup sevenConfig).


(** A write of 20 bytes, then a call of [process] with the quota 7.5 (the
    quota of a tick that is late by half its period, for 5 bytes per tick). *)
Definition fractionalQuota : list Event :=
  [Write 0%nat (bytesFrom 0 20); Process 0%nat (Finite (15 # 2))].

(** Two writes with calls of [process] between them, a second chunk
    delivered by the host, the end of input and a last call of [process],
    all with whole quotas. *)
Definition wholeQuotas : list Event :=
  [Write 0%nat (bytesFrom 0 20); Process 0%nat (Finite 7);
   Chunk 0%nat; Write 0%nat (bytesFrom 20 200); Process 0%nat Infinity;
   Flush 0%nat; Process 0%nat (Finite 3)].

(** A write that overflows [smallBufferConfig], followed by another write. *)
Definition writeAfterOverflow : list Event :=
  [Write 0%nat (bytesFrom 0 600); Write 0%nat (bytesFrom 0 600);
   Write 0%nat (bytesFrom 0 10)].

(** A fresh group with one throttle of each class, and a run that takes
    50 bytes through the plain one. *)
Definition twoClasses : World :=
  run [Create false; Create true] (newGroup throttledConfig).

Definition servedRequest : list Event :=
  [Lock 0 true true; Chunk 0; Write 0 (bytesFrom 0 50); Tick 0; Tick 100;
   Flush 0; Tick 200; Tick 300; Tick 400].

(** Four throttles, alternately plain and with backpressure, each with its
    controller. *)
Definition fourThrottles : World :=
  run [Create false; Create true; Create false; Create true;
       Chunk 0; Chunk 1; Chunk 2; Chunk 3]
    (newGroup throttledConfig).

(** Three requests in flight and a fourth throttle that has not started. *)
Definition threeInFlight : World :=
  run [Create false; Create true; Create false; Create true;
       Lock 0 true true; Lock 1 true true; Lock 2 true true;
       Chunk 0; Chunk 1; Chunk 2; Chunk 3;
       Write 0 (bytesFrom 0 30); Write 1 (bytesFrom 0 30);
       Write 2 (bytesFrom 0 30)]
    (newGroup throttledConfig).




(** A backpressure throttle whose producer writes two chunks of 30 bytes.
    The callback for the first comes at time 0 and its call of [transform]
    at 1000, which starts the clock; the tick at 1020 completes the write,
    so the host calls the callback for the second chunk, whose call of
    [transform] comes at 2020.  The clock ticks every 100 ms. *)
Definition twoChunks : list Event :=
  [Create true; Lock 0%nat true true; Chunk 0%nat; Write 0%nat (bytesFrom 0 30);
   Tick 1020; Chunk 0%nat; Tick 1120; Tick 1220; Tick 1320; Tick 1420;
   Tick 1520; Tick 1620; Tick 1720; Tick 1820; Tick 1920;
   Write 0%nat (bytesFrom 30 30); Tick 2020; Tick 2120; Tick 2220].

(** Three requests in flight; the reader of the first has gone. *)
Definition readerGone : World :=
  run [Lock 0%nat false true] threeInFlight.

(** A request that has been served to its end. *)
Definition servedToTheEnd : World :=
  run wholeRequest (newGroup throttledConfig).

(** A plain throttle that is written to before the host has delivered a
    chunk, so that it has no controller. *)
Definition unpiped : World :=
  run [Create false; Lock 0%nat true true; Write 0%nat (bytesFrom 0 30)]
    (newGroup throttledConfig).

(** A throttle of [throttledConfig] as its constructor leaves it. *)
Definition freshThrottle (v : Variant) : Throttle :=
  mkThrottle v (Some (TypedArray.alloc 100)) 0 0 1 100
    false false 0 None [] false [] false false false.

(** * Properties *)

(** ** The partitioner *)

Lemma partitionSum_closed (N P : Z) (n : nat) :
  0 <= N -> 1 <= P -> Z.of_nat n <= P ->
  partitionSum N P n = Z.of_nat n * (N / P) + Z.min (Z.of_nat n) (N mod P).
Proof.
  intros HN HP.
  pose proof (Z.mod_pos_bound N P ltac:(lia)) as Hmod.
  induction n as [|n IH]; intros Hn.
  - cbn [partitionSum]. lia.
  - cbn [partitionSum]. rewrite IH by lia.
    unfold getPartitionedIntegerPartAtIndex.
    destruct (Z.ltb_spec (Z.of_nat n) (N mod P)); lia.
Qed.

Lemma partition_exact_sum_aux (N P : Z) :
  0 <= N -> 1 <= P -> partitionSum N P (Z.to_nat P) = N.
Proof.
  intros HN HP. rewrite partitionSum_closed by lia.
  rewrite Z2Nat.id by lia.
  pose proof (Z.mod_pos_bound N P ltac:(lia)).
  pose proof (Z.div_mod N P ltac:(lia)). lia.
Qed.

(** C2: for [N >= 0] and [P >= 1] the parts at the indices [0 .. P-1] are
    non-negative, each is [N / P] or [N / P + 1], exactly the indices below
    [N mod P] get the larger value, and the parts sum to [N]. *)
Theorem partition_exact (N P : Z) :
  0 <= N -> 1 <= P ->
  (forall i, 0 <= i < P ->
     0 <= getPartitionedIntegerPartAtIndex N P i
     /\ (getPartitionedIntegerPartAtIndex N P i = N / P
         \/ getPartitionedIntegerPartAtIndex N P i = N / P + 1)
     /\ (getPartitionedIntegerPartAtIndex N P i = N / P + 1 <-> i < N mod P))
  /\ partitionSum N P (Z.to_nat P) = N.
Proof.
  intros HN HP. split.
  - intros i Hi. unfold getPartitionedIntegerPartAtIndex.
    assert (0 <= N / P) by (apply Z.div_pos; lia).
    destruct (Z.ltb_spec i (N mod P)); repeat split; try lia.
  - now apply partition_exact_sum_aux.
Qed.

Lemma partition_exact_witness :
  0 <= 7 /\ 1 <= 3
  /\ ((forall i, 0 <= i < 3 ->
        0 <= getPartitionedIntegerPartAtIndex 7 3 i
        /\ (getPartitionedIntegerPartAtIndex 7 3 i = 7 / 3
            \/ getPartitionedIntegerPartAtIndex 7 3 i = 7 / 3 + 1)
        /\ (getPartitionedIntegerPartAtIndex 7 3 i = 7 / 3 + 1 <-> i < 7 mod 3))
      /\ partitionSum 7 3 (Z.to_nat 3) = 7).
Proof.
  split; [lia | split; [lia | apply (partition_exact 7 3); lia]].
Defined.

(** ** The scheduling invariant *)

Create HintDb sched.

Lemma schedInv_same (w w' : World) :
  sched w' = sched w -> schedInv w -> schedInv w'.
Proof.
  unfold sched, schedInv, clockReset. intros E. injection E as -> -> -> -> ->.
  trivial.
Qed.

Lemma sched_modifyThrottle id f w : sched (modifyThrottle id f w) = sched w.
Proof. reflexivity. Qed.

Lemma sched_storeThrottle id t w : sched (storeThrottle id t w) = sched w.
Proof. reflexivity. Qed.

Lemma sched_handleRequestDestroy id w : sched (handleRequestDestroy id w) = sched w.
Proof. reflexivity. Qed.

Lemma sched_destroy id w : sched (destroy id w) = sched w.
Proof. reflexivity. Qed.

Lemma schedInv_modifyThrottle id f w : schedInv w -> schedInv (modifyThrottle id f w).
Proof. apply schedInv_same, sched_modifyThrottle. Qed.

Lemma schedInv_storeThrottle id t w : schedInv w -> schedInv (storeThrottle id t w).
Proof. apply schedInv_same, sched_storeThrottle. Qed.

Lemma schedInv_handleRequestDestroy id w :
  schedInv w -> schedInv (handleRequestDestroy id w).
Proof. apply schedInv_same, sched_handleRequestDestroy. Qed.

Lemma schedInv_destroy id w : schedInv w -> schedInv (destroy id w).
Proof. apply schedInv_same, sched_destroy. Qed.

Lemma schedInv_handleRequestStart id w : schedInv (handleRequestStart id w).
Proof.
  unfold handleRequestStart, schedInv, clockReset.
  destruct w as [c h fl bt [tm|] l ti si]; simpl; split; intros H;
    try discriminate; destruct fl; discriminate.
Qed.

Lemma schedInv_stopClock w :
  inFlightRequests w = [] -> schedInv (stopClock w).
Proof. intros H. unfold schedInv, clockReset. simpl. tauto. Qed.

Lemma schedInv_handleRequestStop id w :
  schedInv w -> schedInv (handleRequestStop id w).
Proof.
  intros [H1 H2]. unfold handleRequestStop.
  set (w2 := set_inFlightRequests _ _).
  destruct (Nat.eqb_spec (length (inFlightRequests w2)) 0) as [E|E].
  - apply schedInv_stopClock. now apply length_zero_iff_nil.
  - split; intros H.
    + rewrite H in E. now simpl in E.
    + exfalso. apply E. subst w2. simpl in *.
      rewrite (H2 H). reflexivity.
Qed.

#[local] Hint Resolve schedInv_modifyThrottle schedInv_storeThrottle
  schedInv_handleRequestDestroy schedInv_destroy schedInv_handleRequestStart
  schedInv_handleRequestStop : sched.

Lemma schedInv_abort id w : schedInv w -> schedInv (abort id w).
Proof. unfold abort. auto with sched. Qed.

Lemma schedInv_gracefulAbort id w : schedInv w -> schedInv (gracefulAbort id w).
Proof. unfold gracefulAbort. auto with sched. Qed.

Lemma schedInv_process_finish id w : schedInv w -> schedInv (process_finish id w).
Proof. unfold process_finish. intros. repeat case_match; auto with sched. Qed.

#[local] Hint Resolve schedInv_abort schedInv_gracefulAbort
  schedInv_process_finish : sched.

Lemma schedInv_process_begin id q w :
  schedInv w -> schedInv (fst (process_begin id q w)).
Proof.
  unfold process_begin. intros. repeat case_match; simpl; auto with sched.
Qed.

Lemma schedInv_process_resume id b w :
  schedInv w -> schedInv (fst (process_resume id b w)).
Proof.
  unfold process_resume. intros. repeat case_match; simpl; auto with sched.
Qed.

#[local] Hint Resolve schedInv_process_begin schedInv_process_resume : sched.

Lemma schedInv_process id q w :
  schedInv w -> schedInv (fst (process id q w)).
Proof.
  unfold process. intros H.
  pose proof (schedInv_process_begin id q w H) as Hb.
  destruct (process_begin id q w) as [w1 [| |b]]; simpl in *; auto with sched.
Qed.

#[local] Hint Resolve schedInv_process : sched.

Lemma schedInv_transform id chunk w :
  schedInv w -> schedInv (fst (transform id chunk w)).
Proof.
  unfold transform. intros.
  repeat case_match; simplify_eq; simpl; auto 6 with sched.
Qed.

Lemma schedInv_flush id w : schedInv w -> schedInv (fst (flush id w)).
Proof. unfold flush. intros. repeat case_match; simpl; auto with sched. Qed.

Lemma schedInv_onChunk id w : schedInv w -> schedInv (fst (onChunk id w)).
Proof. unfold onChunk. intros. repeat case_match; simpl; auto with sched. Qed.

Lemma schedInv_tickRequest period m id i w :
  schedInv w -> schedInv (fst (tickRequest period m id i w)).
Proof. unfold tickRequest. intros. repeat case_match; simpl; auto with sched. Qed.

Lemma schedInv_forEachInFlight period m n :
  forall i w s, schedInv w -> schedInv (fst (forEachInFlight period m n i w s)).
Proof.
  induction n as [|n IH]; intros i w s H; simpl; [exact H|].
  destruct (inFlightRequests w !! i) as [id|]; [|auto].
  pose proof (schedInv_tickRequest period m id i w H) as Ht.
  destruct (tickRequest period m id i w) as [w1 [| |b]]; simpl in Ht; auto.
Qed.

Lemma schedInv_resumeAll s : forall w, schedInv w -> schedInv (resumeAll s w).
Proof.
  unfold resumeAll. induction s as [|[id b] s IH]; intros w H; simpl; [exact H|].
  apply IH. auto with sched.
Qed.

Lemma schedInv_processInFlightRequests now w :
  schedInv w -> schedInv (processInFlightRequests now w).
Proof.
  intros H. unfold processInFlightRequests.
  case_match; [exact H|].
  match goal with
  | |- context [forEachInFlight ?p ?m ?n ?i ?w ?s] =>
      pose proof (schedInv_forEachInFlight p m n i w s H) as Hf;
      destruct (forEachInFlight p m n i w s) as [w1 susp]
  end.
  simpl in Hf. apply schedInv_resumeAll.
  unfold isTicking. destruct (clockIntervalId w1) as [tm|] eqn:Hc; [|exact Hf].
  destruct Hf as [H1 H2].
  assert (Hne : inFlightRequests w1 <> []).
  { intros E. destruct (H1 E) as [E' _]. congruence. }
  destruct (tickIndex w1 + 1 =? ticksPerSecond (config w1));
    split; simpl; intros; try contradiction; try congruence.
Qed.

Lemma createBandwidthThrottle_cases b w :
  createBandwidthThrottle b w = w
  \/ exists t,
       newThrottle (if b then WithBackpressure else Plain) (config w) = Some t
       /\ createBandwidthThrottle b w
          = set_bandwidthThrottles (bandwidthThrottles w ++ [length (heap w)])
              (set_heap (heap w ++ [t]) w).
Proof.
  unfold createBandwidthThrottle. destruct (newThrottle _ _) as [t|]; eauto.
Qed.

Lemma newThrottle_Some v cfg t :
  newThrottle v cfg = Some t ->
  t = mkThrottle v (Some (TypedArray.alloc (bytesPerSecond cfg * 1))) 0 0 1
        (bytesPerSecond cfg * 1) false false 0 None [] false [] false false false
  /\ 0 <= bytesPerSecond cfg <= TypedArray.maxLength.
Proof.
  unfold newThrottle, TypedArray.create.
  destruct (Z.ltb_spec (bytesPerSecond cfg * 1) 0);
    destruct (Z.ltb_spec TypedArray.maxLength (bytesPerSecond cfg * 1));
    cbn [orb]; try discriminate.
  intros [= <-]. split; [reflexivity | lia].
Qed.

Lemma schedInv_createBandwidthThrottle b w :
  schedInv w -> schedInv (createBandwidthThrottle b w).
Proof.
  destruct (createBandwidthThrottle_cases b w) as [->|(t & _ & ->)]; [trivial|].
  apply schedInv_same. reflexivity.
Qed.

Lemma schedInv_destroyAll n : forall w, schedInv w -> schedInv (destroyAll n w).
Proof.
  induction n as [|n IH]; intros w H; simpl; [exact H|].
  case_match; [|exact H]. apply IH, schedInv_destroy.
  revert H. apply schedInv_same. reflexivity.
Qed.

Lemma schedInv_step w e : schedInv w -> schedInv (step w e).
Proof.
  intros H. destruct e; simpl;
    auto using schedInv_createBandwidthThrottle, schedInv_transform,
      schedInv_flush, schedInv_onChunk, schedInv_processInFlightRequests
      with sched.
  apply schedInv_destroyAll, H.
Qed.

Lemma schedInv_run events : forall w, schedInv w -> schedInv (run events w).
Proof.
  unfold run. induction events as [|e events IH]; intros w H; simpl; [exact H|].
  apply IH, schedInv_step, H.
Qed.

Lemma schedInv_newGroup options : schedInv (newGroup options).
Proof. unfold schedInv, clockReset. simpl. tauto. Qed.

(** C5: in every state a group can reach, the in-flight list is non-empty
    exactly when the clock runs; the clock is started by the request that
    makes the list non-empty and left alone by later ones; it is stopped by
    the request whose end empties the list and left alone otherwise. *)
Theorem clock_runs_iff_in_flight (options : Config) (events : list Event) :
  let w := run events (newGroup options) in
  (inFlightRequests w <> [] <-> clockIntervalId w <> None)
  /\ (forall id,
        (inFlightRequests w = [] ->
           inFlightRequests (handleRequestStart id w) = [id]
           /\ clockIntervalId (handleRequestStart id w) = Some (startClock w))
        /\ (inFlightRequests w <> [] ->
             clockIntervalId (handleRequestStart id w) = clockIntervalId w))
  /\ (forall id,
        (inFlightRequests (handleRequestStop id w) = [] ->
           clockIntervalId (handleRequestStop id w) = None)
        /\ (inFlightRequests (handleRequestStop id w) <> [] ->
             clockIntervalId (handleRequestStop id w) = clockIntervalId w)).
Proof.
  intros w.
  pose proof (schedInv_run events _ (schedInv_newGroup options)) as [H1 H2].
  fold w in H1, H2. split; [|split].
  - split.
    + intros Hne Hc. apply Hne, H2, Hc.
    + intros Hc E. apply Hc. now destruct (H1 E).
  - intros id. split.
    + intros E. destruct (H1 E) as [Hc _].
      unfold handleRequestStart. simpl. rewrite Hc, E. split; reflexivity.
    + intros Hne. unfold handleRequestStart. cbn.
      destruct (clockIntervalId w) eqn:Hc; cbn; [exact Hc|].
      exfalso. apply Hne, H2. reflexivity.
  - intros id. unfold handleRequestStop.
    set (w2 := set_inFlightRequests _ _).
    destruct (Nat.eqb_spec (length (inFlightRequests w2)) 0) as [E|E].
    + split; [reflexivity|]. intros Hne. exfalso. apply Hne.
      simpl. simpl in E. now apply length_zero_iff_nil.
    + split; [|reflexivity]. intros E'. rewrite E' in E. now simpl in E.
Qed.

(** C10: in every state a group can reach with an empty in-flight list, the
    clock handle is null, [tickIndex] and [secondIndex] are 0 and
    [lastTickTime] is -1, as [stopClock] leaves them; so the request that
    starts the next period of activity finds rotation offset 0 and no tick
    on record, which makes the elapsed time of its first tick 0. *)
Theorem empty_group_is_reset (options : Config) (events : list Event) :
  let w := run events (newGroup options) in
  inFlightRequests w = [] ->
  clockReset w
  /\ sched w = sched (stopClock w)
  /\ forall id,
       secondIndex (handleRequestStart id w) = 0
       /\ tickIndex (handleRequestStart id w) = 0
       /\ hasTicked (handleRequestStart id w) = false.
Proof.
  intros w E.
  pose proof (schedInv_run events _ (schedInv_newGroup options)) as [H1 _].
  fold w in H1. destruct (H1 E) as (Hc & Ht & Hs & Hl).
  split; [repeat split; assumption|]. split.
  - unfold sched. simpl. congruence.
  - intros id. unfold handleRequestStart, hasTicked. simpl.
    rewrite Hc. simpl. rewrite Hs, Ht, Hl. repeat split.
Qed.

Lemma empty_group_is_reset_witness :
  inFlightRequests (run wholeRequest (newGroup throttledConfig)) = []
  /\ clockReset (run wholeRequest (newGroup throttledConfig)).
Proof.
  split; [vm_compute; reflexivity|].
  apply (empty_group_is_reset throttledConfig wholeRequest).
  vm_compute; reflexivity.
Defined.

(** ** What the throttle-local steps leave alone *)

(** Two states of a throttle with the same standing towards the group and
    the host. *)
Definition sameStanding (t t' : Throttle) : Prop :=
  done t' = done t /\ terminated t' = terminated t
  /\ isDataBeingWritten t' = isDataBeingWritten t /\ variant t' = variant t
  /\ readableLocked t' = readableLocked t /\ writableLocked t' = writableLocked t
  /\ controller t' = controller t.

Lemma sameStanding_refl t : sameStanding t t.
Proof. repeat split. Qed.

Lemma sameStanding_trans t1 t2 t3 :
  sameStanding t1 t2 -> sameStanding t2 t3 -> sameStanding t1 t3.
Proof. unfold sameStanding. intuition congruence. Qed.



Lemma storeThrottle_same id t w :
  heap w !! id = Some t -> storeThrottle id t w = w.
Proof.
  intros H. unfold storeThrottle. rewrite list_insert_id by exact H.
  now destruct w.
Qed.

Lemma storeThrottle_twice id t t' w :
  storeThrottle id t' (storeThrottle id t w) = storeThrottle id t' w.
Proof. unfold storeThrottle. simpl. now rewrite list_insert_insert_eq. Qed.

Lemma lookup_storeThrottle id t t0 w :
  heap w !! id = Some t0 -> heap (storeThrottle id t w) !! id = Some t.
Proof.
  intros H. simpl. apply list_lookup_insert_eq. eapply lookup_lt_Some, H.
Qed.










(** ** End of input *)

Lemma lookup_modifyThrottle id f w t :
  heap w !! id = Some t -> heap (modifyThrottle id f w) !! id = Some (f t).
Proof. intros H. simpl. rewrite list_lookup_alter_eq, H. reflexivity. Qed.

Lemma heap_handleRequestStop id w :
  heap (handleRequestStop id w) = alter (set_pendingBytesBuffer None) id (heap w).
Proof. unfold handleRequestStop. case_match; reflexivity. Qed.

Lemma heap_destroy id w :
  heap (destroy id w)
  = alter terminate id (alter (set_pendingBytesBuffer None) id (heap w)).
Proof. reflexivity. Qed.

Lemma lookup_end_of_request id w t :
  heap w !! id = Some t ->
  heap (destroy id (handleRequestStop id w)) !! id
  = Some (terminate (set_pendingBytesBuffer None (set_pendingBytesBuffer None t))).
Proof.
  intros H. rewrite heap_destroy, heap_handleRequestStop.
  rewrite !list_lookup_alter_eq, H. reflexivity.
Qed.

(** C7 (as the code has it): [flush] records the end of input
    ([isDataBeingWritten] becomes false) and then
    - with [pendingBytesCount] 0 it returns at once and does nothing else:
      [done] is not resolved, the group is not told, nothing is destroyed;
    - with bytes pending and throttling disabled it tells the group the
      request stopped and destroys the throttle, without resolving [done];
    - with bytes pending and throttling enabled it changes nothing else and
      returns [done], which the call of [process] that empties the buffer
      resolves. *)
Theorem flush_cases (id : nat) (t : Throttle) (w : World) :
  heap w !! id = Some t ->
  let ended := modifyThrottle id (set_isDataBeingWritten false) w in
  (exists t', heap (fst (flush id w)) !! id = Some t'
              /\ isDataBeingWritten t' = false /\ done t' = done t)
  /\ (Num.eqb (pendingBytesCount t) 0 = true ->
        flush id w = (ended, Settled)
        /\ finalized id (fst (flush id w)) = finalized id w)
  /\ (Num.eqb (pendingBytesCount t) 0 = false ->
        isThrottled (config w) = false ->
        flush id w = (destroy id (handleRequestStop id ended), Settled))
  /\ (Num.eqb (pendingBytesCount t) 0 = false ->
        isThrottled (config w) = true ->
        flush id w = (ended, FollowsDone))
  /\ (forall w' t',
        heap w' !! id = Some t' ->
        isThrottled (config w') = true ->
        isDataBeingWritten t' = false ->
        Num.ltb (pendingBytesReadIndex t') (pendingBytesCount t') = false ->
        exists t'', heap (process_finish id w') !! id = Some t''
                    /\ done t'' = true).
Proof.
  intros Ht ended.
  assert (He : heap ended !! id = Some (set_isDataBeingWritten false t))
    by (apply lookup_modifyThrottle, Ht).
  unfold flush. rewrite Ht. fold ended. split; [|split; [|split; [|split]]].
  - destruct (Num.eqb (pendingBytesCount t) 0); [eauto|].
    destruct (isThrottled (config ended)); simpl; [eauto|].
    eexists. split; [apply lookup_end_of_request, He|]. split; reflexivity.
  - intros ->. split; [reflexivity|].
    unfold finalized. simpl fst. rewrite He, Ht. reflexivity.
  - intros -> Hu. change (config ended) with (config w). rewrite Hu. reflexivity.
  - intros -> Hth. change (config ended) with (config w). rewrite Hth.
    reflexivity.
  - intros w' t' Ht' Hth Hw Hlt.
    unfold process_finish. rewrite Ht', Hth, Hw, Hlt. cbn [orb negb].
    eexists. split; [|shelve].
    erewrite lookup_end_of_request; [reflexivity|].
    apply lookup_modifyThrottle, Ht'.
    Unshelve. reflexivity.
Qed.

Lemma flush_cases_witness :
  heap drainedWhileWriting !! 0%nat
  = Some (mkThrottle Plain (Some (TypedArray.alloc 100)) 0 0 1 100 true false 1
            None [] true [bytesFrom 0 10] false true true)
  /\ flush 0 drainedWhileWriting
     = (modifyThrottle 0 (set_isDataBeingWritten false) drainedWhileWriting, Settled).
Proof.
  assert (H : heap drainedWhileWriting !! 0%nat
              = Some (mkThrottle Plain (Some (TypedArray.alloc 100)) 0 0 1 100
                        true false 1 None [] true [bytesFrom 0 10] false true true))
    by (vm_compute; reflexivity).
  split; [exact H|].
  apply (flush_cases 0 _ drainedWhileWriting H). reflexivity.
Defined.

(** C7, the claim as stated fails: a throttle whose buffer the clock has
    emptied while the producer was still writing is not finalized by
    [flush]: it stays in flight and registered, [done] is unresolved, the
    controller is open and the clock keeps running. *)
Lemma flush_empty_counterexample :
  let w := drainedWhileWriting in
  let w' := fst (flush 0 w) in
  map pending (heap w) = [[]]
  /\ map pendingBytesCount (heap w) = [0%Q]
  /\ snd (flush 0 w) = Settled
  /\ map isDataBeingWritten (heap w') = [false]
  /\ map done (heap w') = [false]
  /\ map terminated (heap w') = [false]
  /\ inFlightRequests w' = [0%nat]
  /\ bandwidthThrottles w' = [0%nat]
  /\ clockIntervalId w' <> None
  /\ finalized 0 w' = false.
Proof. vm_compute. repeat split; discriminate. Qed.

(** ** Overflow *)

(** C4, at seed scenario 5: the chunk of 1500 bytes is not appended, not
    even in part, and the buffer is released; but [transform] only calls
    [handleRequestDestroy], so the throttle stays in the in-flight list, the
    clock keeps running and the controller is not terminated.  Both
    throttle classes behave this way. *)
Theorem overflow_keeps_throttle_in_flight (backpressure : bool) :
  let w := overflowingWrite backpressure in
  map pendingBytesCount (heap w) = [0%Q]
  /\ map pendingBytesBuffer (heap w) = [None]
  /\ map emitted (heap w) = [[]]
  /\ bandwidthThrottles w = []
  /\ inFlightRequests w = [0%nat]
  /\ clockIntervalId w = Some (Interval 20)
  /\ map terminated (heap w) = [false]
  /\ map done (heap w) = [false].
Proof. destruct backpressure; vm_compute; repeat split. Qed.

(** What [abort], the sibling path, does at the same point: the in-flight
    list is emptied and the clock stopped. *)
Lemma abort_after_overflow (backpressure : bool) :
  let w := abort 0 (overflowingWrite backpressure) in
  inFlightRequests w = [] /\ clockIntervalId w = None
  /\ map terminated (heap w) = [true].
Proof. destruct backpressure; vm_compute; repeat split. Qed.

(** ** Destroying twice *)

(** C8, at a group of two throttles: the first [destroy] of throttle 0
    takes it out of the registry; the second finds [indexOf] at -1, and
    [splice(-1, 1)] takes throttle 1 out of the registry although nobody
    destroyed it.  An [abort] of the destroyed throttle likewise takes
    throttle 1 out of the in-flight list and stops the clock while its
    3 bytes are still pending. *)
Theorem destroy_twice_drops_a_sibling :
  let once := destroy 0 twoThrottles in
  let twice := destroy 0 once in
  bandwidthThrottles twoThrottles = [0%nat; 1%nat]
  /\ bandwidthThrottles once = [1%nat]
  /\ bandwidthThrottles twice = []
  /\ heap twice = heap once
  /\ sched twice = sched once
  /\ inFlightRequests once = [1%nat]
  /\ inFlightRequests (abort 0 once) = []
  /\ clockIntervalId (abort 0 once) = None
  /\ map (fun t => length (pending t)) (heap (abort 0 once)) = [0%nat; 3%nat]
  /\ map terminated (heap (abort 0 once)) = [true; false].
Proof. vm_compute. repeat split. Qed.

(** The part of C8 that holds: a second [destroy] changes neither the
    throttle nor any other object, nor the scheduling state. *)
Lemma destroy_twice_same_objects (id : nat) (w : World) :
  heap (destroy id (destroy id w)) = heap (destroy id w)
  /\ sched (destroy id (destroy id w)) = sched (destroy id w).
Proof.
  split; [|reflexivity]. rewrite !heap_destroy.
  apply list_eq. intros j. destruct (decide (j = id)) as [->|Hne].
  - rewrite !list_lookup_alter_eq.
    destruct (heap w !! id) as [t|]; cbn; [|reflexivity].
    f_equal. unfold terminate, set_pendingBytesBuffer. cbn.
    now destruct (controller t).
  - now rewrite !list_lookup_alter_ne by congruence.
Qed.

(** ** Conservation of bytes *)


(** ** Integers among the numbers *)

Lemma Qred_of_Z (z : Z) : Qred (Num.of_Z z) = Num.of_Z z.
Proof.
  unfold Qred, Num.of_Z, inject_Z.
  pose proof (Z.ggcd_gcd z 1) as Hg.
  pose proof (Z.ggcd_correct_divisors z 1) as Hd.
  destruct (Z.ggcd z 1) as [g [aa bb]]. simpl in *.
  rewrite Z.gcd_1_r in Hg. subst g. destruct Hd as [Ha Hb].
  rewrite Z.mul_1_l in Ha, Hb. subst. reflexivity.
Qed.

Lemma of_Z_inj (a b : Z) : Num.of_Z a = Num.of_Z b -> a = b.
Proof. now intros [= ->]. Qed.

Lemma add_of_Z (a b : Z) : Num.add (Num.of_Z a) (Num.of_Z b) = Num.of_Z (a + b).
Proof.
  unfold Num.add. rewrite <- (Qred_of_Z (a + b)). apply Qred_complete.
  unfold Num.of_Z. now rewrite inject_Z_plus.
Qed.

Lemma sub_of_Z (a b : Z) : Num.sub (Num.of_Z a) (Num.of_Z b) = Num.of_Z (a - b).
Proof.
  unfold Num.sub. rewrite <- (Qred_of_Z (a - b)). apply Qred_complete.
  unfold Num.of_Z, Z.sub, Qminus. now rewrite inject_Z_plus, inject_Z_opp.
Qed.

Lemma mul_of_Z (a b : Z) : Num.mul (Num.of_Z a) (Num.of_Z b) = Num.of_Z (a * b).
Proof.
  unfold Num.mul. rewrite <- (Qred_of_Z (a * b)). apply Qred_complete.
  unfold Num.of_Z. now rewrite inject_Z_mult.
Qed.

Lemma leb_of_Z (a b : Z) : Num.leb (Num.of_Z a) (Num.of_Z b) = (a <=? b).
Proof. unfold Num.leb, Qle_bool. simpl. now rewrite !Z.mul_1_r. Qed.

Lemma ltb_of_Z (a b : Z) : Num.ltb (Num.of_Z a) (Num.of_Z b) = (a <? b).
Proof. unfold Num.ltb. rewrite leb_of_Z. lia. Qed.

Lemma eqb_of_Z (a b : Z) : Num.eqb (Num.of_Z a) (Num.of_Z b) = (a =? b).
Proof. unfold Num.eqb, Qeq_bool. simpl. now rewrite !Z.mul_1_r. Qed.

Lemma min_of_Z (a b : Z) : Num.min (Num.of_Z a) (Num.of_Z b) = Num.of_Z (Z.min a b).
Proof.
  unfold Num.min. rewrite leb_of_Z.
  destruct (Z.leb_spec a b); f_equal; lia.
Qed.

Lemma max_of_Z (a b : Z) : Num.max (Num.of_Z a) (Num.of_Z b) = Num.of_Z (Z.max a b).
Proof.
  unfold Num.max. rewrite leb_of_Z.
  destruct (Z.leb_spec a b); f_equal; lia.
Qed.

Lemma trunc_of_Z (a : Z) : Num.trunc (Num.of_Z a) = a.
Proof. unfold Num.trunc. simpl. apply Z.quot_1_r. Qed.

Lemma round_of_Z (a : Z) : Num.round (Num.of_Z a) = a.
Proof.
  unfold Num.round, Qfloor, Num.of_Z. simpl.
  symmetry. apply (Z.div_unique _ _ _ 1); lia.
Qed.

Lemma ClampNum_of_Z (a m : Z) :
  ClampNum (Num.of_Z a) 0 (Num.of_Z m) = Num.of_Z (Z.max 0 (Z.min a m)).
Proof.
  unfold ClampNum. rewrite min_of_Z.
  change 0%Q with (Num.of_Z 0). apply max_of_Z.
Qed.

Lemma div_of_Z (a b c : Z) :
  b <> 0 -> a = c * b -> Num.div (Num.of_Z a) (Num.of_Z b) = Num.of_Z c.
Proof.
  intros Hb ->. unfold Num.div. rewrite <- (Qred_of_Z c). apply Qred_complete.
  unfold Num.of_Z. rewrite inject_Z_mult. apply Qdiv_mult_l.
  intros H. apply Hb. unfold Qeq in H. simpl in H. lia.
Qed.

Create Rewrite HintDb num.
#[local] Hint Rewrite add_of_Z sub_of_Z mul_of_Z leb_of_Z ltb_of_Z eqb_of_Z
  min_of_Z max_of_Z trunc_of_Z round_of_Z ClampNum_of_Z : num.

(** ** Typed arrays at integer positions *)

Lemma length_alloc (n : Z) : length (TypedArray.alloc n) = Z.to_nat n.
Proof. apply length_replicate. Qed.

Lemma subarray_of_Z (a : list Byte.byte) (b e : Z) :
  0 <= b <= e -> e <= Z.of_nat (length a) ->
  TypedArray.subarray a (Num.of_Z b) (Num.of_Z e)
  = take (Z.to_nat (e - b)) (drop (Z.to_nat b) a).
Proof.
  intros Hb He. unfold TypedArray.subarray, TypedArray.relative.
  rewrite !trunc_of_Z.
  destruct (Z.ltb_spec b 0); [lia|]. destruct (Z.ltb_spec e 0); [lia|].
  rewrite !Z.min_l by lia. reflexivity.
Qed.

Lemma length_subarray_of_Z (a : list Byte.byte) (b e : Z) :
  0 <= b <= e -> e <= Z.of_nat (length a) ->
  length (TypedArray.subarray a (Num.of_Z b) (Num.of_Z e)) = Z.to_nat (e - b).
Proof.
  intros Hb He. rewrite subarray_of_Z by assumption.
  rewrite length_take, length_drop. lia.
Qed.

Lemma set_of_Z (a src : list Byte.byte) (off : Z) :
  0 <= off -> off + Z.of_nat (length src) <= Z.of_nat (length a) ->
  TypedArray.set a src (Num.of_Z off)
  = Some (take (Z.to_nat off) a ++ src ++ drop (Z.to_nat off + length src) a).
Proof.
  intros H0 H1. unfold TypedArray.set. rewrite trunc_of_Z.
  destruct (Z.ltb_spec off 0); [lia|].
  destruct (Z.ltb_spec (Z.of_nat (length a)) (off + Z.of_nat (length src))); [lia|].
  reflexivity.
Qed.

Lemma set_fails (a src : list Byte.byte) (off : Z) :
  0 <= off -> Z.of_nat (length a) < off + Z.of_nat (length src) ->
  TypedArray.set a src (Num.of_Z off) = None.
Proof.
  intros H0 H1. unfold TypedArray.set. rewrite trunc_of_Z.
  destruct (Z.ltb_spec off 0); [lia|].
  destruct (Z.ltb_spec (Z.of_nat (length a)) (off + Z.of_nat (length src))); [|lia].
  reflexivity.
Qed.

Lemma length_set (a src b : list Byte.byte) (off : Q) :
  TypedArray.set a src off = Some b -> length b = length a.
Proof.
  unfold TypedArray.set. case_match eqn:E; [discriminate|]. intros [= <-].
  apply orb_false_iff in E as [E1 E2].
  apply Z.ltb_ge in E1, E2.
  rewrite !length_app, length_take, length_drop. lia.
Qed.

(** ** A throttle at rest *)

(** [trim_buffer] on a buffer with integer indices: both classes move the
    unemitted bytes to the front of a fresh buffer and count them. *)
Lemma trim_buffer_of_Z cfg t buf (r c : Z) :
  pendingBytesBuffer t = Some buf ->
  c - r <= Z.of_nat (Z.to_nat (pendingBytesBufferExpandedSize t)) ->
  pendingBytesReadIndex t = Num.of_Z r ->
  pendingBytesCount t = Num.of_Z c ->
  0 <= r <= c -> c <= Z.of_nat (length buf) -> c - r <= maxBufferSize cfg ->
  let moved := take (Z.to_nat (c - r)) (drop (Z.to_nat r) buf) in
  trim_buffer cfg t
  = (set_pendingBytesCount (Num.of_Z (c - r))
       (set_pendingBytesReadIndex 0
          (set_pendingBytesBuffer
             (Some (moved ++ drop (length moved)
                               (TypedArray.alloc (pendingBytesBufferExpandedSize t))))
             t)),
     Returns).
Proof.
  intros Hbuf Hfit Hr Hc Hrc Hcl Hmax moved.
  assert (Hm : length moved = Z.to_nat (c - r)).
  { subst moved. rewrite length_take, length_drop. lia. }
  assert (Hset : TypedArray.set (TypedArray.alloc (pendingBytesBufferExpandedSize t))
                   moved 0
                 = Some (moved ++ drop (length moved)
                           (TypedArray.alloc (pendingBytesBufferExpandedSize t)))).
  { change 0%Q with (Num.of_Z 0). rewrite set_of_Z.
    - reflexivity.
    - lia.
    - rewrite length_alloc. lia. }
  unfold trim_buffer. rewrite Hbuf, Hr, Hc.
  rewrite subarray_of_Z by lia. fold moved. rewrite Hset.
  destruct (variant t).
  - rewrite sub_of_Z, ClampNum_of_Z. do 3 f_equal. f_equal. lia.
  - rewrite Hm. do 3 f_equal. f_equal. lia.
Qed.

Lemma atRest_Ready cfg t :
  atRest cfg t = true -> Ready cfg t (Z.of_nat (length (pending t))).
Proof.
  unfold atRest, Ready, pending.
  destruct (pendingBytesBuffer t) as [buf|]; [|discriminate].
  intros H. repeat (apply andb_prop in H as [H ?]).
  destruct (pendingBytesReadIndex t) as [rn rd], (pendingBytesCount t) as [cn cd].
  cbn [Qnum Qden] in *.
  apply Nat.eqb_eq in H. apply Pos.eqb_eq in H2, H3. subst rd cd.
  apply Z.eqb_eq in H4. subst rn.
  apply Z.leb_le in H0, H1, H5.
  change (0 # 1) with (Num.of_Z 0). change (cn # 1) with (Num.of_Z cn).
  rewrite length_subarray_of_Z by lia.
  exists buf. repeat split; try assumption; try lia.
  f_equal. lia.
Qed.

Lemma Ready_pending cfg t c :
  Ready cfg t c ->
  exists buf, pendingBytesBuffer t = Some buf
              /\ pending t = take (Z.to_nat c) buf
              /\ length (pending t) = Z.to_nat c.
Proof.
  intros (buf & Hb & Hl & Hm & Hr & Hc & Hrange).
  exists buf. unfold pending. rewrite Hb, Hr, Hc.
  rewrite subarray_of_Z by lia.
  rewrite drop_0, Z.sub_0_r. repeat split.
  rewrite length_take. lia.
Qed.

Lemma endReadIndex_of_Z cfg t c (q : Z) :
  Ready cfg t c ->
  endReadIndex t (Finite (Num.of_Z q)) = Num.of_Z (Z.min q c).
Proof.
  intros (buf & _ & _ & _ & Hr & Hc & _). unfold endReadIndex.
  rewrite Hr, Hc. destruct (variant t);
    rewrite ?round_of_Z, add_of_Z, min_of_Z; reflexivity.
Qed.


Lemma process_take_none cfg t c q (e : Z) :
  Ready cfg t c -> endReadIndex t q = Num.of_Z e -> e <= 0 ->
  process_take cfg q t = None.
Proof.
  intros (buf & _ & _ & _ & Hr & _ & _) He Hle. unfold process_take.
  rewrite He, Hr, sub_of_Z. change 0%Q with (Num.of_Z 0).
  rewrite ltb_of_Z. destruct (Z.ltb_spec 0 (e - 0)); [lia|reflexivity].
Qed.

(** Taking a slice of [e] bytes from a throttle at rest, and pushing it. *)
Lemma emit_Ready cfg t c q (e : Z) :
  Ready cfg t c -> controller t = true /\ terminated t = false ->
  endReadIndex t q = Num.of_Z e -> 0 < e <= c ->
  exists t1 t2,
    process_take cfg q t = Some (t1, Awaits (take (Z.to_nat e) (pending t)))
    /\ process_push (take (Z.to_nat e) (pending t)) t1 = (t2, Returns)
    /\ Ready cfg t1 (c - e) /\ Ready cfg t2 (c - e)
    /\ sameStanding t t1 /\ sameStanding t t2
    /\ pendingBytesBufferExpandedSize t2 = pendingBytesBufferExpandedSize t
    /\ pendingBytesBufferExpandedFactor t2 = pendingBytesBufferExpandedFactor t
    /\ pendingBytesBuffer t2 = pendingBytesBuffer t1
    /\ enqueued t2 = enqueued t ++ [take (Z.to_nat e) (pending t)]
    /\ pending t2 = drop (Z.to_nat e) (pending t).
Proof.
  intros HR [Hctl Hopen] He Hrange.
  destruct (Ready_pending _ _ _ HR) as (buf & Hb & Hp & Hpl).
  destruct HR as (buf' & Hb' & Hl & Hm & Hr & Hc & Hcr).
  rewrite Hb in Hb'. injection Hb' as <-.
  set (s := take (Z.to_nat e) (pending t)).
  assert (Hs : TypedArray.subarray buf (Num.of_Z 0) (Num.of_Z e) = s).
  { rewrite subarray_of_Z by lia. subst s. rewrite Hp, drop_0, Z.sub_0_r.
    rewrite take_take. f_equal. lia. }
  set (moved := take (Z.to_nat (c - e)) (drop (Z.to_nat e) buf)).
  set (buf1 := moved ++ drop (length moved)
                 (TypedArray.alloc (pendingBytesBufferExpandedSize t))).
  assert (Hmoved : length moved = Z.to_nat (c - e)).
  { subst moved. rewrite length_take, length_drop. lia. }
  assert (Hbuf1 : length buf1 = length buf).
  { subst buf1. rewrite length_app, length_drop, length_alloc. lia. }
  assert (Hpend : TypedArray.subarray buf1 (Num.of_Z 0) (Num.of_Z (c - e))
                  = drop (Z.to_nat e) (pending t)).
  { rewrite subarray_of_Z by lia. rewrite drop_0, Z.sub_0_r.
    subst buf1. rewrite take_app_le by lia. rewrite take_ge by lia.
    subst moved. rewrite Hp. rewrite take_drop_commute. f_equal. f_equal. lia. }
  unfold process_take. rewrite He, Hr, sub_of_Z.
  change 0%Q with (Num.of_Z 0). rewrite ltb_of_Z.
  destruct (Z.ltb_spec 0 (e - 0)); [|lia]. rewrite Hb, Hs.
  destruct (variant t) eqn:Hv.
  - (* the plain throttle pushes, then trims *)
    unfold push at 1. cbn [controller terminated set_pendingBytesReadIndex].
    rewrite Hctl, Hopen. cbn [negb orb].
    rewrite (trim_buffer_of_Z cfg _ buf e c); cbn;
      try assumption; try reflexivity; try lia.
    eexists. eexists. split; [reflexivity|].
    unfold process_push. cbn. rewrite Hv.
    split; [reflexivity|].
    assert (HR1 : Ready cfg
      (set_pendingBytesCount (Num.of_Z (c - e))
         (set_pendingBytesReadIndex 0
            (set_pendingBytesBuffer (Some buf1)
               (set_downstream (writesCompleted t) (enqueued t ++ [s])
                  (set_pendingBytesReadIndex (Num.of_Z e) t))))) (c - e)).
    { exists buf1. cbn. split_and!; try reflexivity; lia. }
    split_and!; try exact HR1; try reflexivity; try assumption;
      try (unfold sameStanding; cbn; split_and!; reflexivity).
  - (* the backpressure throttle trims, and pushes after the await *)
    rewrite (trim_buffer_of_Z cfg _ buf e c); cbn;
      try assumption; try reflexivity; try lia.
    eexists. eexists. split; [reflexivity|].
    unfold process_push. cbn. rewrite Hv. unfold push. cbn. rewrite Hctl, Hopen.
    split; [reflexivity|].
    split_and!; try reflexivity; try assumption;
      try (exists buf1; cbn; split_and!; try reflexivity; lia);
      try (unfold sameStanding; cbn; split_and!; reflexivity).
Qed.

(** ** The end of a request *)

Lemma config_handleRequestStop id w : config (handleRequestStop id w) = config w.
Proof. unfold handleRequestStop. now destruct (_ =? _)%nat. Qed.

Lemma config_process_finish id w : config (process_finish id w) = config w.
Proof.
  unfold process_finish. destruct (heap w !! id); [|reflexivity].
  destruct (_ || _ || _); [reflexivity|].
  unfold destroy, handleRequestDestroy. simpl.
  now rewrite config_handleRequestStop.
Qed.

Lemma inFlight_handleRequestStop id w :
  inFlightRequests (handleRequestStop id w)
  = JsArray.splice1 (JsArray.indexOf id (inFlightRequests w)) (inFlightRequests w).
Proof. unfold handleRequestStop. case_match; reflexivity. Qed.

Lemma splice1_sublist i l : JsArray.splice1 i l `sublist_of` l.
Proof. apply sublist_delete. Qed.

Lemma indexOf_bounds id l : -1 <= JsArray.indexOf id l < Z.of_nat (length l).
Proof.
  induction l as [|y l IH]; cbn [JsArray.indexOf length]; [lia|].
  destruct (Nat.eqb id y); [lia|].
  destruct (Z.ltb_spec (JsArray.indexOf id l) 0); lia.
Qed.

Lemma indexOf_found id l :
  id ∈ l ->
  0 <= JsArray.indexOf id l /\ l !! Z.to_nat (JsArray.indexOf id l) = Some id.
Proof.
  induction l as [|y l IH]; intros Hin; [inversion Hin|].
  cbn [JsArray.indexOf]. destruct (Nat.eqb_spec id y) as [->|Hne].
  - split; [lia | reflexivity].
  - apply elem_of_cons in Hin as [?|Hin]; [contradiction|].
    destruct (IH Hin) as [H0 Hl].
    destruct (Z.ltb_spec (JsArray.indexOf id l) 0); [lia|].
    split; [lia|].
    replace (Z.to_nat (JsArray.indexOf id l + 1))
      with (S (Z.to_nat (JsArray.indexOf id l))) by lia.
    exact Hl.
Qed.

(** [xs.splice(xs.indexOf(x), 1)] leaves no [x] in an array without
    duplicates. *)
Lemma splice1_indexOf_notin id l :
  NoDup l -> id ∉ JsArray.splice1 (JsArray.indexOf id l) l.
Proof.
  intros Hnd Hin.
  assert (Hl : id ∈ l) by (eapply elem_of_sublist; [exact Hin | apply splice1_sublist]).
  destruct (indexOf_found id l Hl) as [H0 Hat].
  pose proof (indexOf_bounds id l) as Hb.
  unfold JsArray.splice1 in Hin.
  destruct (Z.ltb_spec (JsArray.indexOf id l) 0); [lia|].
  rewrite Z.min_l in Hin by lia.
  apply list_elem_of_lookup in Hin as [m Hm].
  rewrite list_lookup_delete in Hm.
  destruct (decide (m < Z.to_nat (JsArray.indexOf id l))%nat).
  - pose proof (NoDup_lookup _ _ _ _ Hnd Hm Hat). lia.
  - pose proof (NoDup_lookup _ _ _ _ Hnd Hm Hat). lia.
Qed.


(** ** A tick that ends no request *)

Lemma process_finish_holds id w t c :
  heap w !! id = Some t -> Ready (config w) t c ->
  isDataBeingWritten t = true \/ 0 < c ->
  process_finish id w = w.
Proof.
  intros Ht (buf & _ & _ & _ & Hr & Hc & _) H.
  unfold process_finish. rewrite Ht, Hr, Hc, ltb_of_Z.
  destruct H as [-> | H].
  - now rewrite orb_true_r.
  - destruct (Z.ltb_spec 0 c); [reflexivity | lia].
Qed.

Lemma Holds_Feeds cfg t q : Holds cfg t q -> Feeds cfg t q.
Proof.
  intros ([Hctl Ho] & Hr & Hw & c & HR & Hq & Hs). split_and!; try assumption.
  exists c. split_and!; try assumption; try lia.
  destruct Hs; [now left | right; lia].
Qed.


(** What a throttle that has the quota looks like after the tick. *)
Lemma Feeds_emitT cfg t q :
  Feeds cfg t q ->
  let t' := emitT cfg (Finite (Num.of_Z q)) t in
  sameStanding t t'
  /\ emitted t' = emitted t ++ take (Z.to_nat q) (pending t)
  /\ pending t' = drop (Z.to_nat q) (pending t)
  /\ pendingBytesBufferExpandedSize t' = pendingBytesBufferExpandedSize t
  /\ Ready cfg t' (Z.of_nat (length (pending t)) - q).
Proof.
  intros (Hopen & _ & _ & c & HR & Hq & _).
  destruct (Ready_pending _ _ _ HR) as (buf & _ & _ & Hpl).
  assert (He : endReadIndex t (Finite (Num.of_Z q)) = Num.of_Z q).
  { rewrite (endReadIndex_of_Z cfg t c q HR). f_equal. lia. }
  rewrite Hpl, Z2Nat.id by lia.
  destruct (Z.eq_dec q 0) as [->|Hne].
  - unfold emitT. rewrite (process_take_none cfg t c _ 0 HR He) by lia.
    simpl. rewrite app_nil_r, Z.sub_0_r. split_and!; try reflexivity.
    + apply sameStanding_refl.
    + exact HR.
  - destruct (emit_Ready cfg t c _ q HR Hopen He ltac:(lia))
      as (t1 & t2 & Htake & Hpush & _ & HR2 & _ & HS2 & Hsize & _ & _ & Henq & Hpend).
    unfold emitT. rewrite Htake, Hpush. simpl.
    split_and!; try assumption.
    unfold emitted. rewrite Henq, concat_app. simpl. now rewrite app_nil_r.
Qed.

Lemma Holds_emitT cfg t q :
  Holds cfg t q ->
  let t' := emitT cfg (Finite (Num.of_Z q)) t in
  sameStanding t t'
  /\ emitted t' = emitted t ++ take (Z.to_nat q) (pending t)
  /\ pending t' = drop (Z.to_nat q) (pending t)
  /\ pendingBytesBufferExpandedSize t' = pendingBytesBufferExpandedSize t
  /\ Ready cfg t' (Z.of_nat (length (pending t)) - q).
Proof. intros H. exact (Feeds_emitT cfg t q (Holds_Feeds cfg t q H)). Qed.

Lemma takeT_emitT_none cfg q t :
  owed cfg q t = None -> emitT cfg q t = takeT cfg q t.
Proof.
  unfold owed, emitT, takeT.
  destruct (process_take cfg q t) as [[t' []]|]; try reflexivity. discriminate.
Qed.

(** One request of the tick, for a throttle that has its quota. *)
Lemma tickRequest_holds period id j w t :
  isThrottled (config w) = true ->
  heap w !! id = Some t ->
  let q := quotaAt (config w) (length (inFlightRequests w)) period (tickIndex w) j in
  Feeds (config w) t q ->
  tickRequest period (Num.of_Z 1) id j w
  = (storeThrottle id (takeT (config w) (Finite (Num.of_Z q)) t) w,
     match owed (config w) (Finite (Num.of_Z q)) t with
     | Some s => Awaits s
     | None => Returns
     end).
Proof.
  intros Hth Ht q (Hopen & Hrl & Hwl & c & HR & Hq & Hstay).
  unfold tickRequest. rewrite Ht, Hrl, Hwl. cbn [negb orb].
  rewrite mul_of_Z, Z.mul_1_r. fold (quotaAt (config w)
    (length (inFlightRequests w)) period (tickIndex w) j). fold q.
  assert (He : endReadIndex t (Finite (Num.of_Z q)) = Num.of_Z q).
  { rewrite (endReadIndex_of_Z (config w) t c q HR). f_equal. lia. }
  unfold process_begin, takeT, owed. rewrite Ht.
  destruct (Z.eq_dec q 0) as [E|Hne].
  - rewrite (process_take_none (config w) t c _ q HR He) by lia.
    rewrite (process_finish_holds id w t c Ht HR)
      by (destruct Hstay; [now left | right; lia]).
    now rewrite storeThrottle_same.
  - destruct (emit_Ready (config w) t c _ q HR Hopen He ltac:(lia))
      as (t1 & t2 & Htake & _).
    rewrite Htake. reflexivity.
Qed.

Section NiceTick.

Variables (cfg : Config) (ids : list nat) (period tick : Z).
Hypothesis Hthrottled : isThrottled cfg = true.
Hypothesis Hnodup : NoDup ids.

Let quota : nat -> Z := quotaAt cfg (length ids) period tick.
Let positions : list (nat * nat) := imap pair ids.

Lemma positions_drop i id :
  ids !! i = Some id -> drop i positions = (i, id) :: drop (S i) positions.
Proof.
  intros H. apply drop_S. unfold positions.
  rewrite list_lookup_imap, H. reflexivity.
Qed.

Lemma positions_elem j id i :
  (j, id) ∈ drop i positions -> (i <= j)%nat /\ ids !! j = Some id.
Proof.
  intros H. apply list_elem_of_lookup in H as [n Hn].
  rewrite lookup_drop in Hn. unfold positions in Hn.
  rewrite list_lookup_imap in Hn.
  destruct (ids !! (i + n)%nat) as [x|] eqn:E; [|discriminate].
  injection Hn as <- <-. split; [lia | exact E].
Qed.

Lemma owedList_ext h h' js :
  (forall j id, (j, id) ∈ js -> h' !! id = h !! id) ->
  owedList cfg quota h' js = owedList cfg quota h js.
Proof.
  induction js as [|[j id] js IH]; intros H; [reflexivity|].
  assert (IH' : owedList cfg quota h' js = owedList cfg quota h js).
  { apply IH. intros j' id' Hin. apply (H j' id').
    now apply list_elem_of_further. }
  unfold owedList in *. cbn [omap list_omap].
  rewrite (H j id (list_elem_of_here _ _)), IH'. reflexivity.
Qed.

Lemma forEachInFlight_holds n :
  forall i w susp,
    (i + n = length ids)%nat ->
    config w = cfg -> inFlightRequests w = ids -> tickIndex w = tick ->
    (forall j id, (i <= j)%nat -> ids !! j = Some id ->
       exists t, heap w !! id = Some t /\ Feeds cfg t (quota j)) ->
    exists w',
      forEachInFlight period (Num.of_Z 1) n i w susp
      = (w', susp ++ owedList cfg quota (heap w) (drop i positions))
      /\ sched w' = sched w /\ config w' = cfg
      /\ bandwidthThrottles w' = bandwidthThrottles w
      /\ length (heap w') = length (heap w)
      /\ (forall j id t, (i <= j)%nat -> ids !! j = Some id ->
            heap w !! id = Some t ->
            heap w' !! id = Some (takeT cfg (Finite (Num.of_Z (quota j))) t))
      /\ (forall id, (forall j, (i <= j)%nat -> ids !! j <> Some id) ->
            heap w' !! id = heap w !! id).
Proof.
  induction n as [|n IH]; intros i w susp Hi Hcfg Hfl Htick Hall.
  - exists w. simpl. rewrite drop_ge by (unfold positions; rewrite length_imap; lia).
    unfold owedList. simpl. rewrite app_nil_r. split_and!; try reflexivity; try assumption.
    intros j id t Hj Hid. apply lookup_lt_Some in Hid. lia.
  - destruct (lookup_lt_is_Some_2 ids i ltac:(lia)) as [id Hid].
    destruct (Hall i id ltac:(lia) Hid) as (t & Ht & Hholds).
    cbn [forEachInFlight]. rewrite Hfl, Hid.
    pose proof (tickRequest_holds period id i w t) as Hreq.
    rewrite Hcfg, Hfl, Htick in Hreq. specialize (Hreq Hthrottled Ht Hholds).
    cbv zeta in Hreq. fold (quota i) in Hreq. rewrite Hreq. clear Hreq.
    set (w1 := storeThrottle id (takeT cfg (Finite (Num.of_Z (quota i))) t) w).
    assert (Hother : forall j id', (S i <= j)%nat -> ids !! j = Some id' ->
                       heap w1 !! id' = heap w !! id').
    { intros j id' Hj Hid'. subst w1. simpl.
      apply list_lookup_insert_ne. intros ->.
      pose proof (NoDup_lookup _ _ _ _ Hnodup Hid Hid'). lia. }
    assert (Hall1 : forall j id', (S i <= j)%nat -> ids !! j = Some id' ->
              exists t', heap w1 !! id' = Some t' /\ Feeds cfg t' (quota j)).
    { intros j id' Hj Hid'. rewrite (Hother j id' Hj Hid').
      apply Hall; [lia | exact Hid']. }
    assert (Hrest : owedList cfg quota (heap w1) (drop (S i) positions)
                    = owedList cfg quota (heap w) (drop (S i) positions)).
    { apply owedList_ext. intros j id' Hin.
      apply positions_elem in Hin as [Hj Hid']. eapply Hother; eassumption. }
    assert (Hhere : owedList cfg quota (heap w) (drop i positions)
                    = match owed cfg (Finite (Num.of_Z (quota i))) t with
                      | Some s => [(id, s)]
                      | None => []
                      end ++ owedList cfg quota (heap w) (drop (S i) positions)).
    { rewrite (positions_drop i id Hid). unfold owedList. cbn [omap list_omap].
      rewrite Ht. cbn. now destruct (owed cfg _ t). }
    assert (Hpost : forall susp1,
      susp1 ++ owedList cfg quota (heap w1) (drop (S i) positions)
      = susp ++ owedList cfg quota (heap w) (drop i positions) ->
      forall w',
        sched w' = sched w1 -> config w' = cfg ->
        bandwidthThrottles w' = bandwidthThrottles w1 ->
        length (heap w') = length (heap w1) ->
        (forall j id0 t0, (S i <= j)%nat -> ids !! j = Some id0 ->
           heap w1 !! id0 = Some t0 ->
           heap w' !! id0 = Some (takeT cfg (Finite (Num.of_Z (quota j))) t0)) ->
        (forall id0, (forall j, (S i <= j)%nat -> ids !! j <> Some id0) ->
           heap w' !! id0 = heap w1 !! id0) ->
        sched w' = sched w /\ config w' = cfg
        /\ bandwidthThrottles w' = bandwidthThrottles w
        /\ length (heap w') = length (heap w)
        /\ (forall j id0 t0, (i <= j)%nat -> ids !! j = Some id0 ->
              heap w !! id0 = Some t0 ->
              heap w' !! id0 = Some (takeT cfg (Finite (Num.of_Z (quota j))) t0))
        /\ (forall id0, (forall j, (i <= j)%nat -> ids !! j <> Some id0) ->
              heap w' !! id0 = heap w !! id0)).
    { intros susp1 _ w' Hs Hc Hb Hl Hpt Hfr. split_and!.
      - rewrite Hs. reflexivity.
      - exact Hc.
      - rewrite Hb. reflexivity.
      - rewrite Hl. subst w1. simpl. apply length_insert.
      - intros j id0 t0 Hj Hid0 Ht0.
        destruct (decide (j = i)) as [->|Hne].
        + rewrite Hid in Hid0. injection Hid0 as <-.
          rewrite Ht in Ht0. injection Ht0 as <-.
          rewrite Hfr.
          * subst w1. eapply lookup_storeThrottle, Ht.
          * intros j Hj' Hid'.
            pose proof (NoDup_lookup _ _ _ _ Hnodup Hid Hid'). lia.
        + apply Hpt; [lia | exact Hid0 |].
          rewrite (Hother j id0 ltac:(lia) Hid0). exact Ht0.
      - intros id0 Hnot. rewrite Hfr.
        + subst w1. simpl. apply list_lookup_insert_ne. intros ->.
          apply (Hnot i); [lia | exact Hid].
        + intros j Hj. apply Hnot. lia. }
    destruct (owed cfg (Finite (Num.of_Z (quota i))) t) as [s|] eqn:Howed.
    + destruct (IH (S i) w1 (susp ++ [(id, s)]) ltac:(lia) Hcfg Hfl Htick Hall1)
        as (w' & Hrun & Hs & Hc & Hb & Hl & Hpt & Hfr).
      exists w'. split.
      * rewrite Hrun, Hrest, Hhere, <- app_assoc. reflexivity.
      * eapply (Hpost (susp ++ [(id, s)])); try eassumption.
        rewrite Hrest, Hhere, <- app_assoc. reflexivity.
    + destruct (IH (S i) w1 susp ltac:(lia) Hcfg Hfl Htick Hall1)
        as (w' & Hrun & Hs & Hc & Hb & Hl & Hpt & Hfr).
      exists w'. split.
      * rewrite Hrun, Hrest, Hhere. reflexivity.
      * eapply (Hpost susp); try eassumption.
        rewrite Hrest, Hhere. reflexivity.
Qed.

Lemma owedList_cons h j id js :
  owedList cfg quota h ((j, id) :: js)
  = match h !! id with
    | Some t =>
        match owed cfg (Finite (Num.of_Z (quota j))) t with
        | Some s => (id, s) :: owedList cfg quota h js
        | None => owedList cfg quota h js
        end
    | None => owedList cfg quota h js
    end.
Proof.
  unfold owedList. cbn [omap list_omap].
  destruct (h !! id) as [t|]; cbn; [|reflexivity].
  now destruct (owed cfg _ t).
Qed.

Lemma resumeAll_holds h0 js :
  forall w,
    NoDup (map snd js) -> config w = cfg ->
    (forall j id, (j, id) ∈ js ->
       exists t, h0 !! id = Some t /\ Holds cfg t (quota j)
                 /\ heap w !! id = Some (takeT cfg (Finite (Num.of_Z (quota j))) t)) ->
    exists w',
      resumeAll (owedList cfg quota h0 js) w = w'
      /\ sched w' = sched w /\ config w' = cfg
      /\ bandwidthThrottles w' = bandwidthThrottles w
      /\ length (heap w') = length (heap w)
      /\ (forall j id t, (j, id) ∈ js -> h0 !! id = Some t ->
            heap w' !! id = Some (emitT cfg (Finite (Num.of_Z (quota j))) t))
      /\ (forall id, id ∉ map snd js -> heap w' !! id = heap w !! id).
Proof.
  induction js as [|[j id] js IH]; intros w Hnd Hcfg Hall.
  - exists w. split_and!; try reflexivity; try assumption.
    intros j id t Hin. inversion Hin.
  - cbn [map snd] in Hnd. apply NoDup_cons in Hnd as [Hnotin Hnd].
    destruct (Hall j id (list_elem_of_here _ _)) as (t & Ht0 & Hholds & Htw).
    (* the world after the suspended call of this request, if any *)
    assert (Hstep : exists w1,
      resumeAll (owedList cfg quota h0 ((j, id) :: js)) w
      = resumeAll (owedList cfg quota h0 js) w1
      /\ sched w1 = sched w /\ config w1 = cfg
      /\ bandwidthThrottles w1 = bandwidthThrottles w
      /\ length (heap w1) = length (heap w)
      /\ heap w1 !! id = Some (emitT cfg (Finite (Num.of_Z (quota j))) t)
      /\ (forall id', id' <> id -> heap w1 !! id' = heap w !! id')).
    { rewrite owedList_cons, Ht0.
      destruct (owed cfg (Finite (Num.of_Z (quota j))) t) as [s|] eqn:Howed.
      - destruct Hholds as (Hopen & Hrl & Hwl & c & HR & Hq & Hstay).
        assert (He : endReadIndex t (Finite (Num.of_Z (quota j)))
                     = Num.of_Z (quota j)).
        { rewrite (endReadIndex_of_Z cfg t c _ HR). f_equal. lia. }
        assert (Hpos : 0 < quota j).
        { destruct (Z.eq_dec (quota j) 0) as [E|]; [|lia]. exfalso.
          unfold owed in Howed.
          rewrite (process_take_none cfg t c _ _ HR He) in Howed by lia.
          discriminate. }
        destruct (emit_Ready cfg t c _ _ HR Hopen He ltac:(lia))
          as (t1 & t2 & Htake & Hpush & _ & HR2 & _ & HS2 & _).
        assert (Hs : s = take (Z.to_nat (quota j)) (pending t)).
        { unfold owed in Howed. rewrite Htake in Howed. congruence. }
        assert (Ht1 : takeT cfg (Finite (Num.of_Z (quota j))) t = t1).
        { unfold takeT. now rewrite Htake. }
        assert (Ht2 : emitT cfg (Finite (Num.of_Z (quota j))) t = t2).
        { unfold emitT. now rewrite Htake, Hpush. }
        rewrite Ht1 in Htw. rewrite Ht2. subst s.
        exists (storeThrottle id t2 w).
        unfold resumeAll. cbn [foldl fst snd].
        unfold process_resume at 2. rewrite Htw, Hpush.
        rewrite (process_finish_holds id (storeThrottle id t2 w) t2 (c - quota j)).
        + split_and!; try reflexivity; try assumption.
          * simpl. apply length_insert.
          * eapply lookup_storeThrottle, Htw.
          * intros id' Hne. simpl. now apply list_lookup_insert_ne.
        + eapply lookup_storeThrottle, Htw.
        + simpl. rewrite Hcfg. exact HR2.
        + destruct HS2 as (_ & _ & -> & _). destruct Hstay; [now left | right; lia].
      - exists w. rewrite (takeT_emitT_none _ _ _ Howed).
        split_and!; try reflexivity; try assumption. }
    destruct Hstep as (w1 & Hrun & Hs1 & Hc1 & Hb1 & Hl1 & Hid1 & Hfr1).
    assert (Hne : forall j' id', (j', id') ∈ js -> id' <> id).
    { intros j' id' Hin ->. apply Hnotin.
      apply list_elem_of_fmap. exists (j', id). split; [reflexivity | exact Hin]. }
    destruct (IH w1 Hnd Hc1) as (w' & Hrun' & Hs & Hc & Hb & Hl & Hpt & Hfr).
    { intros j' id' Hin.
      destruct (Hall j' id' (list_elem_of_further _ _ _ Hin)) as (t' & ? & ? & ?).
      exists t'. split_and!; try assumption.
      rewrite Hfr1 by (eapply Hne; eassumption). assumption. }
    exists w'. split_and!.
    + now rewrite Hrun.
    + now rewrite Hs.
    + exact Hc.
    + now rewrite Hb.
    + now rewrite Hl.
    + intros j' id' t' Hin Ht'. inversion Hin; subst.
      * rewrite Ht0 in Ht'. injection Ht' as <-.
        rewrite Hfr by exact Hnotin. exact Hid1.
      * eapply Hpt; eassumption.
    + intros id' Hnot. rewrite Hfr.
      * apply Hfr1. intros ->. apply Hnot. cbn. left.
      * intros Hin. apply Hnot. cbn. now right.
Qed.


End NiceTick.

Lemma snd_imap_pair (ids : list nat) : map snd (imap pair ids) = ids.
Proof.
  apply list_eq. intros i.
  rewrite list_lookup_fmap, list_lookup_imap. now destruct (ids !! i).
Qed.

Lemma tickDurationMs_of_Z cfg (d : Z) :
  d * ticksPerSecond cfg = 1000 -> tickDurationMs cfg = Num.of_Z d.
Proof.
  intros H. unfold tickDurationMs. apply div_of_Z; [|lia].
  intros E. rewrite E in H. lia.
Qed.

(** A tick that comes on time has [delayMultiplier = 1] and is not skipped. *)
Lemma onTime_multiplier cfg (d elapsed : Z) :
  d * ticksPerSecond cfg = 1000 -> 0 < d -> elapsed = 0 \/ elapsed = d ->
  Num.max 1 (Num.div (Num.of_Z elapsed) (tickDurationMs cfg)) = Num.of_Z 1.
Proof.
  intros Hd Hpos He. rewrite (tickDurationMs_of_Z cfg d Hd).
  change 1%Q with (Num.of_Z 1).
  destruct He as [-> | ->].
  - rewrite (div_of_Z 0 d 0) by lia. now rewrite max_of_Z.
  - rewrite (div_of_Z d d 1) by lia. now rewrite max_of_Z.
Qed.

(** A tick on time, up to the point where the suspended calls of
    [process] resume: every request in flight has taken its quota, and the
    counters have advanced. *)
Lemma tick_unfolds (w : World) (now d : Z) :
  isThrottled (config w) = true ->
  NoDup (inFlightRequests w) ->
  isTicking w = true ->
  d * ticksPerSecond (config w) = 1000 -> 0 < d ->
  0 <= now -> (hasTicked w = true -> now = lastTickTime w + d) ->
  let cfg := config w in
  let ids := inFlightRequests w in
  let quota := quotaAt cfg (length ids)
                 (Z.rem (secondIndex w) (Z.of_nat (length ids))) (tickIndex w) in
  (forall j id, ids !! j = Some id ->
     exists t, heap w !! id = Some t /\ Feeds cfg t (quota j)) ->
  exists w2,
    processInFlightRequests now w
    = resumeAll (owedList cfg quota (heap w) (imap pair ids)) w2
    /\ config w2 = cfg
    /\ inFlightRequests w2 = ids
    /\ clockIntervalId w2 = clockIntervalId w
    /\ bandwidthThrottles w2 = bandwidthThrottles w
    /\ lastTickTime w2 = now
    /\ tickIndex w2
       = (if tickIndex w + 1 =? ticksPerSecond cfg then 0 else tickIndex w + 1)
    /\ secondIndex w2
       = (if tickIndex w + 1 =? ticksPerSecond cfg
          then secondIndex w + 1 else secondIndex w)
    /\ length (heap w2) = length (heap w)
    /\ (forall j id t, ids !! j = Some id -> heap w !! id = Some t ->
          heap w2 !! id = Some (takeT cfg (Finite (Num.of_Z (quota j))) t))
    /\ (forall id, id ∉ ids -> heap w2 !! id = heap w !! id).
Proof.
  intros Hth Hnd Hclock Hd Hpos Hnow Hlast cfg ids quota Hall.
  set (period := Z.rem (secondIndex w) (Z.of_nat (length ids))) in *.
  unfold processInFlightRequests.
  set (elapsed := if hasTicked w then now - lastTickTime w else 0).
  assert (He : elapsed = 0 \/ elapsed = d).
  { subst elapsed. destruct (hasTicked w); [right|now left].
    rewrite (Hlast eq_refl). lia. }
  assert (Hskip : isThrottled (config w) && hasTicked w
                  && Num.ltb (Num.of_Z elapsed) (tickDurationMs (config w)) = false).
  { fold cfg. rewrite (tickDurationMs_of_Z cfg d Hd), ltb_of_Z.
    subst elapsed. destruct (hasTicked w).
    - rewrite (Hlast eq_refl). rewrite andb_false_iff. right. lia.
    - now rewrite andb_false_r. }
  rewrite Hskip. fold cfg ids period.
  rewrite (onTime_multiplier cfg d elapsed Hd Hpos He).
  destruct (forEachInFlight_holds cfg ids period (tickIndex w) Hth Hnd
              (length ids) 0%nat w [] eq_refl eq_refl eq_refl eq_refl)
    as (w1 & Hrun & Hs1 & Hc1 & Hb1 & Hl1 & Hpt1 & Hfr1).
  { intros j id _ Hid. apply Hall, Hid. }
  rewrite Hrun. rewrite drop_0, app_nil_l.
  injection Hs1 as Hfl1 Hck1 Hlt1 Hti1 Hsi1.
  assert (Htick1 : isTicking w1 = true) by (unfold isTicking; now rewrite Hck1).
  rewrite Htick1.
  set (w2 := if tickIndex w1 + 1 =? ticksPerSecond (config w1) then _ else _).
  exists w2.
  assert (Hl : (if hasTicked w1 then lastTickTime w1 + elapsed else now) = now).
  { unfold hasTicked in *. rewrite Hlt1. subst elapsed. unfold hasTicked in *.
    destruct (-1 <? lastTickTime w) eqn:E; [|reflexivity].
    rewrite (Hlast eq_refl). lia. }
  assert (Hw2 : config w2 = cfg /\ heap w2 = heap w1
                /\ inFlightRequests w2 = ids
                /\ clockIntervalId w2 = clockIntervalId w
                /\ bandwidthThrottles w2 = bandwidthThrottles w
                /\ lastTickTime w2 = now
                /\ tickIndex w2
                   = (if tickIndex w + 1 =? ticksPerSecond cfg then 0
                      else tickIndex w + 1)
                /\ secondIndex w2
                   = (if tickIndex w + 1 =? ticksPerSecond cfg
                      then secondIndex w + 1 else secondIndex w)).
  { subst w2. rewrite Hc1, Hti1, Hsi1, Hl.
    destruct (tickIndex w + 1 =? ticksPerSecond cfg); cbn; split_and!; auto. }
  destruct Hw2 as (Hc2 & Hh2 & Hfl2 & Hck2 & Hb2 & Hlt2 & Hti2 & Hsi2).
  split_and!; try assumption; try reflexivity.
  - now rewrite Hh2.
  - intros j id t Hid Ht. rewrite Hh2. now apply Hpt1; [lia|..].
  - intros id Hnot. rewrite Hh2. apply Hfr1. intros j _ Hid. apply Hnot.
    eapply list_elem_of_lookup_2, Hid.
Qed.

(** The tick of a group none of whose requests ends: every request in
    flight emits its quota, and the counters advance. *)
Lemma tick_holds (w : World) (now d : Z) :
  isThrottled (config w) = true ->
  NoDup (inFlightRequests w) ->
  isTicking w = true ->
  d * ticksPerSecond (config w) = 1000 -> 0 < d ->
  0 <= now -> (hasTicked w = true -> now = lastTickTime w + d) ->
  (forall j id, inFlightRequests w !! j = Some id ->
     exists t, heap w !! id = Some t
               /\ Holds (config w) t
                    (quotaAt (config w) (length (inFlightRequests w))
                       (Z.rem (secondIndex w) (Z.of_nat (length (inFlightRequests w))))
                       (tickIndex w) j)) ->
  let w' := processInFlightRequests now w in
  config w' = config w
  /\ inFlightRequests w' = inFlightRequests w
  /\ clockIntervalId w' = clockIntervalId w
  /\ bandwidthThrottles w' = bandwidthThrottles w
  /\ lastTickTime w' = now
  /\ tickIndex w'
     = (if tickIndex w + 1 =? ticksPerSecond (config w) then 0 else tickIndex w + 1)
  /\ secondIndex w'
     = (if tickIndex w + 1 =? ticksPerSecond (config w)
        then secondIndex w + 1 else secondIndex w)
  /\ length (heap w') = length (heap w)
  /\ (forall j id t, inFlightRequests w !! j = Some id -> heap w !! id = Some t ->
        heap w' !! id
        = Some (emitT (config w)
                  (Finite (Num.of_Z
                     (quotaAt (config w) (length (inFlightRequests w))
                        (Z.rem (secondIndex w)
                           (Z.of_nat (length (inFlightRequests w))))
                        (tickIndex w) j))) t))
  /\ (forall id, id ∉ inFlightRequests w -> heap w' !! id = heap w !! id).
Proof.
  intros Hth Hnd Hclock Hd Hpos Hnow Hlast Hall w'. subst w'.
  destruct (tick_unfolds w now d Hth Hnd Hclock Hd Hpos Hnow Hlast)
    as (w2 & -> & Hc2 & Hfl2 & Hck2 & Hb2 & Hlt2 & Hti2 & Hsi2 & Hl2 & Hpt2 & Hfr2).
  { intros j id Hid. destruct (Hall j id Hid) as (t & Ht & Hh).
    exists t. split; [exact Ht | now apply Holds_Feeds]. }
  set (cfg := config w) in *. set (ids := inFlightRequests w) in *.
  set (period := Z.rem (secondIndex w) (Z.of_nat (length ids))) in *.
  destruct (resumeAll_holds cfg ids period (tickIndex w) Hth (heap w)
              (imap pair ids) w2)
    as (w3 & Hrun3 & Hs3 & Hc3 & Hb3 & Hl3 & Hpt3 & Hfr3).
  - now rewrite snd_imap_pair.
  - exact Hc2.
  - intros j id Hin.
    apply (positions_elem ids j id 0) in Hin as [_ Hid].
    destruct (Hall j id Hid) as (t & Ht & Hh).
    exists t. split_and!; try assumption. now apply (Hpt2 j).
  - rewrite Hrun3. injection Hs3 as Hfl3 Hck3 Hlt3 Hti3 Hsi3.
    split_and!; try congruence.
    + intros j id t Hid Ht. eapply Hpt3; [|exact Ht].
      apply list_elem_of_lookup. exists j.
      rewrite list_lookup_imap, Hid. reflexivity.
    + intros id Hnot. rewrite Hfr3 by now rewrite snd_imap_pair.
      now apply Hfr2.
Qed.


(** ** Sums of quotas *)

Lemma part_nonneg (N P i : Z) :
  0 <= N -> 1 <= P -> 0 <= getPartitionedIntegerPartAtIndex N P i.
Proof.
  intros HN HP. unfold getPartitionedIntegerPartAtIndex.
  assert (0 <= N / P) by (apply Z.div_pos; lia).
  destruct (i <? N mod P); lia.
Qed.


Lemma quotaAt_nonneg cfg k period tick j :
  0 <= bytesPerSecond cfg -> 1 <= ticksPerSecond cfg -> (1 <= k)%nat ->
  0 <= quotaAt cfg k period tick j.
Proof.
  intros HB HT Hk. unfold quotaAt.
  apply part_nonneg; [|lia]. apply part_nonneg; lia.
Qed.

Lemma budget_nonneg cfg k j n :
  0 <= bytesPerSecond cfg -> 1 <= ticksPerSecond cfg -> (1 <= k)%nat ->
  forall c, 0 <= budget cfg k j n c.
Proof.
  intros HB HT Hk. induction n as [|n IH]; intros c; simpl; [lia|].
  pose proof (quotaAt_nonneg cfg k (Z.rem (snd c) (Z.of_nat k)) (fst c) j HB HT Hk).
  specialize (IH (nextTick cfg c)). lia.
Qed.














(** ** A window of ticks that ends no request *)

Lemma Ready_length cfg t c : Ready cfg t c -> Z.of_nat (length (pending t)) = c.
Proof.
  intros HR. destruct (Ready_pending _ _ _ HR) as (buf & _ & _ & Hl).
  destruct HR as (buf' & _ & _ & _ & _ & _ & Hc). rewrite Hl. lia.
Qed.

Lemma Holds_le cfg t b q : Holds cfg t b -> 0 <= q <= b -> Holds cfg t q.
Proof.
  intros ([Hctl Ho] & Hr & Hw & c & HR & Hb & Hs) Hq.
  split_and!; try assumption. exists c. split_and!; try assumption; try lia.
  destruct Hs; [now left | right; lia].
Qed.

Lemma Holds_after cfg t b q :
  Holds cfg t b -> 0 <= q <= b ->
  Holds cfg (emitT cfg (Finite (Num.of_Z q)) t) (b - q).
Proof.
  intros Hb Hq.
  destruct (Holds_emitT cfg t q (Holds_le _ _ _ _ Hb Hq))
    as ((_ & Ht & Hw & _ & Hrl & Hwl & Hcl) & _ & _ & _ & HR).
  destruct Hb as ([Hctl Ho] & Hr & Hwr & c & HRc & Hbc & Hs).
  rewrite (Ready_length _ _ _ HRc) in HR.
  split_and!; try congruence.
  exists (c - q). split_and!; try assumption; try lia.
  rewrite Hw. destruct Hs; [now left | right; lia].
Qed.

Lemma stocked_Holds w b id :
  stocked w b id = true -> 0 <= b ->
  exists t, heap w !! id = Some t /\ Holds (config w) t b.
Proof.
  unfold stocked. destruct (heap w !! id) as [t|]; [|discriminate].
  intros H Hb.
  apply andb_prop in H as [H Hstay]. apply andb_prop in H as [H Hle].
  apply andb_prop in H as [H Hwl]. apply andb_prop in H as [H Hrl].
  apply andb_prop in H as [H Hopen]. apply andb_prop in Hopen as [Hctl Hopen].
  exists t. split; [reflexivity|].
  pose proof (atRest_Ready _ _ H) as HR.
  apply negb_true_iff in Hopen. apply Z.leb_le in Hle.
  split_and!; try assumption.
  exists (Z.of_nat (length (pending t))). split_and!; try assumption.
  apply orb_prop in Hstay as [?|?%Z.ltb_lt]; [now left | now right].
Qed.

Lemma ticks_hold (d : Z) (n : nat) :
  forall (w : World) (now : Z),
    isThrottled (config w) = true ->
    0 <= bytesPerSecond (config w) -> 1 <= ticksPerSecond (config w) ->
    d * ticksPerSecond (config w) = 1000 ->
    inFlightRequests w <> [] -> NoDup (inFlightRequests w) ->
    isTicking w = true ->
    0 <= now -> (hasTicked w = true -> now = lastTickTime w + d) ->
    (forall j id, inFlightRequests w !! j = Some id ->
       exists t, heap w !! id = Some t
                 /\ Holds (config w) t
                      (budget (config w) (length (inFlightRequests w)) j n
                         (tickIndex w, secondIndex w))) ->
    config (ticks n now d w) = config w
    /\ inFlightRequests (ticks n now d w) = inFlightRequests w
    /\ (forall j id t, inFlightRequests w !! j = Some id -> heap w !! id = Some t ->
          exists t', heap (ticks n now d w) !! id = Some t'
            /\ sameStanding t t'
            /\ emitted t'
               = emitted t
                 ++ take (Z.to_nat (budget (config w) (length (inFlightRequests w))
                                      j n (tickIndex w, secondIndex w)))
                      (pending t)
            /\ pending t'
               = drop (Z.to_nat (budget (config w) (length (inFlightRequests w))
                                   j n (tickIndex w, secondIndex w)))
                   (pending t)).
Proof.
  induction n as [|n IH]; intros w now Hth HB HT Hd Hne Hnd Hck Hnow Hlast Hall.
  - cbn [ticks budget]. split_and!; try reflexivity.
    intros j id t _ Ht. exists t. split_and!.
    + exact Ht.
    + apply sameStanding_refl.
    + simpl. now rewrite app_nil_r.
    + reflexivity.
  - assert (Hk : (1 <= length (inFlightRequests w))%nat).
    { destruct (inFlightRequests w); [contradiction | simpl; lia]. }
    assert (Hpos : 0 < d) by nia.
    cbn [ticks].
    set (k := length (inFlightRequests w)) in *.
    set (c0 := (tickIndex w, secondIndex w)) in *.
    pose (q0 j := quotaAt (config w) k (Z.rem (secondIndex w) (Z.of_nat k))
                    (tickIndex w) j).
    assert (Hq0 : forall j, 0 <= q0 j
                            /\ budget (config w) k j (S n) c0
                               = q0 j + budget (config w) k j n (nextTick (config w) c0)
                            /\ 0 <= budget (config w) k j n (nextTick (config w) c0)).
    { intros j. split_and!.
      - apply quotaAt_nonneg; assumption.
      - reflexivity.
      - apply budget_nonneg; assumption. }
    destruct (tick_holds w now d Hth Hnd Hck Hd Hpos Hnow Hlast)
      as (Hc1 & Hfl1 & Hck1 & _ & Hlt1 & Hti1 & Hsi1 & _ & Hpt1 & _).
    { intros j id Hid. destruct (Hall j id Hid) as (t & Ht & Hh).
      exists t. split; [exact Ht|]. fold k. fold (q0 j).
      destruct (Hq0 j) as (? & E & ?). eapply Holds_le; [exact Hh|]. fold k c0. lia. }
    set (w1 := processInFlightRequests now w) in *.
    assert (Hc01 : (tickIndex w1, secondIndex w1) = nextTick (config w) c0).
    { unfold nextTick, c0. cbn [fst snd]. rewrite Hti1, Hsi1.
      now destruct (tickIndex w + 1 =? ticksPerSecond (config w)). }
    destruct (IH w1 (now + d)) as (Hc2 & Hfl2 & Hpt2).
    + now rewrite Hc1.
    + now rewrite Hc1.
    + now rewrite Hc1.
    + now rewrite Hc1.
    + now rewrite Hfl1.
    + now rewrite Hfl1.
    + unfold isTicking in *. now rewrite Hck1.
    + lia.
    + intros _. lia.
    + intros j id Hid. rewrite Hfl1 in Hid.
      destruct (Hall j id Hid) as (t & Ht & Hh).
      exists (emitT (config w) (Finite (Num.of_Z (q0 j))) t). split.
      * apply (Hpt1 j id t Hid Ht).
      * rewrite Hc1, Hfl1, Hc01. fold k.
        destruct (Hq0 j) as (? & E & ?).
        replace (budget (config w) k j n (nextTick (config w) c0))
          with (budget (config w) k j (S n) c0 - q0 j) by lia.
        apply Holds_after; [exact Hh | lia].
    + split_and!; try congruence.
      intros j id t Hid Ht.
      destruct (Hall j id Hid) as (t0 & Ht0 & Hh).
      rewrite Ht in Ht0. injection Ht0 as <-.
      destruct (Hq0 j) as (Hq & E & Hrest).
      assert (Hh0 : Holds (config w) t (q0 j))
        by (eapply Holds_le; [exact Hh | fold k c0; lia]).
      destruct (Holds_emitT (config w) t (q0 j) Hh0) as (S1 & He1 & Hp1 & _ & _).
      destruct (Hpt2 j id (emitT (config w) (Finite (Num.of_Z (q0 j))) t))
        as (t' & Ht' & S2 & He2 & Hp2).
      { now rewrite Hfl1. }
      { apply (Hpt1 j id t Hid Ht). }
      rewrite Hc1, Hfl1, Hc01 in He2, Hp2. fold k in He2, Hp2.
      exists t'. split_and!.
      * exact Ht'.
      * exact (sameStanding_trans _ _ _ S1 S2).
      * rewrite He2, He1, Hp1, <- app_assoc. f_equal.
        rewrite E. rewrite Z2Nat.inj_add by lia. apply take_take_drop.
      * rewrite Hp2, Hp1, drop_drop. f_equal. rewrite E. lia.
Qed.




(** A group whose requests pass the stronger test keeps its in-flight list
    over the ticks that hand out [b] bytes to each. *)
Lemma stocked_stable (w : World) (now d : Z) (n : nat) :
  isThrottled (config w) = true ->
  0 <= bytesPerSecond (config w) -> 1 <= ticksPerSecond (config w) ->
  d * ticksPerSecond (config w) = 1000 ->
  0 <= now -> (hasTicked w = true -> now = lastTickTime w + d) ->
  inFlightRequests w <> [] -> NoDup (inFlightRequests w) -> isTicking w = true ->
  forallb (stocked w (bytesPerSecond (config w))) (inFlightRequests w) = true ->
  (forall j, budget (config w) (length (inFlightRequests w)) j n
               (tickIndex w, secondIndex w) <= bytesPerSecond (config w)) ->
  inFlightRequests (ticks n now d w) = inFlightRequests w.
Proof.
  intros Hth HB HT Hd Hnow Hlast Hne Hnd Hck Hstock Hbudget.
  assert (Hk : (1 <= length (inFlightRequests w))%nat).
  { destruct (inFlightRequests w); [contradiction | simpl; lia]. }
  destruct (ticks_hold d n w now Hth HB HT Hd Hne Hnd Hck Hnow Hlast)
    as (_ & Hfl & _); [|exact Hfl].
  intros j id Hid.
  destruct (stocked_Holds w (bytesPerSecond (config w)) id) as (t & Ht & Hh).
  - rewrite forallb_forall in Hstock. apply Hstock.
    apply list_elem_of_In. eapply list_elem_of_lookup_2, Hid.
  - exact HB.
  - exists t. split; [exact Ht|]. eapply Holds_le; [exact Hh|].
    split; [now apply budget_nonneg | apply Hbudget].
Qed.

(** ** Fairness *)



(** The same for requests that hold more than they are handed out: the
    in-flight list stays as it is, and every request emits [B] bytes. *)
Lemma stocked_requests_stay_in_flight :
  forallb (stocked threeRequests 7) (inFlightRequests threeRequests) = true
  /\ (forall n, (n <= 3)%nat ->
        inFlightRequests (ticks n 1000000 1000 threeRequests)
        = inFlightRequests threeRequests)
  /\ map (fun id => emittedCount id (ticks 3 1000000 1000 threeRequests)
                    - emittedCount id threeRequests) [0; 1; 2]%nat
     = [7; 7; 7].
Proof.
  split; [vm_compute; reflexivity|]. split; [|vm_compute; reflexivity].
  intros n Hn. destruct n as [|[|[|[|n]]]]; [vm_compute; reflexivity.. | lia].
Qed.

(** ** The two throttle classes on the same calls *)

Lemma erase_idemp t : erase (erase t) = erase t.
Proof. reflexivity. Qed.

Lemma Sound_erase cfg t : Sound cfg (erase t) <-> Sound cfg t.
Proof. reflexivity. Qed.

Lemma lookup_eraseW w id : heap (eraseW w) !! id = erase <$> heap w !! id.
Proof. simpl. apply list_lookup_fmap. Qed.

Lemma SoundW_eraseW w : SoundW (eraseW w) <-> SoundW w.
Proof.
  unfold SoundW. split; intros H id t Ht.
  - apply Sound_erase. apply (H id (erase t)).
    rewrite lookup_eraseW, Ht. reflexivity.
  - rewrite lookup_eraseW in Ht.
    destruct (heap w !! id) as [t0|] eqn:E; [|discriminate].
    injection Ht as <-. apply Sound_erase. exact (H id t0 E).
Qed.

Lemma eraseW_storeThrottle id t w :
  eraseW (storeThrottle id t w) = storeThrottle id (erase t) (eraseW w).
Proof. unfold eraseW, storeThrottle. simpl. now rewrite list_fmap_insert. Qed.

Lemma eraseW_modifyThrottle id f w :
  (forall t, erase (f t) = f (erase t)) ->
  eraseW (modifyThrottle id f w) = modifyThrottle id f (eraseW w).
Proof.
  intros H. unfold eraseW, modifyThrottle. simpl.
  rewrite (list_fmap_alter erase f f); [reflexivity|].
  apply Forall_forall. intros; apply H.
Qed.

Lemma eraseW_handleRequestStart id w :
  eraseW (handleRequestStart id w) = handleRequestStart id (eraseW w).
Proof. unfold handleRequestStart. simpl. now destruct (clockIntervalId w). Qed.

Lemma eraseW_handleRequestStop id w :
  eraseW (handleRequestStop id w) = handleRequestStop id (eraseW w).
Proof.
  unfold handleRequestStop. simpl.
  destruct (_ =? 0)%nat; unfold eraseW, stopClock; simpl;
    (rewrite (list_fmap_alter erase (set_pendingBytesBuffer None)
                (set_pendingBytesBuffer None));
     [reflexivity | now apply Forall_forall]).
Qed.

Lemma eraseW_handleRequestDestroy id w :
  eraseW (handleRequestDestroy id w) = handleRequestDestroy id (eraseW w).
Proof.
  unfold handleRequestDestroy, eraseW. simpl.
  rewrite (list_fmap_alter erase (set_pendingBytesBuffer None)
             (set_pendingBytesBuffer None)); [reflexivity|].
  now apply Forall_forall.
Qed.

Lemma eraseW_destroy id w : eraseW (destroy id w) = destroy id (eraseW w).
Proof.
  unfold destroy. rewrite eraseW_modifyThrottle by reflexivity.
  now rewrite eraseW_handleRequestDestroy.
Qed.

Lemma eraseW_process_finish id w :
  eraseW (process_finish id w) = process_finish id (eraseW w).
Proof.
  unfold process_finish. rewrite lookup_eraseW.
  destruct (heap w !! id) as [t|]; [|reflexivity]. cbn.
  destruct (_ || _ || _); [reflexivity|].
  rewrite eraseW_destroy, eraseW_handleRequestStop.
  now rewrite eraseW_modifyThrottle by reflexivity.
Qed.

Lemma isInteger_of_Z (q : Q) : isInteger q = true -> q = Num.of_Z (Qnum q).
Proof.
  destruct q as [n d]. unfold isInteger. cbn [Qden Qnum].
  intros H%Pos.eqb_eq. now subst d.
Qed.

(** With an integer quota both classes stop reading at the same index. *)
Lemma endReadIndex_Sound cfg t q :
  Sound cfg t ->
  match q with Finite m => isInteger m = true | Infinity => True end ->
  exists e, endReadIndex t q = Num.of_Z e /\ endReadIndex (erase t) q = Num.of_Z e
            /\ exists c, pendingBytesCount t = Num.of_Z c /\ e <= c.
Proof.
  intros (Hr & c & Hc & Hc0 & _) Hq. destruct q as [m|].
  - apply isInteger_of_Z in Hq. rewrite Hq.
    exists (Z.min (0 + Qnum m) c). unfold endReadIndex.
    cbn [erase variant pendingBytesReadIndex pendingBytesCount].
    rewrite Hr, Hc. split_and!.
    + destruct (variant t); now rewrite ?round_of_Z, add_of_Z, min_of_Z.
    + now rewrite add_of_Z, min_of_Z.
    + exists c. split; [reflexivity | lia].
  - exists c. cbn. split_and!; try assumption. exists c. split; [assumption | lia].
Qed.

(** A whole call of [process] that takes [e] bytes from a live buffer. *)
Lemma processT_live cfg q t buf (e c : Z) :
  pendingBytesBuffer t = Some buf ->
  length buf = Z.to_nat (pendingBytesBufferExpandedSize t) ->
  Z.of_nat (length buf) <= maxBufferSize cfg ->
  c <= Z.of_nat (length buf) -> controller t = true -> terminated t = false ->
  pendingBytesReadIndex t = Num.of_Z 0 -> pendingBytesCount t = Num.of_Z c ->
  endReadIndex t q = Num.of_Z e -> 0 < e <= c ->
  let s := TypedArray.subarray buf (Num.of_Z 0) (Num.of_Z e) in
  let moved := take (Z.to_nat (c - e)) (drop (Z.to_nat e) buf) in
  let buf1 := moved ++ drop (length moved)
                         (TypedArray.alloc (pendingBytesBufferExpandedSize t)) in
  processT cfg q t
  = (set_pendingBytesCount (Num.of_Z (c - e))
       (set_pendingBytesReadIndex 0
          (set_pendingBytesBuffer (Some buf1)
             (match variant t with
              | Plain =>
                  set_downstream (writesCompleted t) (enqueued t ++ [s]) t
              | WithBackpressure =>
                  set_downstream
                    (match resolver_backpressure t with
                     | Some k => writesCompleted t ++ [k]
                     | None => writesCompleted t
                     end)
                    (enqueued t ++ [s]) (set_resolver_backpressure None t)
              end))),
     true).
Proof.
  intros Hb Hl Hm Hcl Hctl Hopen Hr Hc He Hrange s moved buf1.
  unfold processT, process_take. rewrite He, Hr, sub_of_Z.
  change 0%Q with (Num.of_Z 0). rewrite ltb_of_Z.
  destruct (Z.ltb_spec 0 (e - 0)); [|lia]. rewrite Hb. fold s.
  destruct (variant t) eqn:Hv.
  - unfold push at 1. cbn [controller terminated set_pendingBytesReadIndex].
    rewrite Hctl, Hopen. cbn [negb orb].
    rewrite (trim_buffer_of_Z cfg _ buf e c); cbn;
      try assumption; try reflexivity; try lia.
    unfold process_push. cbn. rewrite Hv. reflexivity.
  - rewrite (trim_buffer_of_Z cfg _ buf e c); cbn;
      try assumption; try reflexivity; try lia.
    unfold process_push. cbn. rewrite Hv. unfold push. cbn. rewrite Hctl, Hopen.
    reflexivity.
Qed.

(** A whole call of [process] with an integer quota: the backpressure
    throttle ends in the state of the plain one. *)
Lemma processT_erase cfg q t :
  Sound cfg t ->
  match q with Finite m => isInteger m = true | Infinity => True end ->
  processT cfg q (erase t)
  = (erase (fst (processT cfg q t)), snd (processT cfg q t)).
Proof.
  intros HS Hq.
  destruct (endReadIndex_Sound cfg t q HS Hq) as (e & He & He' & c & Hc & Hec).
  destruct HS as (Hr & c' & Hc' & Hc0 & Hbuf).
  rewrite Hc in Hc'. apply of_Z_inj in Hc'. subst c'.
  destruct (Z.ltb_spec 0 e) as [Hpos|Hle].
  - destruct (pendingBytesBuffer t) as [buf|] eqn:Hb.
    + destruct (Hbuf buf eq_refl) as (Hl & Hm & Hcl & Hctl & Hopen).
      rewrite (processT_live cfg q (erase t) buf e c); try assumption; try lia.
      rewrite (processT_live cfg q t buf e c); try assumption; try lia.
      cbn [fst snd]. now destruct (variant t).
    + unfold processT, process_take. rewrite He, He'.
      replace (pendingBytesReadIndex (erase t)) with (Num.of_Z 0)
        by (symmetry; exact Hr).
      replace (pendingBytesBuffer (erase t)) with (pendingBytesBuffer t)
        by reflexivity.
      rewrite Hr, Hb, sub_of_Z. change 0%Q with (Num.of_Z 0). rewrite ltb_of_Z.
      now destruct (0 <? e - 0).
  - unfold processT, process_take. rewrite He, He'.
    replace (pendingBytesReadIndex (erase t)) with (Num.of_Z 0)
      by (symmetry; exact Hr).
    rewrite Hr, sub_of_Z. change 0%Q with (Num.of_Z 0). rewrite ltb_of_Z.
    destruct (Z.ltb_spec 0 (e - 0)); [lia | reflexivity].
Qed.

Lemma Sound_processT cfg q t :
  Sound cfg t ->
  match q with Finite m => isInteger m = true | Infinity => True end ->
  Sound cfg (fst (processT cfg q t)).
Proof.
  intros HS Hq.
  destruct (endReadIndex_Sound cfg t q HS Hq) as (e & He & _ & c & Hc & Hec).
  pose proof HS as (Hr & c' & Hc' & Hc0 & Hbuf).
  rewrite Hc in Hc'. apply of_Z_inj in Hc'. subst c'.
  assert (Hsame : process_take cfg q t = None
                  \/ process_take cfg q t = Some (t, Throws)
                  \/ (0 < e /\ exists buf, pendingBytesBuffer t = Some buf)).
  { unfold process_take. rewrite He, Hr, sub_of_Z.
    change 0%Q with (Num.of_Z 0). rewrite ltb_of_Z.
    destruct (Z.ltb_spec 0 (e - 0)); [|now left].
    destruct (pendingBytesBuffer t) as [buf|]; [|now right; left].
    right; right. split; [lia | eauto]. }
  destruct Hsame as [E | [E | (Hpos & buf & Hb)]].
  - unfold processT. now rewrite E.
  - unfold processT. now rewrite E.
  - destruct (Hbuf buf Hb) as (Hl & Hm & Hcl & Hctl & Hopen).
    rewrite (processT_live cfg q t buf e c); try assumption; try lia.
    cbn [fst]. split; [reflexivity|]. exists (c - e).
    split; [reflexivity|]. split; [lia|]. intros buf1 [= <-].
    rewrite length_app, length_drop, length_take, length_drop, length_alloc.
    split_and!; try (destruct (variant t); cbn; lia).
    + destruct (variant t); exact Hctl.
    + destruct (variant t); exact Hopen.
Qed.

(** The buffer [grow] sizes holds what it was sized for. *)
Lemma grow_fits cfg (n : Z) t :
  1 <= bytesPerSecond cfg -> 0 <= n <= maxBufferSize cfg ->
  n <= pendingBytesBufferExpandedSize (grow cfg (Num.of_Z n) t)
       <= maxBufferSize cfg.
Proof.
  intros Hb Hn. unfold grow.
  set (f := Num.ceil _).
  assert (Hf : n <= bytesPerSecond cfg * f).
  { subst f. unfold Num.ceil, Num.div, Num.of_Z.
    set (x := (inject_Z n / inject_Z (bytesPerSecond cfg))%Q).
    assert (Hceil : Qceiling (Qred x) = Qceiling x)
      by (apply Qceiling_comp, Qred_correct).
    rewrite Hceil. pose proof (Qle_ceiling x) as Hc.
    assert (Hb0 : ~ (inject_Z (bytesPerSecond cfg) == 0)%Q).
    { intros E. unfold Qeq in E. simpl in E. lia. }
    assert (H1 : (inject_Z n <= inject_Z (Qceiling x)
                               * inject_Z (bytesPerSecond cfg))%Q).
    { rewrite <- (Qmult_div_r (inject_Z n) (inject_Z (bytesPerSecond cfg)) Hb0) at 1.
      fold x. rewrite Qmult_comm.
      apply Qmult_le_compat_r; [exact Hc|].
      change 0%Q with (inject_Z 0). rewrite <- Zle_Qle. lia. }
    rewrite <- inject_Z_mult, <- Zle_Qle in H1. lia. }
  destruct (Z.ltb_spec (maxBufferSize cfg) (bytesPerSecond cfg * f)); cbn; lia.
Qed.

Lemma erase_grow cfg n t : grow cfg n (erase t) = erase (grow cfg n t).
Proof. unfold grow. now destruct (_ <? _). Qed.

Lemma erase_append o chunk t :
  append o chunk (erase t)
  = (erase (fst (append o chunk t)), snd (append o chunk t)).
Proof.
  unfold append. cbn [erase pendingBytesBuffer pendingBytesCount].
  destruct (pendingBytesBuffer t) as [buf|]; [|now destruct o].
  now destruct (TypedArray.set buf chunk (pendingBytesCount t)).
Qed.

Lemma Sound_append cfg o chunk t :
  Sound cfg t -> Sound cfg (fst (append o chunk t)).
Proof.
  intros (Hr & c & Hc & Hc0 & Hbuf). unfold append.
  destruct (pendingBytesBuffer t) as [buf|] eqn:Hb.
  - destruct (Hbuf buf eq_refl) as (Hl & Hm & Hcl & Hctl & Hopen).
    rewrite Hc.
    destruct (Z.le_gt_cases (c + Z.of_nat (length chunk)) (Z.of_nat (length buf))).
    + rewrite set_of_Z by lia. cbn [fst]. split; [exact Hr|].
      exists (c + Z.of_nat (length chunk)). cbn. rewrite add_of_Z.
      split; [reflexivity|]. split; [lia|]. intros buf1 [= <-].
      rewrite !length_app, length_take, length_drop.
      split_and!; try lia; assumption.
    + rewrite set_fails by lia. cbn [fst]. split; [exact Hr|].
      exists c. split_and!; try assumption. intros buf1. rewrite Hb.
      intros [= <-]. auto.
  - destruct o; cbn [fst].
    + split; [exact Hr|]. exists (c + Z.of_nat (length chunk)).
      cbn. rewrite Hc, add_of_Z, Hb. split_and!; try reflexivity; try lia.
      discriminate.
    + split; [exact Hr|]. exists c. split_and!; try assumption.
      rewrite Hb. discriminate.
Qed.

(** [transform] on a live buffer: the two classes buffer the chunk alike,
    and leave a sound throttle. *)
Lemma transform_buffer_erase cfg chunk t :
  1 <= bytesPerSecond cfg ->
  Sound cfg t -> pendingBytesBuffer t <> None ->
  transform_buffer cfg chunk (erase t) = eraseBuffered (transform_buffer cfg chunk t)
  /\ match transform_buffer cfg chunk t with
     | Appended t' _ => Sound cfg t'
     | Overflows => True
     end.
Proof.
  intros Hbps HS Hlive.
  pose proof HS as (Hr & c & Hc & Hc0 & Hbuf).
  destruct (pendingBytesBuffer t) as [buf|] eqn:Hb; [clear Hlive|contradiction].
  destruct (Hbuf buf eq_refl) as (Hl & Hm & Hcl & Hctl & Hopen).
  unfold transform_buffer.
  cbn [erase pendingBytesBufferExpandedSize pendingBytesCount
       pendingBytesReadIndex variant].
  rewrite Hr, Hc, !sub_of_Z, !add_of_Z, !ltb_of_Z, leb_of_Z.
  set (L := Z.of_nat (length chunk)).
  destruct (Z.ltb_spec (pendingBytesBufferExpandedSize t) (L + c)) as [Hsmall|Hroom].
  - destruct (Z.leb_spec (L + (c - 0)) (maxBufferSize cfg)) as [Hfit|]; [|now split].
    destruct (Z.ltb_spec (pendingBytesBufferExpandedSize t) (maxBufferSize cfg));
      [|lia].
    assert (Hg : (match variant t with
                  | Plain => true
                  | WithBackpressure =>
                      pendingBytesBufferExpandedSize t <? c - 0 + L
                  end) = true).
    { destruct (variant t); [reflexivity|]. apply Z.ltb_lt. lia. }
    rewrite Hg. rewrite erase_grow.
    set (t1 := grow cfg (Num.of_Z (L + (c - 0))) t).
    pose proof (grow_fits cfg (L + (c - 0)) t Hbps ltac:(lia)) as Hsize.
    fold t1 in Hsize.
    assert (Hb1 : pendingBytesBuffer t1 = Some buf)
      by (subst t1; unfold grow; destruct (maxBufferSize cfg <? _); exact Hb).
    assert (Hr1 : pendingBytesReadIndex t1 = Num.of_Z 0)
      by (subst t1; unfold grow; destruct (maxBufferSize cfg <? _); exact Hr).
    assert (Hc1 : pendingBytesCount t1 = Num.of_Z c)
      by (subst t1; unfold grow; destruct (maxBufferSize cfg <? _); exact Hc).
    assert (Ho1 : terminated t1 = false)
      by (subst t1; unfold grow; destruct (maxBufferSize cfg <? _); exact Hopen).
    assert (Hctl1 : controller t1 = true)
      by (subst t1; unfold grow; destruct (maxBufferSize cfg <? _); exact Hctl).
    pose proof (trim_buffer_of_Z cfg t1 buf 0 c Hb1 ltac:(lia) Hr1 Hc1
                  ltac:(lia) Hcl ltac:(lia)) as E1.
    pose proof (trim_buffer_of_Z cfg (erase t1) buf 0 c Hb1 ltac:(cbn; lia) Hr1 Hc1
                  ltac:(lia) Hcl ltac:(lia)) as E2.
    cbv zeta in E1, E2.
    set (t2 := set_pendingBytesCount _ _) in E1.
    change (trim_buffer cfg (erase t1) = (erase t2, Returns)) in E2.
    rewrite E1, E2.
    assert (HS2 : Sound cfg t2).
    { subst t2. split; [reflexivity|]. exists (c - 0). cbn.
      split; [reflexivity|]. split; [lia|]. intros b [= <-].
      rewrite length_app, length_drop, length_take, length_drop, length_alloc.
      split_and!; try lia; assumption. }
    pose proof (erase_append false chunk t2) as Ha.
    pose proof (Sound_append cfg false chunk t2 HS2) as HSa.
    rewrite Ha. destruct (append false chunk t2) as [t3 c3]. now split.
  - pose proof (erase_append true chunk t) as Ha.
    pose proof (Sound_append cfg true chunk t HS) as HSa.
    rewrite Ha. destruct (append true chunk t) as [t3 c3]. now split.
Qed.

(** ** Sound stores *)

Lemma SoundW_Forall w : SoundW w <-> Forall (Sound (config w)) (heap w).
Proof. unfold SoundW. now rewrite Forall_lookup. Qed.

Lemma SoundW_same w w' :
  config w' = config w -> heap w' = heap w -> SoundW w -> SoundW w'.
Proof. unfold SoundW. intros -> ->. trivial. Qed.

Lemma SoundW_storeThrottle id t w :
  SoundW w -> Sound (config w) t -> SoundW (storeThrottle id t w).
Proof.
  rewrite !SoundW_Forall. intros H Ht. simpl. now apply Forall_insert.
Qed.

Lemma SoundW_modifyThrottle id f w :
  SoundW w -> (forall t, Sound (config w) t -> Sound (config w) (f t)) ->
  SoundW (modifyThrottle id f w).
Proof.
  rewrite !SoundW_Forall. intros H Hf. simpl. apply Forall_alter; auto.
Qed.

Lemma Sound_release cfg t : Sound cfg t -> Sound cfg (set_pendingBytesBuffer None t).
Proof.
  intros (Hr & c & Hc & Hc0 & _). split; [exact Hr|].
  exists c. split_and!; try assumption. discriminate.
Qed.

Lemma Sound_terminate_released cfg t :
  Sound cfg t -> Sound cfg (terminate (set_pendingBytesBuffer None t)).
Proof.
  intros (Hr & c & Hc & Hc0 & _). split; [exact Hr|].
  exists c. split_and!; try assumption. discriminate.
Qed.

Lemma SoundW_handleRequestStart id w : SoundW w -> SoundW (handleRequestStart id w).
Proof.
  apply SoundW_same; unfold handleRequestStart; simpl;
    now destruct (clockIntervalId w).
Qed.

Lemma SoundW_handleRequestStop id w : SoundW w -> SoundW (handleRequestStop id w).
Proof.
  intros H. apply (SoundW_same (modifyThrottle id (set_pendingBytesBuffer None) w)).
  - unfold handleRequestStop. now destruct (_ =? _)%nat.
  - now rewrite heap_handleRequestStop.
  - apply SoundW_modifyThrottle; [exact H | apply Sound_release].
Qed.

Lemma SoundW_handleRequestDestroy id w :
  SoundW w -> SoundW (handleRequestDestroy id w).
Proof.
  intros H. apply (SoundW_same (modifyThrottle id (set_pendingBytesBuffer None) w));
    try reflexivity.
  apply SoundW_modifyThrottle; [exact H | apply Sound_release].
Qed.

Lemma SoundW_destroy id w : SoundW w -> SoundW (destroy id w).
Proof.
  intros H.
  apply (SoundW_same
           (modifyThrottle id (terminate ∘ set_pendingBytesBuffer None) w)).
  - reflexivity.
  - rewrite heap_destroy. simpl. now rewrite list_alter_alter_eq.
  - apply SoundW_modifyThrottle; [exact H|].
    intros t. apply Sound_terminate_released.
Qed.

Lemma SoundW_process_finish id w : SoundW w -> SoundW (process_finish id w).
Proof.
  intros H. unfold process_finish.
  destruct (heap w !! id) as [t|]; [|exact H].
  destruct (_ || _ || _); [exact H|].
  apply SoundW_destroy, SoundW_handleRequestStop, SoundW_modifyThrottle;
    [exact H | now intros t0].
Qed.

(** A whole call of [process], in terms of what it does to its throttle. *)
Lemma process_factor id q w :
  fst (process id q w)
  = match heap w !! id with
    | None => w
    | Some t =>
        if snd (processT (config w) q t)
        then process_finish id (storeThrottle id (fst (processT (config w) q t)) w)
        else storeThrottle id (fst (processT (config w) q t)) w
    end.
Proof.
  unfold process, process_begin, processT.
  destruct (heap w !! id) as [t|] eqn:Ht; [|reflexivity].
  destruct (process_take (config w) q t) as [[t1 c1]|].
  - destruct c1; try reflexivity.
    unfold process_resume. rewrite (lookup_storeThrottle id t1 t w Ht).
    change (config (storeThrottle id t1 w)) with (config w).
    destruct (process_push bytesToPush t1) as [t2 c2].
    destruct c2; simpl; now rewrite storeThrottle_twice.
  - simpl. now rewrite storeThrottle_same.
Qed.

Lemma eraseW_process id q w :
  SoundW w ->
  match q with Finite m => isInteger m = true | Infinity => True end ->
  eraseW (fst (process id q w)) = fst (process id q (eraseW w))
  /\ SoundW (fst (process id q w)).
Proof.
  intros HS Hq. rewrite !process_factor, lookup_eraseW.
  destruct (heap w !! id) as [t|] eqn:Ht; [|now split].
  cbn [fmap option_fmap option_map]. change (config (eraseW w)) with (config w).
  rewrite (processT_erase (config w) q t (HS id t Ht) Hq). cbn [fst snd].
  pose proof (Sound_processT (config w) q t (HS id t Ht) Hq) as HS'.
  destruct (processT (config w) q t) as [t' fin]. cbn [fst snd] in *.
  assert (HSW : SoundW (storeThrottle id t' w))
    by now apply SoundW_storeThrottle.
  destruct fin.
  - split; [|now apply SoundW_process_finish].
    now rewrite eraseW_process_finish, eraseW_storeThrottle.
  - split; [|exact HSW]. apply eraseW_storeThrottle.
Qed.

Lemma eraseW_transform id chunk w :
  1 <= bytesPerSecond (config w) -> SoundW w ->
  writable (Write id chunk) w = true ->
  eraseW (fst (transform id chunk w)) = fst (transform id chunk (eraseW w))
  /\ SoundW (fst (transform id chunk w)).
Proof.
  intros Hbps HS Hlive. unfold transform. rewrite lookup_eraseW.
  unfold writable in Hlive.
  destruct (heap w !! id) as [t0|] eqn:Ht0; [|now split].
  cbn [fmap option_fmap option_map].
  replace (isDataBeingWritten (erase t0)) with (isDataBeingWritten t0) by reflexivity.
  set (w1 := if isDataBeingWritten t0 then w else _).
  set (w1' := if isDataBeingWritten t0 then eraseW w else _).
  assert (Hw1 : eraseW w1 = w1').
  { subst w1 w1'. destruct (isDataBeingWritten t0); [reflexivity|].
    rewrite eraseW_modifyThrottle by reflexivity.
    now rewrite eraseW_handleRequestStart. }
  assert (Hc1 : config w1 = config w)
    by (subst w1; unfold handleRequestStart; simpl;
        now destruct (isDataBeingWritten t0), (clockIntervalId w)).
  assert (Hc1' : config w1' = config w)
    by (subst w1'; unfold handleRequestStart; simpl;
        now destruct (isDataBeingWritten t0), (clockIntervalId w)).
  assert (HS1 : SoundW w1).
  { subst w1. destruct (isDataBeingWritten t0); [exact HS|].
    apply SoundW_modifyThrottle; [now apply SoundW_handleRequestStart|].
    now intros t. }
  rewrite Hc1, Hc1'.
  change (set_isDataBeingWritten true (erase t0))
    with (erase (set_isDataBeingWritten true t0)).
  destruct (transform_buffer_erase (config w) chunk (set_isDataBeingWritten true t0))
    as [E HSt].
  - exact Hbps.
  - exact (HS id t0 Ht0).
  - cbn. now destruct (pendingBytesBuffer t0).
  - rewrite E. clear E.
    destruct (transform_buffer (config w) chunk (set_isDataBeingWritten true t0))
      as [t c|]; cbn [eraseBuffered].
    + assert (HS2 : SoundW (storeThrottle id t w1)).
      { apply SoundW_storeThrottle; [exact HS1 | now rewrite Hc1]. }
      assert (E2 : eraseW (storeThrottle id t w1) = storeThrottle id (erase t) w1')
        by now rewrite eraseW_storeThrottle, Hw1.
      destruct c; cbn [fst]; try (split; [exact E2 | exact HS2]).
      change (config (storeThrottle id (erase t) w1')) with (config w1').
      change (config (storeThrottle id t w1)) with (config w1).
      rewrite Hc1, Hc1'.
      destruct (isThrottled (config w)); cbn [fst]; [split; assumption|].
      rewrite <- E2. now apply eraseW_process.
    + cbn [fst]. split.
      * now rewrite eraseW_handleRequestDestroy, Hw1.
      * now apply SoundW_handleRequestDestroy.
Qed.

Lemma eraseW_flush id w :
  SoundW w ->
  eraseW (fst (flush id w)) = fst (flush id (eraseW w))
  /\ SoundW (fst (flush id w)).
Proof.
  intros HS. unfold flush. rewrite lookup_eraseW.
  destruct (heap w !! id) as [t|]; [|now split].
  cbn [fmap option_fmap option_map].
  replace (pendingBytesCount (erase t)) with (pendingBytesCount t) by reflexivity.
  assert (HS1 : SoundW (modifyThrottle id (set_isDataBeingWritten false) w))
    by now apply SoundW_modifyThrottle.
  assert (E1 : eraseW (modifyThrottle id (set_isDataBeingWritten false) w)
               = modifyThrottle id (set_isDataBeingWritten false) (eraseW w))
    by now apply eraseW_modifyThrottle.
  destruct (Num.eqb (pendingBytesCount t) 0); cbn [fst]; [now split|].
  change (config (modifyThrottle id (set_isDataBeingWritten false) (eraseW w)))
    with (config w).
  change (config (modifyThrottle id (set_isDataBeingWritten false) w))
    with (config w).
  destruct (isThrottled (config w)); cbn [negb fst]; [now split|].
  split.
  - now rewrite eraseW_destroy, eraseW_handleRequestStop, E1.
  - now apply SoundW_destroy, SoundW_handleRequestStop.
Qed.

Lemma config_process id q w : config (fst (process id q w)) = config w.
Proof.
  rewrite process_factor. destruct (heap w !! id); [|reflexivity].
  destruct (snd _); [|reflexivity]. now rewrite config_process_finish.
Qed.

Lemma config_throttleCall e w :
  throttleCall e = true -> config (step w e) = config w.
Proof.
  destruct e; try discriminate; intros _; simpl.
  - unfold onChunk. destruct (heap w !! id) as [t|]; [|reflexivity].
    now destruct (variant t).
  - unfold transform. destruct (heap w !! id) as [t0|]; [|reflexivity].
    set (w1 := if isDataBeingWritten t0 then w else _).
    assert (Hc1 : config w1 = config w)
      by (subst w1; unfold handleRequestStart; simpl;
          now destruct (isDataBeingWritten t0), (clockIntervalId w)).
    destruct (transform_buffer _ _ _) as [t []|]; simpl; try exact Hc1.
    destruct (isThrottled (config w1)); simpl; [exact Hc1|].
    now rewrite config_process.
  - unfold flush. destruct (heap w !! id); [|reflexivity].
    destruct (Num.eqb _ _); [reflexivity|].
    destruct (negb _); [|reflexivity].
    simpl. unfold destroy, handleRequestDestroy. simpl.
    now rewrite config_handleRequestStop.
  - apply config_process.
Qed.

(** The host delivers a chunk: the two classes count it and keep the
    controller; the backpressure class also keeps the resolver of the
    write. *)
Lemma eraseW_onChunk id w :
  eraseW (fst (onChunk id w)) = fst (onChunk id (eraseW w)).
Proof.
  unfold onChunk. rewrite lookup_eraseW.
  destruct (heap w !! id) as [t|]; [|reflexivity].
  cbn [fmap option_fmap option_map].
  replace (chunkCounter (erase t)) with (chunkCounter t) by reflexivity.
  replace (variant (erase t)) with Plain by reflexivity.
  destruct (variant t); cbn [fst]; unfold eraseW, modifyThrottle; simpl;
    (erewrite list_fmap_alter; [reflexivity|]);
    apply Forall_forall; intros; reflexivity.
Qed.

Lemma SoundW_onChunk id w : SoundW w -> SoundW (fst (onChunk id w)).
Proof.
  intros HS. unfold onChunk. destruct (heap w !! id) as [t|]; [|exact HS].
  destruct (variant t); cbn [fst]; apply SoundW_modifyThrottle; try exact HS;
    intros t0 (Hr & c & Hc & Hc0 & Hbuf); (split; [exact Hr|]);
    exists c; (split; [exact Hc|]); (split; [exact Hc0|]);
    intros buf Hb; destruct (Hbuf buf Hb) as (? & ? & ? & ? & ?);
    split_and!; auto.
Qed.

Lemma step_erase e w :
  1 <= bytesPerSecond (config w) -> SoundW w ->
  throttleCall e = true -> writable e w = true ->
  eraseW (step w e) = step (eraseW w) e /\ SoundW (step w e).
Proof.
  intros Hbps HS Hcall Hlive. destruct e; try discriminate; simpl.
  - split; [apply eraseW_onChunk | now apply SoundW_onChunk].
  - now apply eraseW_transform.
  - now apply eraseW_flush.
  - apply eraseW_process; [exact HS|].
    destruct maxBytesToProcess; [exact Hcall | exact I].
Qed.

Lemma writable_eraseW e w : writable e (eraseW w) = writable e w.
Proof.
  destruct e; try reflexivity. unfold writable. rewrite lookup_eraseW.
  now destruct (heap w !! id).
Qed.

Lemma run_erase events :
  forall w,
    1 <= bytesPerSecond (config w) -> SoundW w ->
    wellUsed events (eraseW w) = true ->
    eraseW (run events w) = run events (eraseW w).
Proof.
  induction events as [|e events IH]; intros w Hbps HS Hused; [reflexivity|].
  cbn [wellUsed] in Hused.
  apply andb_prop in Hused as [Hused Hrest]. apply andb_prop in Hused as [Hcall Hlive].
  rewrite writable_eraseW in Hlive.
  destruct (step_erase e w Hbps HS Hcall Hlive) as [E HS'].
  unfold run. cbn [foldl]. fold (run events (step w e)).
  fold (run events (step (eraseW w) e)). rewrite <- E.
  apply IH.
  - now rewrite config_throttleCall.
  - exact HS'.
  - now rewrite E.
Qed.

Lemma config_piped backpressure options :
  config (piped backpressure options) = options.
Proof.
  unfold piped, single. rewrite config_throttleCall by reflexivity.
  unfold createBandwidthThrottle. now destruct (newThrottle _ _).
Qed.

Lemma SoundW_piped backpressure options :
  0 <= bytesPerSecond options <= maxBufferSize options ->
  SoundW (piped backpressure options).
Proof.
  intros Hcfg id t Ht. rewrite config_piped.
  unfold piped, single in Ht. cbn [step] in Ht.
  unfold createBandwidthThrottle, newThrottle, TypedArray.create in Ht.
  cbn [config newGroup] in Ht.
  destruct (_ || _); [destruct backpressure; discriminate|].
  destruct backpressure; cbn in Ht;
    (destruct id; [|discriminate]); injection Ht as <-;
    (split; [reflexivity|]); exists 0; cbn;
    (split; [reflexivity|]); (split; [lia|]); intros buf [= <-];
    rewrite length_alloc; split_and!; try reflexivity; lia.
Qed.

Lemma eraseW_piped backpressure options :
  eraseW (piped backpressure options) = piped false options.
Proof.
  unfold piped, single. cbn [step].
  unfold createBandwidthThrottle, newThrottle, TypedArray.create.
  cbn [config newGroup]. now destruct (_ || _), backpressure.
Qed.

Lemma eraseW_heap {A} (f : Throttle -> A) w w' :
  (forall t, f (erase t) = f t) ->
  eraseW w = eraseW w' -> f <$> heap w = f <$> heap w'.
Proof.
  intros Hf E. apply (f_equal heap) in E. cbn in E.
  apply (f_equal (fmap f)) in E. rewrite <- !list_fmap_compose in E.
  rewrite (list_fmap_ext (f ∘ erase) f (heap w)) in E by (intros; apply Hf).
  now rewrite (list_fmap_ext (f ∘ erase) f (heap w')) in E by (intros; apply Hf).
Qed.

Lemma finalized_eraseW id w : finalized id (eraseW w) = finalized id w.
Proof.
  unfold finalized. rewrite lookup_eraseW. now destruct (heap w !! id).
Qed.

(** X16: the methods of the two classes agree on whole quotas.  Take a
    configuration with [1 <= bytesPerSecond <= maxBufferSize], a throttle of
    each class to which the host has delivered a first chunk, and one
    sequence of chunk deliveries and direct calls of the methods
    [transform(chunk)], [flush()] and [process(maxBytes)] in which every
    quota is a whole number or unlimited and no chunk is written to a
    throttle whose buffer has been released.  Run on the plain throttle and
    on the backpressure throttle, the sequence leaves the two with the same
    buffer, expanded size, count and read index, the same emitted slices,
    the same finalization, and the same group state; the two states differ
    at most in the class, the write resolver and the completed writes. *)
Theorem classes_agree_on_whole_quotas (options : Config) (events : list Event) :
  1 <= bytesPerSecond options <= maxBufferSize options ->
  wellUsed events (piped false options) = true ->
  let plain := run events (piped false options) in
  let back := run events (piped true options) in
  eraseW back = eraseW plain
  /\ pendingBytesBuffer <$> heap back = pendingBytesBuffer <$> heap plain
  /\ pendingBytesBufferExpandedSize <$> heap back
     = pendingBytesBufferExpandedSize <$> heap plain
  /\ pendingBytesCount <$> heap back = pendingBytesCount <$> heap plain
  /\ pendingBytesReadIndex <$> heap back = pendingBytesReadIndex <$> heap plain
  /\ enqueued <$> heap back = enqueued <$> heap plain
  /\ (forall id, finalized id back = finalized id plain)
  /\ sched back = sched plain
  /\ bandwidthThrottles back = bandwidthThrottles plain.
Proof.
  intros Hcfg Hused plain back.
  assert (E : eraseW back = eraseW plain).
  { subst plain back.
    rewrite (run_erase events (piped true options)),
            (run_erase events (piped false options)).
    - now rewrite !eraseW_piped.
    - rewrite config_piped. lia.
    - apply SoundW_piped. lia.
    - now rewrite eraseW_piped.
    - rewrite config_piped. lia.
    - apply SoundW_piped. lia.
    - now rewrite eraseW_piped. }
  split_and!; try (apply eraseW_heap; [reflexivity | exact E]).
  - exact E.
  - intros id. now rewrite <- (finalized_eraseW id back), E, finalized_eraseW.
  - exact (f_equal sched E).
  - exact (f_equal bandwidthThrottles E).
Qed.

Lemma classes_agree_on_whole_quotas_witness :
  wellUsed wholeQuotas (piped false throttledConfig) = true
  /\ map (length (A:=Byte.byte)) <$>
       (enqueued <$> heap (run wholeQuotas (piped false throttledConfig)))
     = [[7; 213]%nat]
  /\ enqueued <$> heap (run wholeQuotas (piped true throttledConfig))
     = enqueued <$> heap (run wholeQuotas (piped false throttledConfig)).
Proof.
  split; [vm_compute; reflexivity|]. split; [vm_compute; reflexivity|].
  pose proof (classes_agree_on_whole_quotas throttledConfig wholeQuotas) as H.
  cbv zeta in H. destruct H as (_ & _ & _ & _ & _ & H & _).
  - vm_compute. split; discriminate.
  - vm_compute; reflexivity.
  - exact H.
Defined.

(** With a quota that is not whole the methods differ: for the same call
    [transform(20 bytes)] and the same call [process(7.5)], the plain
    throttle emits 7 bytes and keeps a count of 12.5, the backpressure
    throttle rounds the quota, emits 8 bytes and keeps a count of 12. *)
Lemma process_rounds_only_with_backpressure :
  let plain := run fractionalQuota (piped false throttledConfig) in
  let back := run fractionalQuota (piped true throttledConfig) in
  enqueued <$> heap plain = [[bytesFrom 0 7]]
  /\ enqueued <$> heap back = [[bytesFrom 0 8]]
  /\ pendingBytesCount <$> heap plain = [25 # 2]
  /\ pendingBytesCount <$> heap back = [12%Q]
  /\ enqueued <$> heap back <> enqueued <$> heap plain.
Proof. vm_compute. split_and!; try reflexivity. discriminate. Qed.

(** A chunk written after an overflow: the plain throttle, whose buffer is
    gone, keeps its count, while the backpressure throttle allocates a new
    buffer and appends the chunk. *)
Lemma write_after_overflow_differs :
  let plain := run writeAfterOverflow (piped false smallBufferConfig) in
  let back := run writeAfterOverflow (piped true smallBufferConfig) in
  pendingBytesBuffer <$> heap plain = [None]
  /\ pendingBytesCount <$> heap plain = [600%Q]
  /\ option_map (length (A:=Byte.byte)) <$> (pendingBytesBuffer <$> heap back)
     = [Some 700%nat]
  /\ pendingBytesCount <$> heap back = [10%Q].
Proof. vm_compute. split_and!; reflexivity. Qed.

(** The callback a plain throttle hands to the stream never calls
    [transform]: a chunk the host delivers only counts, whereas the
    backpressure throttle records the resolver of the write and schedules
    [transform]. *)
Lemma onChunk_plain_schedules_nothing :
  snd (onChunk 0 (single false throttledConfig)) = false
  /\ snd (onChunk 0 (single true throttledConfig)) = true
  /\ pending <$> heap (fst (onChunk 0 (single false throttledConfig))) = [[]]
  /\ resolver_backpressure <$> heap (fst (onChunk 0 (single true throttledConfig)))
     = [Some 1].
Proof. vm_compute. split_and!; reflexivity. Qed.

(** C9, for one chunk of 20 bytes that the producer writes to the stream of
    a throttle of each class.  The backpressure throttle buffers the chunk,
    enters the in-flight set and starts the clock; the first tick emits 10
    bytes and completes the write, the host signals the end of input, and
    the second tick emits the other 10 bytes and ends the request.  The
    plain throttle, whose callback has the call of [transform] commented
    out and never resolves the promise of the write, only counts the chunk,
    whatever the chunk is: nothing is buffered, the throttle is not in
    flight, the clock is not started, and the write is never completed, so
    that the host hands over no further chunk and no end of input. *)
Theorem stream_write_reaches_only_the_backpressure_throttle :
  let start b := run [Create b; Lock 0 true true] (newGroup throttledConfig) in
  let plain := streamWrite 0 (bytesFrom 0 20) (start false) in
  let back := streamWrite 0 (bytesFrom 0 20) (start true) in
  let served := run [Tick 1020; Flush 0; Tick 1120] back in
  map pending (heap back) = [bytesFrom 0 20]
  /\ inFlightRequests back = [0%nat]
  /\ clockIntervalId back = Some (Interval 20)
  /\ map writesCompleted (heap (step back (Tick 1020))) = [[1]]
  /\ map enqueued (heap served) = [[bytesFrom 0 10; bytesFrom 10 10]]
  /\ map done (heap served) = [true]
  /\ (forall chunk, streamWrite 0 chunk (start false) = step (start false) (Chunk 0))
  /\ map chunkCounter (heap plain) = [1]
  /\ map pending (heap plain) = [[]]
  /\ map pendingBytesCount (heap plain) = [0%Q]
  /\ map enqueued (heap plain) = [[]]
  /\ map writesCompleted (heap plain) = [[]]
  /\ map done (heap plain) = [false]
  /\ inFlightRequests plain = []
  /\ clockIntervalId plain = None.
Proof. split_and!; vm_compute; reflexivity. Qed.

(** * What every operation keeps *)

(** A relation [Rt] between the states of a throttle object and a relation
    [Rw] between the states of the group that hold across the elementary
    updates of the code hold across every method, every tick and every
    run. *)

Lemma modifyThrottle_none id f w :
  heap w !! id = None -> modifyThrottle id f w = w.
Proof.
  intros H. unfold modifyThrottle.
  assert (E : alter f id (heap w) = heap w).
  { apply list_eq. intros j. destruct (decide (id = j)) as [<-|Hne].
    - now rewrite list_lookup_alter_eq, H.
    - now apply list_lookup_alter_ne. }
  rewrite E. now destruct w.
Qed.

Lemma storeThrottle_modify id t w :
  storeThrottle id t w = modifyThrottle id (fun _ => t) w.
Proof. unfold storeThrottle, modifyThrottle. now rewrite list_insert_alter. Qed.

Lemma pop_splice1 (l : list nat) : take (length l - 1) l = JsArray.splice1 (-1) l.
Proof.
  unfold JsArray.splice1. cbn [Z.ltb Z.compare].
  destruct l as [|x l]; [reflexivity|].
  replace (Z.to_nat (Z.max (Z.of_nat (length (x :: l)) + -1) 0))
    with (length (x :: l) - 1)%nat by (cbn [length]; lia).
  rewrite delete_take_drop.
  replace (S (length (x :: l) - 1)) with (length (x :: l)) by (cbn [length]; lia).
  now rewrite drop_all, app_nil_r.
Qed.

Section Passage.

Variable Rt : Throttle -> Throttle -> Prop.
Variable Rw : World -> World -> Prop.

Hypothesis Rt_refl : forall t, Rt t t.
Hypothesis Rt_trans : forall a b c, Rt a b -> Rt b c -> Rt a c.
Hypothesis Rt_buffer : forall b t, Rt t (set_pendingBytesBuffer b t).
Hypothesis Rt_count : forall c t, Rt t (set_pendingBytesCount c t).
Hypothesis Rt_readIndex : forall r t, Rt t (set_pendingBytesReadIndex r t).
Hypothesis Rt_expanded : forall f s t, Rt t (set_expanded f s t).
Hypothesis Rt_writing : forall b t, Rt t (set_isDataBeingWritten b t).
Hypothesis Rt_done : forall t, Rt t (resolve_done t).
Hypothesis Rt_chunk :
  forall t, variant t = Plain ->
    Rt t (set_chunkCounter (chunkCounter t + 1) (set_controller true t)).
Hypothesis Rt_chunk_resolver :
  forall t, variant t = WithBackpressure ->
    Rt t (set_resolver_backpressure (Some (chunkCounter t + 1))
            (set_chunkCounter (chunkCounter t + 1) (set_controller true t))).
Hypothesis Rt_terminate : forall t, Rt t (terminate t).
Hypothesis Rt_locked : forall r w t, Rt t (set_locked r w t).
Hypothesis Rt_push :
  forall chunk t, variant t = Plain -> Rt t (fst (push chunk None t)).
Hypothesis Rt_push_resolver :
  forall chunk t, variant t = WithBackpressure ->
    Rt t (fst (push chunk (resolver_backpressure t)
                 (set_resolver_backpressure None t))).

Hypothesis Rw_refl : forall w, Rw w w.
Hypothesis Rw_trans : forall a b c, Rw a b -> Rw b c -> Rw a c.
Hypothesis Rw_modify :
  forall id f w, (forall t, heap w !! id = Some t -> Rt t (f t)) ->
                 Rw w (modifyThrottle id f w).
Hypothesis Rw_start :
  forall id w, Rw w (set_inFlightRequests (inFlightRequests w ++ [id]) w).
Hypothesis Rw_stop :
  forall k w, Rw w (set_inFlightRequests (JsArray.splice1 k (inFlightRequests w)) w).
Hypothesis Rw_release :
  forall k w,
    Rw w (set_bandwidthThrottles (JsArray.splice1 k (bandwidthThrottles w)) w).
Hypothesis Rw_startClock :
  forall w, clockIntervalId w = None ->
    Rw w (set_clock (Some (startClock w)) (lastTickTime w) (tickIndex w)
            (secondIndex w) w).
Hypothesis Rw_stopClock :
  forall w, inFlightRequests w = [] -> Rw w (stopClock w).
Hypothesis Rw_counters :
  forall last tick second w,
    clockIntervalId w <> None ->
    Rw w (set_clock (clockIntervalId w) last tick second w).
Hypothesis Rw_create : forall b w, Rw w (createBandwidthThrottle b w).
Hypothesis Rw_configure : forall options w, Rw w (configure options w).

(** *** Throttles *)

Lemma Rt_trim_buffer cfg t : Rt t (fst (trim_buffer cfg t)).
Proof.
  unfold trim_buffer. repeat case_match; cbn [fst]; eauto.
Qed.

Lemma Rt_append o chunk t : Rt t (fst (append o chunk t)).
Proof.
  unfold append. repeat case_match; cbn [fst]; eauto.
Qed.

Lemma Rt_grow cfg needed t : Rt t (grow cfg needed t).
Proof. unfold grow. case_match; eauto. Qed.

Lemma Rt_process_take cfg q t r :
  process_take cfg q t = Some r -> Rt t (fst r).
Proof.
  unfold process_take. case_match; [|discriminate]. intros [= <-].
  destruct (pendingBytesBuffer t) as [buf|]; [|apply Rt_refl].
  set (t1 := set_pendingBytesReadIndex _ t).
  assert (H1 : Rt t t1) by apply Rt_readIndex.
  destruct (variant t) eqn:Hv.
  - pose proof (Rt_push
      (TypedArray.subarray buf (pendingBytesReadIndex t) (endReadIndex t q))
      t1 Hv) as Hp.
    destruct (push _ None t1) as [t2 c2]. cbn [fst] in Hp.
    assert (H2 : Rt t t2) by eauto.
    pose proof (Rt_trim_buffer cfg t2) as Htr.
    destruct c2; try exact H2.
    destruct (trim_buffer cfg t2) as [t3 c3]. cbn [fst] in Htr.
    destruct c3; cbn [fst]; eauto.
  - pose proof (Rt_trim_buffer cfg t1) as Htr.
    destruct (trim_buffer cfg t1) as [t2 c2]. cbn [fst] in Htr.
    destruct c2; cbn [fst]; eauto.
Qed.

Lemma Rt_process_push b t : Rt t (fst (process_push b t)).
Proof.
  unfold process_push. destruct (variant t) eqn:Hv; [apply Rt_refl|].
  now apply Rt_push_resolver.
Qed.

Lemma Rt_transform_buffer cfg chunk t :
  match transform_buffer cfg chunk t with
  | Appended t' _ => Rt t t'
  | Overflows => True
  end.
Proof.
  unfold transform_buffer. destruct (Num.ltb _ _).
  - destruct (Num.leb _ _); [|exact I].
    match goal with |- context [trim_buffer cfg ?x] => set (t1 := x) end.
    assert (H1 : Rt t t1) by (subst t1; repeat case_match; auto using Rt_grow).
    pose proof (Rt_trim_buffer cfg t1) as H2.
    destruct (trim_buffer cfg t1) as [t2 c2]. cbn [fst] in H2.
    pose proof (Rt_append false chunk t2) as H3.
    destruct c2; eauto.
    destruct (append false chunk t2) as [t3 c3]. cbn [fst] in H3. eauto.
  - pose proof (Rt_append true chunk t) as H3.
    destruct (append true chunk t) as [t1 c1]. cbn [fst] in H3. exact H3.
Qed.

(** *** The group and the methods *)

Lemma pass_storeThrottle id t' w :
  (forall t, heap w !! id = Some t -> Rt t t') -> Rw w (storeThrottle id t' w).
Proof. intros H. rewrite storeThrottle_modify. now apply Rw_modify. Qed.

Lemma pass_handleRequestStart id w : Rw w (handleRequestStart id w).
Proof.
  unfold handleRequestStart.
  set (w1 := set_inFlightRequests _ w).
  destruct (clockIntervalId w1) eqn:E; [apply Rw_start|].
  eapply Rw_trans; [apply Rw_start|]. now apply Rw_startClock.
Qed.

Lemma pass_handleRequestStop id w : Rw w (handleRequestStop id w).
Proof.
  unfold handleRequestStop.
  set (w1 := modifyThrottle id _ w).
  set (w2 := set_inFlightRequests _ w1).
  assert (H2 : Rw w w2).
  { eapply Rw_trans; [apply Rw_modify; intros; apply Rt_buffer|]. apply Rw_stop. }
  destruct (Nat.eqb_spec (length (inFlightRequests w2)) 0) as [E|E]; [|exact H2].
  eapply Rw_trans; [exact H2|]. apply Rw_stopClock.
  now apply length_zero_iff_nil.
Qed.

Lemma pass_handleRequestDestroy id w : Rw w (handleRequestDestroy id w).
Proof.
  unfold handleRequestDestroy.
  eapply Rw_trans; [apply Rw_modify; intros; apply Rt_buffer|]. apply Rw_release.
Qed.

Lemma pass_destroy id w : Rw w (destroy id w).
Proof.
  unfold destroy. eapply Rw_trans; [apply pass_handleRequestDestroy|].
  apply Rw_modify. intros; apply Rt_terminate.
Qed.

Lemma pass_abort id w : Rw w (abort id w).
Proof.
  unfold abort. eapply Rw_trans; [apply pass_handleRequestStop | apply pass_destroy].
Qed.

Lemma pass_gracefulAbort id w : Rw w (gracefulAbort id w).
Proof.
  unfold gracefulAbort.
  eapply Rw_trans; [apply Rw_modify; intros; apply Rt_done|].
  eapply Rw_trans; [apply pass_handleRequestStop | apply pass_destroy].
Qed.

Lemma pass_process_finish id w : Rw w (process_finish id w).
Proof.
  unfold process_finish. destruct (heap w !! id); [|apply Rw_refl].
  destruct (_ || _ || _); [apply Rw_refl|]. apply pass_gracefulAbort.
Qed.

Lemma pass_process_begin id q w : Rw w (fst (process_begin id q w)).
Proof.
  unfold process_begin. destruct (heap w !! id) as [t|] eqn:Ht; [|apply Rw_refl].
  destruct (process_take (config w) q t) as [[t' c]|] eqn:E; cbn [fst].
  - apply pass_storeThrottle. intros t0 Ht0. rewrite Ht in Ht0.
    injection Ht0 as <-. exact (Rt_process_take _ _ _ _ E).
  - apply pass_process_finish.
Qed.

Lemma pass_process_resume id b w : Rw w (fst (process_resume id b w)).
Proof.
  unfold process_resume. destruct (heap w !! id) as [t|] eqn:Ht; [|apply Rw_refl].
  pose proof (Rt_process_push b t) as Hp.
  destruct (process_push b t) as [t1 c1]. cbn [fst] in Hp.
  assert (Hs : Rw w (storeThrottle id t1 w)).
  { apply pass_storeThrottle. intros t0 Ht0. rewrite Ht in Ht0.
    now injection Ht0 as <-. }
  destruct c1; cbn [fst]; try exact Hs.
  eapply Rw_trans; [exact Hs | apply pass_process_finish].
Qed.

Lemma pass_process id q w : Rw w (fst (process id q w)).
Proof.
  unfold process. pose proof (pass_process_begin id q w) as Hb.
  destruct (process_begin id q w) as [w1 [| |b]]; cbn [fst] in *; try exact Hb.
  eapply Rw_trans; [exact Hb | apply pass_process_resume].
Qed.

Lemma pass_transform id chunk w : Rw w (fst (transform id chunk w)).
Proof.
  unfold transform. destruct (heap w !! id) as [t0|] eqn:Ht0; [|apply Rw_refl].
  set (w1 := if isDataBeingWritten t0 then w else _).
  assert (H1 : Rw w w1).
  { subst w1. destruct (isDataBeingWritten t0); [apply Rw_refl|].
    eapply Rw_trans; [apply pass_handleRequestStart|].
    apply Rw_modify. intros; apply Rt_writing. }
  assert (Hc : config w1 = config w)
    by (subst w1; unfold handleRequestStart; simpl;
        now destruct (isDataBeingWritten t0), (clockIntervalId w)).
  assert (Hat : exists t1, heap w1 !! id = Some t1
                           /\ Rt t1 (set_isDataBeingWritten true t0)).
  { subst w1. destruct (isDataBeingWritten t0) eqn:Hw.
    - exists t0. split; [exact Ht0 | apply Rt_writing].
    - eexists. split; [|apply Rt_refl].
      apply lookup_modifyThrottle.
      unfold handleRequestStart. simpl. now destruct (clockIntervalId w). }
  destruct Hat as (t1 & Ht1 & Hr1).
  pose proof (Rt_transform_buffer (config w1) chunk (set_isDataBeingWritten true t0))
    as Hb.
  destruct (transform_buffer (config w1) chunk (set_isDataBeingWritten true t0))
    as [t c|].
  - assert (Hs : Rw w (storeThrottle id t w1)).
    { eapply Rw_trans; [exact H1|]. apply pass_storeThrottle.
      intros t2 Ht2. rewrite Ht1 in Ht2. injection Ht2 as <-. eauto. }
    destruct c; cbn [fst]; try exact Hs.
    destruct (isThrottled _); cbn [fst]; [exact Hs|].
    eapply Rw_trans; [exact Hs | apply pass_process].
  - cbn [fst]. eapply Rw_trans; [exact H1 | apply pass_handleRequestDestroy].
Qed.

Lemma pass_flush id w : Rw w (fst (flush id w)).
Proof.
  unfold flush. destruct (heap w !! id) as [t|]; [|apply Rw_refl].
  assert (H1 : Rw w (modifyThrottle id (set_isDataBeingWritten false) w))
    by (apply Rw_modify; intros; apply Rt_writing).
  destruct (Num.eqb _ _); cbn [fst]; [exact H1|].
  destruct (negb _); cbn [fst]; [|exact H1].
  eapply Rw_trans; [exact H1 | apply pass_abort].
Qed.

Lemma pass_onChunk id w : Rw w (fst (onChunk id w)).
Proof.
  unfold onChunk. destruct (heap w !! id) as [t|] eqn:Ht; [|apply Rw_refl].
  destruct (variant t) eqn:Hv; cbn [fst]; apply Rw_modify;
    intros t0 Ht0; rewrite Ht in Ht0; injection Ht0 as <-.
  - now apply Rt_chunk.
  - now apply Rt_chunk_resolver.
Qed.

Lemma pass_tickRequest period m id i w :
  Rw w (fst (tickRequest period m id i w)).
Proof.
  unfold tickRequest. destruct (heap w !! id); [|apply Rw_refl].
  destruct (_ || _); cbn [fst]; [apply pass_gracefulAbort | apply pass_process_begin].
Qed.

Lemma pass_forEachInFlight period m n :
  forall i w s, Rw w (fst (forEachInFlight period m n i w s)).
Proof.
  induction n as [|n IH]; intros i w s; cbn [forEachInFlight]; [apply Rw_refl|].
  destruct (inFlightRequests w !! i) as [id|]; [|apply IH].
  pose proof (pass_tickRequest period m id i w) as Ht.
  destruct (tickRequest period m id i w) as [w1 [| |b]]; cbn [fst] in Ht;
    (eapply Rw_trans; [exact Ht | apply IH]).
Qed.

Lemma pass_resumeAll s : forall w, Rw w (resumeAll s w).
Proof.
  unfold resumeAll. induction s as [|[id b] s IH]; intros w; cbn [foldl];
    [apply Rw_refl|].
  eapply Rw_trans; [apply pass_process_resume | apply IH].
Qed.

Lemma pass_processInFlightRequests now w : Rw w (processInFlightRequests now w).
Proof.
  unfold processInFlightRequests. case_match; [apply Rw_refl|].
  match goal with
  | |- context [forEachInFlight ?p ?m ?n ?i ?w ?s] =>
      pose proof (pass_forEachInFlight p m n i w s) as Hf;
      destruct (forEachInFlight p m n i w s) as [w1 susp]
  end.
  cbn [fst] in Hf. eapply Rw_trans; [|apply pass_resumeAll].
  eapply Rw_trans; [exact Hf|].
  unfold isTicking. destruct (clockIntervalId w1) as [tm|] eqn:Hc; [|apply Rw_refl].
  assert (Hn : clockIntervalId w1 <> None) by congruence.
  rewrite <- Hc.
  destruct (tickIndex w1 + 1 =? ticksPerSecond (config w1)); now apply Rw_counters.
Qed.

Lemma pass_destroyAll n : forall w, Rw w (destroyAll n w).
Proof.
  induction n as [|n IH]; intros w; cbn [destroyAll]; [apply Rw_refl|].
  destruct (last (bandwidthThrottles w)); [|apply Rw_refl].
  eapply Rw_trans; [|apply IH].
  eapply Rw_trans; [|apply pass_destroy].
  rewrite pop_splice1. apply Rw_release.
Qed.

(** Every event, and so every run. *)
Lemma pass_step e w : Rw w (step w e).
Proof.
  destruct e; cbn [step].
  - apply Rw_create.
  - apply Rw_configure.
  - apply Rw_modify. intros; apply Rt_locked.
  - apply pass_onChunk.
  - apply pass_transform.
  - apply pass_flush.
  - apply pass_process.
  - apply pass_abort.
  - apply pass_gracefulAbort.
  - apply pass_destroy.
  - apply pass_processInFlightRequests.
  - apply pass_destroyAll.
Qed.

Lemma pass_run events : forall w, Rw w (run events w).
Proof.
  unfold run. induction events as [|e events IH]; intros w; cbn [foldl];
    [apply Rw_refl|].
  eapply Rw_trans; [apply pass_step | apply IH].
Qed.

End Passage.

(** ** The history of a throttle *)

Lemma Kept_refl t : Kept t t.
Proof. unfold Kept. split_and!; auto; lia. Qed.

Lemma Kept_trans a b c : Kept a b -> Kept b c -> Kept a c.
Proof.
  unfold Kept. intros (E1 & W1 & D1 & T1 & C1 & V1 & N1)
                      (E2 & W2 & D2 & T2 & C2 & V2 & N2).
  split_and!; auto; try congruence; try lia; etrans; eassumption.
Qed.

Lemma Kept_push chunk r t : Kept t (fst (push chunk r t)).
Proof.
  unfold push. destruct (_ || _); cbn [fst]; [apply Kept_refl|].
  unfold Kept. cbn. split_and!; auto; try lia.
  - now apply prefix_app_r.
  - destruct r; [now apply prefix_app_r | reflexivity].
Qed.

Lemma KeptW_same w w' : heap w' = heap w -> KeptW w w'.
Proof. intros E id t Ht. exists t. rewrite E. split; [exact Ht | apply Kept_refl]. Qed.

Lemma KeptW_trans a b c : KeptW a b -> KeptW b c -> KeptW a c.
Proof.
  intros H1 H2 id t Ht. destruct (H1 id t Ht) as (t1 & Ht1 & K1).
  destruct (H2 id t1 Ht1) as (t2 & Ht2 & K2).
  exists t2. split; [exact Ht2 | exact (Kept_trans _ _ _ K1 K2)].
Qed.

Lemma KeptW_modify id f w :
  (forall t, heap w !! id = Some t -> Kept t (f t)) -> KeptW w (modifyThrottle id f w).
Proof.
  intros Hf j t Ht. simpl. destruct (decide (j = id)) as [->|Hne].
  - exists (f t). rewrite list_lookup_alter_eq, Ht. split; [reflexivity | auto].
  - exists t. rewrite list_lookup_alter_ne by congruence.
    split; [exact Ht | apply Kept_refl].
Qed.

Lemma KeptW_create b w : KeptW w (createBandwidthThrottle b w).
Proof.
  intros id t Ht. exists t. split; [|apply Kept_refl].
  destruct (createBandwidthThrottle_cases b w) as [->|(t0 & _ & ->)]; [exact Ht|].
  simpl. now apply lookup_app_l_Some.
Qed.

Lemma KeptW_run events w : KeptW w (run events w).
Proof.
  apply (pass_run Kept KeptW); try (intros; apply KeptW_same; reflexivity);
    try (intros; unfold Kept; cbn; split_and!; auto; lia).
  - apply Kept_trans.
  - intros t. unfold Kept, terminate. cbn. split_and!; auto; try lia.
    now destruct (controller t).
  - intros. apply Kept_push.
  - intros chunk t _. eapply Kept_trans; [|apply Kept_push].
    unfold Kept. cbn. split_and!; auto; lia.
  - apply KeptW_trans.
  - apply KeptW_modify.
  - apply KeptW_create.
Qed.

(** X1: whatever happens to a group, a throttle keeps what it has handed
    downstream: the chunks it has enqueued stay, in order, and so do the
    writes it has completed; [done] once resolved stays resolved, a
    controller once handed over or terminated stays so, and the class of
    the throttle never changes. *)
Theorem history_is_kept (events : list Event) (w : World) (id : nat)
    (t : Throttle) :
  heap w !! id = Some t ->
  exists t',
    heap (run events w) !! id = Some t'
    /\ enqueued t `prefix_of` enqueued t'
    /\ emitted t `prefix_of` emitted t'
    /\ writesCompleted t `prefix_of` writesCompleted t'
    /\ (done t = true -> done t' = true)
    /\ (terminated t = true -> terminated t' = true)
    /\ (controller t = true -> controller t' = true)
    /\ variant t' = variant t.
Proof.
  intros Ht. destruct (KeptW_run events w id t Ht) as (t' & Ht' & K).
  destruct K as (E & W & D & T & C & V & _).
  exists t'. split_and!; try assumption.
  destruct E as [k Ek]. exists (concat k). unfold emitted.
  now rewrite Ek, concat_app.
Qed.

Lemma history_is_kept_witness :
  heap twoClasses !! 0%nat = Some (freshThrottle Plain)
  /\ exists t',
       heap (run servedRequest twoClasses) !! 0%nat = Some t'
       /\ enqueued (freshThrottle Plain) `prefix_of` enqueued t'
       /\ emitted (freshThrottle Plain) `prefix_of` emitted t'
       /\ writesCompleted (freshThrottle Plain)
            `prefix_of` writesCompleted t'
       /\ (done (freshThrottle Plain) = true -> done t' = true)
       /\ (terminated (freshThrottle Plain) = true ->
           terminated t' = true)
       /\ (controller (freshThrottle Plain) = true ->
           controller t' = true)
       /\ variant t' = variant (freshThrottle Plain).
Proof.
  split; [reflexivity|].
  apply (history_is_kept servedRequest twoClasses 0). reflexivity.
Defined.

(** ** Writes through a plain throttle *)

Lemma Unanswered_run options events :
  Forall Unanswered (heap (run events (newGroup options))).
Proof.
  cut (Forall Unanswered (heap (newGroup options)) ->
       Forall Unanswered (heap (run events (newGroup options))));
    [intros H; apply H; constructor|].
  apply (pass_run (fun t t' => Unanswered t -> Unanswered t')
                  (fun w w' => Forall Unanswered (heap w) ->
                               Forall Unanswered (heap w')));
    try (intros; assumption); try (intros ? ? H; exact H);
    try (intros ? ? ? H; exact H); try (intros ? ? ? ? H; exact H).
  - auto.
  - intros t Hv _ Hp. cbn in Hp. congruence.
  - intros chunk t _ H Hp. unfold push in *.
    destruct (_ || _); cbn [fst] in *; [now apply H|].
    cbn in Hp. apply H, Hp.
  - intros chunk t Hv _ Hp. unfold push in Hp.
    destruct (_ || _); cbn in Hp; congruence.
  - auto.
  - intros id f w Hf H. simpl. apply Forall_alter; [exact H|].
    intros t Ht. now apply Hf.
  - intros b w H.
    destruct (createBandwidthThrottle_cases b w) as [->|(t & Ht & ->)]; [exact H|].
    apply newThrottle_Some in Ht as [-> _].
    simpl. apply Forall_app. split; [exact H|].
    constructor; [|constructor]. intros _. now split.
Qed.

(** X2: a plain throttle never completes a write of its producer.  In
    every state a group can reach, a plain throttle has completed no write
    and holds no resolver of one: the promise its stream callback returns
    is settled by nobody. *)
Theorem plain_never_completes_a_write (options : Config) (events : list Event)
    (id : nat) (t : Throttle) :
  heap (run events (newGroup options)) !! id = Some t ->
  variant t = Plain ->
  writesCompleted t = [] /\ resolver_backpressure t = None.
Proof.
  intros Ht Hv.
  pose proof (Unanswered_run options events) as H.
  rewrite Forall_lookup in H. exact (H id t Ht Hv).
Qed.

Lemma plain_never_completes_a_write_witness :
  exists t,
    heap (run (Create false :: servedRequest) (newGroup throttledConfig)) !! 0%nat
    = Some t
    /\ variant t = Plain /\ emitted t = bytesFrom 0 50 /\ chunkCounter t = 1
    /\ writesCompleted t = [] /\ resolver_backpressure t = None.
Proof.
  eexists. split; [vm_compute; reflexivity|].
  split; [reflexivity|]. split; [reflexivity|]. split; [reflexivity|].
  apply (plain_never_completes_a_write throttledConfig
           (Create false :: servedRequest) 0);
    [vm_compute; reflexivity | reflexivity].
Defined.

(** ** The registry *)

Lemma indexOf_notin id l : id ∉ l -> JsArray.indexOf id l = -1.
Proof.
  induction l as [|y l IH]; intros Hn; [reflexivity|].
  cbn [JsArray.indexOf]. apply not_elem_of_cons in Hn as [Hne Hn].
  destruct (Nat.eqb_spec id y); [contradiction|].
  rewrite (IH Hn). reflexivity.
Qed.

Lemma indexOf_app_l id l k :
  id ∈ l -> JsArray.indexOf id (l ++ k) = JsArray.indexOf id l.
Proof.
  induction l as [|y l IH]; intros Hin; [inversion Hin|].
  cbn [JsArray.indexOf app]. destruct (Nat.eqb_spec id y); [reflexivity|].
  apply elem_of_cons in Hin as [?|Hin]; [contradiction|].
  now rewrite (IH Hin).
Qed.

Lemma indexOf_snoc id l :
  id ∉ l -> JsArray.indexOf id (l ++ [id]) = Z.of_nat (length l).
Proof.
  induction l as [|y l IH]; intros Hn.
  - cbn. now rewrite Nat.eqb_refl.
  - cbn [JsArray.indexOf app length]. apply not_elem_of_cons in Hn as [Hne Hn].
    destruct (Nat.eqb_spec id y); [contradiction|].
    rewrite (IH Hn). destruct (Z.ltb_spec (Z.of_nat (length l)) 0); lia.
Qed.

Lemma registered_run options events : registered (run events (newGroup options)).
Proof.
  cut (registered (newGroup options) -> registered (run events (newGroup options))).
  { intros H. apply H. split; constructor. }
  apply (pass_run (fun _ _ => True) (fun w w' => registered w -> registered w'));
    try (intros; exact I); try (intros; assumption); try (intros ? ? H; exact H);
    try (intros ? ? ? H; exact H); try (intros ? ? ? ? H; exact H).
  - auto.
  - intros id f w _ [Hnd Hall]. split; [exact Hnd|]. simpl.
    now rewrite length_alter.
  - intros k w [Hnd Hall]. split; simpl.
    + eapply sublist_NoDup; [exact Hnd | apply splice1_sublist].
    + rewrite Forall_forall in *. intros x Hx. apply Hall.
      eapply elem_of_sublist; [exact Hx | apply splice1_sublist].
  - intros b w [Hnd Hall].
    destruct (createBandwidthThrottle_cases b w) as [->|(t & _ & ->)];
      [now split|].
    rewrite Forall_forall in Hall. split; simpl.
    + apply NoDup_app. split_and!; [exact Hnd | | apply NoDup_singleton].
      intros x Hx Hin. apply list_elem_of_singleton in Hin.
      specialize (Hall x Hx). lia.
    + rewrite length_app. cbn [length]. apply Forall_app. split.
      * apply Forall_forall. intros x Hx. specialize (Hall x Hx). lia.
      * constructor; [lia | constructor].
Qed.

(** X3: in every state a group can reach, the registry lists a throttle at
    most once.  When the constructor of the throttle returns,
    [createBandwidthThrottle] adds that throttle to the group and registers
    it at the end, so [getThisThrottleIndex] of the new throttle is the
    former number of registered throttles; when the constructor throws, as
    it does for a [bytesPerSecond] that is negative or beyond the lengths
    [new Uint8Array] admits, nothing is registered and the group is as
    before.  Either way the index of every registered throttle is as
    before.  [getThisThrottleIndex] is [-1] for a throttle that is not
    registered, and for any throttle once it is destroyed. *)
Theorem registry_indexes (options : Config) (events : list Event)
    (backpressure : bool) :
  let w := run events (newGroup options) in
  let id := length (heap w) in
  let w' := createBandwidthThrottle backpressure w in
  let constructed :=
    newThrottle (if backpressure then WithBackpressure else Plain) (config w) in
  NoDup (bandwidthThrottles w)
  /\ (forall t, constructed = Some t ->
        bandwidthThrottles w' = bandwidthThrottles w ++ [id]
        /\ heap w' = heap w ++ [t]
        /\ getThisThrottleIndex id w' = Z.of_nat (length (bandwidthThrottles w)))
  /\ (constructed = None -> w' = w)
  /\ (bytesPerSecond (config w) < 0
      \/ TypedArray.maxLength < bytesPerSecond (config w) ->
      constructed = None)
  /\ getThisThrottleIndex id w = -1
  /\ (forall j, j ∈ bandwidthThrottles w ->
        getThisThrottleIndex j w' = getThisThrottleIndex j w
        /\ bandwidthThrottles w !! Z.to_nat (getThisThrottleIndex j w) = Some j)
  /\ (forall j, j ∉ bandwidthThrottles w -> getThisThrottleIndex j w = -1)
  /\ (forall j, getThisThrottleIndex j (destroy j w) = -1).
Proof.
  intros w id w' constructed. destruct (registered_run options events) as [Hnd Hall].
  fold w in Hnd, Hall. rewrite Forall_forall in Hall.
  assert (Hfresh : id ∉ bandwidthThrottles w).
  { intros Hin. specialize (Hall id Hin). subst id. lia. }
  assert (Hw' : w' = match constructed with
                     | None => w
                     | Some t =>
                         set_bandwidthThrottles (bandwidthThrottles w ++ [id])
                           (set_heap (heap w ++ [t]) w)
                     end) by reflexivity.
  unfold getThisThrottleIndex. split_and!.
  - exact Hnd.
  - intros t Ht. rewrite Hw', Ht. simpl. split_and!; try reflexivity.
    now apply indexOf_snoc.
  - intros Hnone. now rewrite Hw', Hnone.
  - intros Hsize. subst constructed. unfold newThrottle, TypedArray.create.
    rewrite Z.mul_1_r.
    destruct (Z.ltb_spec (bytesPerSecond (config w)) 0);
      destruct (Z.ltb_spec TypedArray.maxLength (bytesPerSecond (config w)));
      cbn [orb]; try reflexivity; lia.
  - now apply indexOf_notin.
  - intros j Hj. split.
    + rewrite Hw'. destruct constructed; [|reflexivity].
      simpl. now apply indexOf_app_l.
    + now apply indexOf_found.
  - intros j Hj. now apply indexOf_notin.
  - intros j. apply indexOf_notin.
    change (bandwidthThrottles (destroy j w))
      with (JsArray.splice1 (JsArray.indexOf j (bandwidthThrottles w))
              (bandwidthThrottles w)).
    now apply splice1_indexOf_notin.
Qed.

(** ** Destroying the group *)

Lemma destroyAll_spec (n : nat) :
  forall (r : list nat) (w : World) (rounds : nat),
    (length r <= n)%nat -> (length r <= rounds)%nat ->
    bandwidthThrottles w = reverse r -> NoDup r ->
    bandwidthThrottles (destroyAll rounds w) = []
    /\ sched (destroyAll rounds w) = sched w
    /\ config (destroyAll rounds w) = config w
    /\ forall id,
         heap (destroyAll rounds w) !! id
         = if (0 <=? JsArray.indexOf id r) && Z.even (JsArray.indexOf id r)
           then (fun t => terminate (set_pendingBytesBuffer None t)) <$> heap w !! id
           else heap w !! id.
Proof.
  induction n as [|n IH]; intros r w rounds Hn Hr Hreg Hnd.
  - destruct r; [|simpl in Hn; lia]. cbn in Hreg.
    assert (E : destroyAll rounds w = w)
      by (destruct rounds; cbn [destroyAll]; [|rewrite Hreg]; reflexivity).
    rewrite E. now split_and!.
  - destruct r as [|a r].
    { cbn in Hreg.
      assert (E : destroyAll rounds w = w)
        by (destruct rounds; cbn [destroyAll]; [|rewrite Hreg]; reflexivity).
      rewrite E. now split_and!. }
    destruct rounds as [|rounds]; [simpl in Hr; lia|].
    apply NoDup_cons in Hnd as [Ha Hnd].
    rewrite reverse_cons in Hreg.
    cbn [destroyAll]. rewrite Hreg, last_snoc.
    rewrite length_app. cbn [length].
    replace (length (reverse r) + 1 - 1)%nat with (length (reverse r)) by lia.
    rewrite take_app_length.
    set (w0 := set_bandwidthThrottles (reverse r) w).
    assert (Hnot : a ∉ reverse r) by (now rewrite elem_of_reverse).
    assert (Hreg1 : bandwidthThrottles (destroy a w0)
                    = take (length (reverse r) - 1) (reverse r)).
    { change (bandwidthThrottles (destroy a w0))
        with (JsArray.splice1 (JsArray.indexOf a (reverse r)) (reverse r)).
      now rewrite (indexOf_notin a _ Hnot), pop_splice1. }
    assert (Hheap1 : forall id,
              heap (destroy a w0) !! id
              = if decide (id = a)
                then (fun t => terminate (set_pendingBytesBuffer None t))
                       <$> heap w !! id
                else heap w !! id).
    { intros id. rewrite heap_destroy. subst w0. cbn [heap set_bandwidthThrottles].
      destruct (decide (id = a)) as [->|Hne].
      - rewrite !list_lookup_alter_eq. now destruct (heap w !! a).
      - now rewrite !list_lookup_alter_ne by congruence. }
    destruct r as [|b r].
    + (* the last throttle of the registry *)
      cbn in Hreg1.
      destruct (IH [] (destroy a w0) rounds) as (E1 & E2 & E3 & E4);
        [simpl; lia | simpl; lia | exact Hreg1 | constructor |].
      split_and!; [exact E1 | now rewrite E2 | now rewrite E3 |].
      intros id. rewrite E4. cbn [JsArray.indexOf]. rewrite Hheap1.
      destruct (Nat.eqb_spec id a) as [->|Hne].
      * now rewrite decide_True by reflexivity.
      * now rewrite decide_False by exact Hne.
    + (* two throttles: the last is destroyed, the one before is dropped *)
      apply NoDup_cons in Hnd as [Hb Hnd].
      rewrite reverse_cons in Hreg1.
      rewrite length_app in Hreg1. cbn [length] in Hreg1.
      replace (length (reverse r) + 1 - 1)%nat with (length (reverse r))
        in Hreg1 by lia.
      rewrite take_app_length in Hreg1.
      cbn [length] in Hn, Hr.
      destruct (IH r (destroy a w0) rounds) as (E1 & E2 & E3 & E4);
        [lia | lia | exact Hreg1 | exact Hnd |].
      split_and!; [exact E1 | now rewrite E2 | now rewrite E3 |].
      intros id. rewrite E4, Hheap1. cbn [JsArray.indexOf].
      apply not_elem_of_cons in Ha as [Hab Har].
      destruct (Nat.eqb_spec id a) as [->|Hne].
      * rewrite (indexOf_notin a r Har). cbn.
        now rewrite decide_True by reflexivity.
      * rewrite decide_False by exact Hne.
        destruct (Nat.eqb_spec id b) as [->|Hneb].
        -- rewrite (indexOf_notin b r Hb). reflexivity.
        -- pose proof (indexOf_bounds id r) as Hk.
           set (k := JsArray.indexOf id r) in *.
           destruct (Z.ltb_spec k 0) as [Hlt|Hge].
           ++ assert (k = -1) by lia. subst k. rewrite H. reflexivity.
           ++ destruct (Z.ltb_spec (k + 1) 0); [lia|].
              replace (0 <=? k + 1 + 1) with true by (symmetry; apply Z.leb_le; lia).
              replace (0 <=? k) with true by (symmetry; apply Z.leb_le; lia).
              replace (k + 1 + 1) with (Z.succ (Z.succ k)) by lia.
              now rewrite Z.even_succ_succ.
Qed.

(** X4: [BandwidthThrottleGroup.destroy()] empties the registry but destroys
    only every other throttle.  It pops the last throttle and destroys it;
    that throttle's [handleRequestDestroy] no longer finds it in the
    registry, and [splice(-1, 1)] drops the throttle before it, which is
    never destroyed.  So the throttles at an even distance from the end of
    the registry have their buffer released and their controller
    terminated, and all others are left as they are.  The in-flight list
    and the clock are not touched. *)
Theorem group_destroy_spares_every_other (w : World) :
  NoDup (bandwidthThrottles w) ->
  bandwidthThrottles (destroyGroup w) = []
  /\ sched (destroyGroup w) = sched w
  /\ config (destroyGroup w) = config w
  /\ forall id,
       heap (destroyGroup w) !! id
       = if destroyedByGroup (bandwidthThrottles w) id
         then (fun t => terminate (set_pendingBytesBuffer None t)) <$> heap w !! id
         else heap w !! id.
Proof.
  intros Hnd. unfold destroyGroup, destroyedByGroup.
  apply (destroyAll_spec (length (bandwidthThrottles w))
           (reverse (bandwidthThrottles w)) w (length (bandwidthThrottles w))).
  - now rewrite length_reverse.
  - now rewrite length_reverse.
  - now rewrite reverse_involutive.
  - now rewrite reverse_Permutation.
Qed.

Lemma group_destroy_spares_every_other_witness :
  NoDup (bandwidthThrottles fourThrottles)
  /\ map (destroyedByGroup (bandwidthThrottles fourThrottles)) [0; 1; 2; 3]%nat
     = [false; true; false; true]
  /\ map terminated (heap (destroyGroup fourThrottles)) = [false; true; false; true]
  /\ bandwidthThrottles (destroyGroup fourThrottles) = [].
Proof.
  assert (H : NoDup (bandwidthThrottles fourThrottles))
    by (apply (bool_decide_unpack _); vm_compute; reflexivity).
  split; [exact H|]. split; [vm_compute; reflexivity|].
  split; [vm_compute; reflexivity|].
  exact (proj1 (group_destroy_spares_every_other fourThrottles H)).
Defined.

(** ** Aborting a request *)

Lemma indexOf_middle id l1 l2 :
  id ∉ l1 -> JsArray.indexOf id (l1 ++ id :: l2) = Z.of_nat (length l1).
Proof.
  induction l1 as [|y l1 IH]; intros Hn.
  - cbn. now rewrite Nat.eqb_refl.
  - cbn [JsArray.indexOf app length]. apply not_elem_of_cons in Hn as [Hne Hn].
    destruct (Nat.eqb_spec id y); [contradiction|].
    rewrite (IH Hn). destruct (Z.ltb_spec (Z.of_nat (length l1)) 0); lia.
Qed.

Lemma splice1_middle id l1 l2 :
  id ∉ l1 ->
  JsArray.splice1 (JsArray.indexOf id (l1 ++ id :: l2)) (l1 ++ id :: l2) = l1 ++ l2.
Proof.
  intros Hn. rewrite (indexOf_middle id l1 l2 Hn). unfold JsArray.splice1.
  destruct (Z.ltb_spec (Z.of_nat (length l1)) 0); [lia|].
  rewrite length_app. cbn [length].
  replace (Z.to_nat (Z.min (Z.of_nat (length l1))
                       (Z.of_nat (length l1 + S (length l2)))))
    with (length l1) by lia.
  apply delete_middle.
Qed.

Lemma splice1_missing id l :
  id ∉ l -> JsArray.splice1 (JsArray.indexOf id l) l = take (length l - 1) l.
Proof. intros Hn. now rewrite (indexOf_notin id l Hn), pop_splice1. Qed.

Lemma clock_handleRequestStop id w :
  (inFlightRequests (handleRequestStop id w) = [] ->
     clockReset (handleRequestStop id w))
  /\ (inFlightRequests (handleRequestStop id w) <> [] ->
        (clockIntervalId (handleRequestStop id w),
         lastTickTime (handleRequestStop id w),
         tickIndex (handleRequestStop id w),
         secondIndex (handleRequestStop id w))
        = (clockIntervalId w, lastTickTime w, tickIndex w, secondIndex w)).
Proof.
  unfold handleRequestStop.
  set (w2 := set_inFlightRequests _ _).
  destruct (Nat.eqb_spec (length (inFlightRequests w2)) 0) as [E|E].
  - split; [intros _; now split_and!|].
    intros H. exfalso. apply H. simpl. now apply length_zero_iff_nil.
  - split; [|reflexivity]. intros H. rewrite H in E. now simpl in E.
Qed.

(** X5: [abort()] of a request that is in flight.  The throttle leaves the
    in-flight list and the registry, the others keep their order; its
    buffer is released, so nothing is pending any more, and its controller,
    if it has one, is terminated; what it has emitted stays.  [done] is not
    resolved: a [flush] that waits for it waits for ever.  No other
    throttle is touched.  The clock is stopped and reset when no request is
    left in flight, and untouched otherwise.  [gracefulAbort()] does the
    same and resolves [done]. *)
Theorem abort_ends_the_request (id : nat) (w : World) (t : Throttle)
    (l1 l2 r1 r2 : list nat) :
  heap w !! id = Some t ->
  inFlightRequests w = l1 ++ id :: l2 -> id ∉ l1 ->
  bandwidthThrottles w = r1 ++ id :: r2 -> id ∉ r1 ->
  let w' := abort id w in
  inFlightRequests w' = l1 ++ l2
  /\ bandwidthThrottles w' = r1 ++ r2
  /\ (exists t', heap w' !! id = Some t'
        /\ pendingBytesBuffer t' = None /\ pending t' = []
        /\ terminated t' = (if controller t then true else terminated t)
        /\ done t' = done t /\ emitted t' = emitted t)
  /\ (forall j, j <> id -> heap w' !! j = heap w !! j)
  /\ (l1 ++ l2 = [] -> clockReset w')
  /\ (l1 ++ l2 <> [] ->
        (clockIntervalId w', lastTickTime w', tickIndex w', secondIndex w')
        = (clockIntervalId w, lastTickTime w, tickIndex w, secondIndex w))
  /\ gracefulAbort id w = modifyThrottle id resolve_done w'.
Proof.
  intros Ht Hfl Hl1 Hreg Hr1 w'. subst w'. unfold abort.
  assert (E1 : inFlightRequests (destroy id (handleRequestStop id w)) = l1 ++ l2).
  { change (inFlightRequests (destroy id (handleRequestStop id w)))
      with (inFlightRequests (handleRequestStop id w)).
    rewrite inFlight_handleRequestStop, Hfl. now apply splice1_middle. }
  assert (Hregs : bandwidthThrottles (handleRequestStop id w) = bandwidthThrottles w)
    by (unfold handleRequestStop; now destruct (_ =? _)%nat).
  destruct (clock_handleRequestStop id w) as [Hc0 Hc1].
  change (inFlightRequests (handleRequestStop id w))
    with (inFlightRequests (destroy id (handleRequestStop id w))) in Hc0, Hc1.
  rewrite E1 in Hc0, Hc1.
  split_and!.
  - exact E1.
  - change (bandwidthThrottles (destroy id (handleRequestStop id w)))
      with (JsArray.splice1
              (JsArray.indexOf id (bandwidthThrottles (handleRequestStop id w)))
              (bandwidthThrottles (handleRequestStop id w))).
    rewrite Hregs, Hreg. now apply splice1_middle.
  - eexists. split; [apply (lookup_end_of_request id w t Ht)|].
    unfold pending, emitted. cbn. now split_and!.
  - intros j Hne. rewrite heap_destroy, heap_handleRequestStop.
    now rewrite !list_lookup_alter_ne by congruence.
  - exact Hc0.
  - exact Hc1.
  - unfold gracefulAbort.
    destruct w as [c h fl bt ck lt ti si].
    unfold destroy, handleRequestDestroy, handleRequestStop, modifyThrottle,
      set_heap, set_inFlightRequests, set_bandwidthThrottles, stopClock, set_clock.
    cbn [heap config inFlightRequests bandwidthThrottles clockIntervalId
         lastTickTime tickIndex secondIndex].
    destruct (_ =? _)%nat;
      cbn [heap config inFlightRequests bandwidthThrottles clockIntervalId
           lastTickTime tickIndex secondIndex];
      f_equal; rewrite !list_alter_alter_eq; now apply list_alter_ext.
Qed.

Lemma abort_ends_the_request_witness :
  heap threeInFlight !! 1%nat <> None
  /\ inFlightRequests threeInFlight = [0%nat] ++ 1%nat :: [2%nat]
  /\ bandwidthThrottles threeInFlight = [0%nat] ++ 1%nat :: [2; 3]%nat
  /\ inFlightRequests (abort 1 threeInFlight) = [0%nat] ++ [2%nat]
  /\ bandwidthThrottles (abort 1 threeInFlight) = [0%nat] ++ [2; 3]%nat.
Proof.
  split; [vm_compute; discriminate|]. split; [vm_compute; reflexivity|].
  split; [vm_compute; reflexivity|].
  destruct (heap threeInFlight !! 1%nat) as [t|] eqn:Ht;
    [|vm_compute in Ht; discriminate].
  pose proof (abort_ends_the_request 1 threeInFlight t [0%nat] [2%nat]
                [0%nat] [2; 3]%nat Ht) as H.
  cbv zeta in H. destruct H as (H1 & H2 & _).
  - vm_compute; reflexivity.
  - apply (bool_decide_unpack _); vm_compute; reflexivity.
  - vm_compute; reflexivity.
  - apply (bool_decide_unpack _); vm_compute; reflexivity.
  - split; assumption.
Defined.

(** X6: stopping or destroying a throttle the group does not list.
    [handleRequestStop] of a throttle that is not in flight takes the most
    recently started request out of the in-flight list
    ([indexOf] is -1, and [splice(-1, 1)] removes the last element), and
    stops and resets the clock when that was the only one; the request
    that was dropped keeps its buffer, and so does every other throttle
    when the call is [abort()].  [handleRequestDestroy] of a throttle that
    is not registered likewise drops the throttle created last from the
    registry. *)
Theorem stop_of_an_unlisted_throttle (id : nat) (w : World) :
  id ∉ inFlightRequests w ->
  inFlightRequests (handleRequestStop id w)
  = take (length (inFlightRequests w) - 1) (inFlightRequests w)
  /\ ((length (inFlightRequests w) <= 1)%nat -> clockReset (handleRequestStop id w))
  /\ inFlightRequests (abort id w)
     = take (length (inFlightRequests w) - 1) (inFlightRequests w)
  /\ (forall j, j <> id -> heap (abort id w) !! j = heap w !! j)
  /\ (id ∉ bandwidthThrottles w ->
        bandwidthThrottles (handleRequestDestroy id w)
        = take (length (bandwidthThrottles w) - 1) (bandwidthThrottles w)
        /\ bandwidthThrottles (abort id w)
           = take (length (bandwidthThrottles w) - 1) (bandwidthThrottles w)).
Proof.
  intros Hfl.
  assert (E1 : inFlightRequests (handleRequestStop id w)
               = take (length (inFlightRequests w) - 1) (inFlightRequests w))
    by (rewrite inFlight_handleRequestStop; now apply splice1_missing).
  assert (Hregs : bandwidthThrottles (handleRequestStop id w) = bandwidthThrottles w)
    by (unfold handleRequestStop; now destruct (_ =? _)%nat).
  split_and!.
  - exact E1.
  - intros Hlen. apply (proj1 (clock_handleRequestStop id w)).
    rewrite E1. apply length_zero_iff_nil. rewrite length_take. lia.
  - exact E1.
  - intros j Hne. unfold abort. rewrite heap_destroy, heap_handleRequestStop.
    now rewrite !list_lookup_alter_ne by congruence.
  - intros Hreg. split.
    + change (bandwidthThrottles (handleRequestDestroy id w))
        with (JsArray.splice1 (JsArray.indexOf id (bandwidthThrottles w))
                (bandwidthThrottles w)).
      now apply splice1_missing.
    + change (bandwidthThrottles (abort id w))
        with (JsArray.splice1
                (JsArray.indexOf id (bandwidthThrottles (handleRequestStop id w)))
                (bandwidthThrottles (handleRequestStop id w))).
      rewrite Hregs. now apply splice1_missing.
Qed.

Lemma stop_of_an_unlisted_throttle_witness :
  inFlightRequests threeInFlight = [0; 1; 2]%nat
  /\ length (pending <$> heap (abort 3 threeInFlight)) = 4%nat
  /\ inFlightRequests (abort 3 threeInFlight) = [0; 1]%nat
  /\ inFlightRequests (abort 3 threeInFlight)
     = take (length (inFlightRequests threeInFlight) - 1)
         (inFlightRequests threeInFlight).
Proof.
  split; [vm_compute; reflexivity|]. split; [vm_compute; reflexivity|].
  split; [vm_compute; reflexivity|].
  apply (stop_of_an_unlisted_throttle 3 threeInFlight).
  apply (bool_decide_unpack _); vm_compute; reflexivity.
Defined.

(** ** The timer fires five times per tick *)

Lemma config_processInFlightRequests now w :
  config (processInFlightRequests now w) = config w.
Proof.
  apply (pass_processInFlightRequests (fun _ _ => True)
           (fun w w' => config w' = config w));
    try (intros; exact I); try reflexivity.
  intros a b c H1 H2. congruence.
Qed.

Lemma clockKept_trans a b c : clockKept a b -> clockKept b c -> clockKept a c.
Proof.
  unfold clockKept. intros [H1|H1] [H2|H2].
  - now left.
  - left. congruence.
  - now left.
  - right. congruence.
Qed.

Lemma clockKept_forEachInFlight period m n i w s :
  clockKept w (fst (forEachInFlight period m n i w s)).
Proof.
  apply (pass_forEachInFlight (fun _ _ => True) clockKept);
    try (intros; exact I); try (intros; right; reflexivity).
  - apply clockKept_trans.
  - intros; now left.
Qed.

Lemma clockKept_resumeAll s w : clockKept w (resumeAll s w).
Proof.
  apply (pass_resumeAll (fun _ _ => True) clockKept);
    try (intros; exact I); try (intros; right; reflexivity).
  - apply clockKept_trans.
  - intros; now left.
Qed.

(** X7: of the firings of the timer within one tick period, only the first
    does any work.  On a throttled group, when a firing at time [now] has
    processed the requests, a firing less than [tickDurationMs] later
    changes nothing: no request is served, no counter moves. *)
Theorem second_firing_does_nothing (w : World) (now now' : Z) :
  schedInv w -> isThrottled (config w) = true -> 0 <= now ->
  (hasTicked w = true ->
   Num.ltb (Num.of_Z (now - lastTickTime w)) (tickDurationMs (config w)) = false) ->
  Num.ltb (Num.of_Z (now' - now)) (tickDurationMs (config w)) = true ->
  processInFlightRequests now' (processInFlightRequests now w)
  = processInFlightRequests now w.
Proof.
  intros Hinv Hth Hnow Hdue Hsoon.
  pose proof (schedInv_processInFlightRequests now w Hinv) as Hinv'.
  pose proof (config_processInFlightRequests now w) as Hcfg.
  set (w' := processInFlightRequests now w) in *.
  destruct (clockIntervalId w') as [tm|] eqn:Hck.
  - (* the clock still runs: it has recorded the time of the tick *)
    assert (Hlast : lastTickTime w' = now).
    { subst w'. unfold processInFlightRequests in *.
      assert (Hskip : isThrottled (config w) && hasTicked w
                && Num.ltb (Num.of_Z (if hasTicked w then now - lastTickTime w else 0))
                     (tickDurationMs (config w)) = false).
      { destruct (hasTicked w) eqn:Hh.
        - rewrite (Hdue eq_refl). apply andb_false_r.
        - rewrite andb_false_r. reflexivity. }
      rewrite Hskip in *.
      match goal with
      | |- context [forEachInFlight ?p ?m ?n ?i ?w ?s] =>
          pose proof (clockKept_forEachInFlight p m n i w s) as Hf;
          destruct (forEachInFlight p m n i w s) as [w1 susp]
      end.
      cbn [fst] in Hf.
      match goal with
      | |- lastTickTime (resumeAll susp ?x) = _ =>
          set (w2 := x) in *; pose proof (clockKept_resumeAll susp w2) as Hr
      end.
      destruct Hr as [Hr|Hr]; [congruence|].
      injection Hr as Hr1 Hr2 _ _. rewrite Hr2.
      assert (Hck2 : clockIntervalId w2 <> None) by congruence.
      subst w2. unfold isTicking in *.
      destruct (clockIntervalId w1) as [tm1|] eqn:Hck1; [|contradiction].
      destruct Hf as [Hf|Hf]; [congruence|].
      injection Hf as _ Hl1 _ _.
      assert (Hh1 : hasTicked w1 = hasTicked w) by (unfold hasTicked; now rewrite Hl1).
      rewrite Hh1, Hl1.
      destruct (tickIndex w1 + 1 =? ticksPerSecond (config w1));
        cbn [lastTickTime set_clock]; destruct (hasTicked w); lia. }
    unfold processInFlightRequests at 1. rewrite Hcfg, Hth.
    unfold hasTicked. rewrite Hlast.
    destruct (Z.ltb_spec (-1) now); [|lia]. now rewrite Hsoon.
  - (* the clock has stopped: no request is in flight *)
    destruct Hinv' as [_ Hempty]. pose proof (Hempty Hck) as Hfl.
    destruct (schedInv_processInFlightRequests now w Hinv) as [Hreset _].
    fold w' in Hreset. destruct (Hreset Hfl) as (_ & _ & _ & Hlt).
    unfold processInFlightRequests at 1.
    unfold hasTicked, isTicking. rewrite Hlt, Hfl. cbn [Z.ltb Z.compare].
    rewrite andb_false_r. cbn [andb length forEachInFlight].
    rewrite Hck. reflexivity.
Qed.

Lemma second_firing_does_nothing_witness :
  inFlightRequests (oneWrite throttledConfig) = [0%nat]
  /\ emittedCount 0 (oneWrite throttledConfig) = 0
  /\ emittedCount 0 (processInFlightRequests 1000 (oneWrite throttledConfig)) = 10
  /\ processInFlightRequests 1050
       (processInFlightRequests 1000 (oneWrite throttledConfig))
     = processInFlightRequests 1000 (oneWrite throttledConfig).
Proof.
  split; [vm_compute; reflexivity|]. split; [vm_compute; reflexivity|].
  split; [vm_compute; reflexivity|].
  apply (second_firing_does_nothing (oneWrite throttledConfig) 1000 1050).
  - apply schedInv_run, schedInv_newGroup.
  - reflexivity.
  - lia.
  - intros H. vm_compute in H. discriminate.
  - vm_compute; reflexivity.
Defined.

(** * Accounting for the bytes *)

Lemma Ready_atRest cfg t c : Ready cfg t c -> atRest cfg t = true.
Proof.
  intros (buf & Hb & Hl & Hm & Hr & Hc & Hrange). unfold atRest.
  rewrite Hb, Hr, Hc. cbn [Num.of_Z inject_Z Qnum Qden].
  rewrite !andb_true_iff. split_and!;
    first [apply Nat.eqb_eq | apply Z.leb_le | apply Z.eqb_eq | apply Pos.eqb_eq];
    try lia; try reflexivity.
Qed.









(** The call as the store sees it. *)
Lemma frame_process_finish i j w :
  j <> i -> heap (process_finish i w) !! j = heap w !! j.
Proof.
  intros Hne. unfold process_finish.
  destruct (heap w !! i); [|reflexivity].
  destruct (_ || _ || _); [reflexivity|].
  rewrite heap_destroy, heap_handleRequestStop. simpl.
  now rewrite !list_lookup_alter_ne by congruence.
Qed.






















(** * Acknowledging the writes *)

Lemma StronglySorted_snoc (l : list Z) (x : Z) :
  StronglySorted Z.lt l -> Forall (fun y => y < x) l ->
  StronglySorted Z.lt (l ++ [x]).
Proof.
  induction 1 as [|a l Hs IH Ha]; intros Hall; cbn [app].
  - repeat constructor.
  - apply Forall_cons in Hall as [Hax Hall]. constructor; [now apply IH|].
    apply Forall_app. split; [exact Ha | now constructor].
Qed.

Lemma StronglySorted_lt_NoDup (l : list Z) : StronglySorted Z.lt l -> NoDup l.
Proof.
  induction 1 as [|a l Hs IH Ha]; constructor; [|exact IH].
  intros Hin. rewrite Forall_forall in Ha. specialize (Ha a Hin). lia.
Qed.

Lemma Acked_run options events :
  Forall Acked (heap (run events (newGroup options))).
Proof.
  cut (Forall Acked (heap (newGroup options)) ->
       Forall Acked (heap (run events (newGroup options))));
    [intros H; apply H; constructor|].
  apply (pass_run (fun t t' => Acked t -> Acked t')
                  (fun w w' => Forall Acked (heap w) -> Forall Acked (heap w')));
    try (intros; assumption); try (intros ? ? H; exact H);
    try (intros ? ? ? H; exact H); try (intros ? ? ? ? H; exact H).
  - auto.
  - (* a chunk for a plain throttle *)
    intros t Hv (H0 & Hs & Hall & Hlen & Hres). unfold Acked. cbn.
    split_and!; try assumption; try lia.
    + eapply Forall_impl; [exact Hall|]. cbn. intros; lia.
    + intros k Hk. destruct (Hres k Hk). congruence.
  - (* a chunk for a backpressure throttle *)
    intros t Hv (H0 & Hs & Hall & Hlen & Hres). unfold Acked. cbn.
    split_and!; try assumption; try lia.
    + eapply Forall_impl; [exact Hall|]. cbn. intros; lia.
    + intros k [= <-]. split_and!; try easy; try lia.
      eapply Forall_impl; [exact Hall|]. cbn. intros; lia.
  - (* a push of the plain throttle *)
    intros chunk t Hv HA. unfold push. destruct (_ || _); [exact HA|].
    destruct HA as (H0 & Hs & Hall & Hlen & Hres). unfold Acked. cbn.
    split_and!; try assumption. rewrite length_app. cbn. lia.
  - (* a push of the backpressure throttle *)
    intros chunk t Hv (H0 & Hs & Hall & Hlen & Hres). unfold push.
    cbn [controller terminated set_resolver_backpressure].
    destruct (_ || _); cbn [fst].
    + unfold Acked. cbn. split_and!; try assumption. discriminate.
    + unfold Acked. cbn. destruct (resolver_backpressure t) as [k|] eqn:Hk.
      * destruct (Hres k eq_refl) as (_ & -> & Hk1 & Hlt).
        split_and!; try assumption; try discriminate.
        -- now apply StronglySorted_snoc.
        -- apply Forall_app. split; [exact Hall|]. constructor; [lia|constructor].
        -- rewrite !length_app. cbn. lia.
      * split_and!; try assumption; try discriminate.
        rewrite length_app. cbn. lia.
  - auto.
  - intros id f w Hf H. simpl. apply Forall_alter; [exact H|].
    intros t Ht. now apply Hf.
  - intros b w H.
    destruct (createBandwidthThrottle_cases b w) as [->|(t & Ht & ->)]; [exact H|].
    apply newThrottle_Some in Ht as [-> _].
    simpl. apply Forall_app. split; [exact H|].
    constructor; [|constructor]. unfold Acked. cbn.
    split_and!; try lia; try constructor; discriminate.
Qed.

(** X10: writes are acknowledged in order, at most once, and only with an
    emitted slice.  In every state a group can reach, the writes a throttle
    has completed are numbers of chunks the host has delivered, strictly
    increasing, and there are no more of them than emitted slices; the
    resolver it holds, if any, is the one of the latest chunk, which is not
    completed yet. *)
Theorem writes_are_acknowledged_in_order (options : Config) (events : list Event)
    (id : nat) (t : Throttle) :
  heap (run events (newGroup options)) !! id = Some t ->
  StronglySorted Z.lt (writesCompleted t)
  /\ NoDup (writesCompleted t)
  /\ Forall (fun k => 1 <= k <= chunkCounter t) (writesCompleted t)
  /\ (length (writesCompleted t) <= length (enqueued t))%nat
  /\ forall k, resolver_backpressure t = Some k ->
       k = chunkCounter t /\ k ∉ writesCompleted t.
Proof.
  intros Ht. pose proof (Acked_run options events) as H.
  rewrite Forall_lookup in H. destruct (H id t Ht) as (H0 & Hs & Hall & Hlen & Hres).
  split_and!; try assumption.
  - now apply StronglySorted_lt_NoDup.
  - intros k Hk. destruct (Hres k Hk) as (_ & -> & _ & Hlt). split; [reflexivity|].
    intros Hin. rewrite Forall_forall in Hlt. specialize (Hlt _ Hin). lia.
Qed.

Lemma writes_are_acknowledged_in_order_witness :
  exists t,
    heap (run twoChunks (newGroup throttledConfig)) !! 0%nat = Some t
    /\ chunkCounter t = 2 /\ writesCompleted t = [1; 2]
    /\ length (enqueued t) = 6%nat
    /\ StronglySorted Z.lt (writesCompleted t)
    /\ NoDup (writesCompleted t)
    /\ Forall (fun k => 1 <= k <= chunkCounter t) (writesCompleted t)
    /\ (length (writesCompleted t) <= length (enqueued t))%nat
    /\ forall k, resolver_backpressure t = Some k ->
         k = chunkCounter t /\ k ∉ writesCompleted t.
Proof.
  eexists. split; [vm_compute; reflexivity|].
  split; [reflexivity|]. split; [reflexivity|]. split; [reflexivity|].
  apply (writes_are_acknowledged_in_order throttledConfig twoChunks 0).
  vm_compute; reflexivity.
Defined.

(** * One call of [process] *)

Lemma process_finish_test id w t c :
  heap w !! id = Some t ->
  pendingBytesReadIndex t = Num.of_Z 0 -> pendingBytesCount t = Num.of_Z c ->
  process_finish id w
  = if negb (0 <? c) && negb (isDataBeingWritten t) && isThrottled (config w)
    then destroy id (handleRequestStop id (modifyThrottle id resolve_done w))
    else w.
Proof.
  intros Ht Hr Hc. unfold process_finish. rewrite Ht, Hr, Hc, ltb_of_Z.
  now destruct (0 <? c), (isDataBeingWritten t), (isThrottled (config w)).
Qed.

(** X11: one call of [process] with a whole quota [m] on a throttle at rest
    with its controller open.  The call returns; with [e] the smaller of
    [m] and the number of unemitted bytes, it emits the first [e] unemitted
    bytes as one slice when [e > 0] and nothing otherwise, so never more
    than the quota; the backpressure throttle completes the write whose
    resolver it holds when it pushes a slice, the plain one completes
    nothing.  The request ends exactly when nothing is left, the producer
    has ended its input and the group is throttled: then [done] is resolved,
    the buffer released and the controller terminated; otherwise the rest
    of the bytes stays pending in order, the throttle is at rest again and
    the scheduling state is as before. *)
Theorem process_serves_a_whole_quota (id : nat) (m : Z) (w : World) (t : Throttle) :
  heap w !! id = Some t -> atRest (config w) t = true ->
  controller t = true -> terminated t = false ->
  let c := Z.of_nat (length (pending t)) in
  let e := Z.max 0 (Z.min m c) in
  let ends :=
    negb (0 <? c - e) && negb (isDataBeingWritten t) && isThrottled (config w) in
  let w' := fst (process id (Finite (Num.of_Z m)) w) in
  snd (process id (Finite (Num.of_Z m)) w) = Returns
  /\ exists t',
       heap w' !! id = Some t'
       /\ enqueued t'
          = enqueued t ++ (if 0 <? e then [take (Z.to_nat e) (pending t)] else [])
       /\ writesCompleted t'
          = writesCompleted t
            ++ (if 0 <? e
                then match variant t, resolver_backpressure t with
                     | WithBackpressure, Some k => [k]
                     | _, _ => []
                     end
                else [])
       /\ (0 < e -> variant t = WithBackpressure -> resolver_backpressure t' = None)
       /\ done t' = done t || ends
       /\ terminated t' = ends
       /\ (ends = false ->
             pending t' = drop (Z.to_nat e) (pending t)
             /\ atRest (config w) t' = true /\ sched w' = sched w)
       /\ (ends = true -> pendingBytesBuffer t' = None /\ e = c).
Proof.
  intros Ht Hrest Hctl Hterm c e ends w'.
  pose proof (atRest_Ready _ _ Hrest) as HR. fold c in HR.
  assert (Hc0 : 0 <= c) by (subst c; lia).
  pose proof (endReadIndex_of_Z _ t c m HR) as He0.
  destruct (Z.ltb_spec 0 (Z.min m c)) as [Hpos|Hnone].
  - assert (Hee : e = Z.min m c) by (subst e; lia).
    destruct (emit_Ready (config w) t c (Finite (Num.of_Z m)) (Z.min m c) HR
                (conj Hctl Hterm) He0 ltac:(lia))
      as (t1 & t2 & Htake & Hpush & _ & HR2 & _ & Hs2 & _ & _ & _ & Henq & Hpend).
    rewrite <- Hee in *.
    assert (HX : writesCompleted t2
                 = writesCompleted t
                   ++ match variant t, resolver_backpressure t with
                      | WithBackpressure, Some k => [k]
                      | _, _ => []
                      end
                 /\ (variant t = WithBackpressure -> resolver_backpressure t2 = None)).
    { destruct HR as (buf & Hb & Hl & Hm & Hr & Hc & Hrange).
      pose proof (processT_live (config w) (Finite (Num.of_Z m)) t buf e c
                    Hb Hl Hm ltac:(lia) Hctl Hterm Hr Hc He0 ltac:(lia)) as HT.
      cbv zeta in HT. unfold processT in HT. rewrite Htake, Hpush in HT.
      injection HT as ->. destruct (variant t); cbn.
      - split; [now rewrite app_nil_r | discriminate].
      - split; [|reflexivity].
        destruct (resolver_backpressure t); [reflexivity | now rewrite app_nil_r]. }
    destruct HX as (Hcompl & Hres).
    assert (E : process id (Finite (Num.of_Z m)) w
                = (process_finish id (storeThrottle id t2 w), Returns)).
    { unfold process, process_begin. rewrite Ht, Htake.
      unfold process_resume. rewrite (lookup_storeThrottle id t1 t w Ht), Hpush.
      now rewrite storeThrottle_twice. }
    subst w'. rewrite E. cbn [fst snd]. split; [reflexivity|].
    pose proof (lookup_storeThrottle id t2 t w Ht) as Ht2.
    destruct Hs2 as (Hd2 & Hterm2 & Hw2 & _ & _ & _ & Hctl2).
    pose proof HR2 as (buf2 & _ & _ & _ & Hr2 & Hc2 & _).
    rewrite (process_finish_test id _ t2 (c - e) Ht2 Hr2 Hc2).
    change (config (storeThrottle id t2 w)) with (config w).
    rewrite Hw2. fold ends.
    destruct (Z.ltb_spec 0 e); [|lia].
    destruct ends eqn:Hends.
    + erewrite lookup_end_of_request by (apply lookup_modifyThrottle, Ht2).
      eexists. split; [reflexivity|]. cbn. rewrite Hctl2, Hctl.
      split_and!; try assumption; try reflexivity; try discriminate.
      * intros _ Hv. now apply Hres.
      * now rewrite orb_true_r.
      * intros _. split; [reflexivity|]. subst ends.
        destruct (Z.ltb_spec 0 (c - e)); [discriminate | lia].
    + exists t2. split; [exact Ht2|].
      split_and!; try assumption; try discriminate.
      * intros _ Hv. now apply Hres.
      * now rewrite Hd2, orb_false_r.
      * congruence.
      * intros _. split_and!; [exact Hpend | now apply (Ready_atRest _ _ (c - e)) |].
        apply sched_storeThrottle.
  - assert (Hee : e = 0) by (subst e; lia).
    assert (E : process id (Finite (Num.of_Z m)) w = (process_finish id w, Returns)).
    { unfold process, process_begin. rewrite Ht.
      now rewrite (process_take_none (config w) t c _ (Z.min m c) HR He0 Hnone). }
    subst w'. rewrite E. cbn [fst snd]. split; [reflexivity|].
    pose proof HR as (buf & _ & _ & _ & Hr & Hc & _).
    rewrite (process_finish_test id w t c Ht Hr Hc).
    assert (Hfold : negb (0 <? c) && negb (isDataBeingWritten t)
                    && isThrottled (config w) = ends)
      by (subst ends; now rewrite Hee, Z.sub_0_r).
    rewrite Hfold, Hee. cbn [Z.ltb Z.compare]. rewrite !app_nil_r.
    destruct ends eqn:Hends.
    + erewrite lookup_end_of_request by (apply lookup_modifyThrottle, Ht).
      eexists. split; [reflexivity|]. cbn. rewrite Hctl.
      split_and!; try reflexivity; try discriminate; try lia.
      intros _. split; [reflexivity|].
      destruct (Z.ltb_spec 0 c); [discriminate | lia].
    + exists t. split; [exact Ht|].
      split_and!; try reflexivity; try assumption; try discriminate; try lia.
      * now rewrite orb_false_r.
      * intros _. now split_and!.
Qed.

Lemma process_serves_a_whole_quota_witness :
  emittedCount 1 threeInFlight = 0
  /\ emittedCount 1 (fst (process 1 (Finite (Num.of_Z 12)) threeInFlight)) = 12
  /\ snd (process 1 (Finite (Num.of_Z 12)) threeInFlight) = Returns.
Proof.
  split; [vm_compute; reflexivity|]. split; [vm_compute; reflexivity|].
  refine (proj1 (process_serves_a_whole_quota 1 12 threeInFlight _ _ _ _ _));
    vm_compute; reflexivity.
Defined.

(** * A request that ends during the tick *)

Lemma elem_of_drop_lookup (x : nat) (n : nat) (l : list nat) :
  x ∈ drop n l <-> exists j, l !! j = Some x /\ (n <= j)%nat.
Proof.
  rewrite list_elem_of_lookup. split.
  - intros (k & Hk). rewrite lookup_drop in Hk. exists (n + k)%nat. split; [exact Hk | lia].
  - intros (j & Hj & Hle). exists (j - n)%nat. rewrite lookup_drop.
    now replace (n + (j - n))%nat with j by lia.
Qed.

Lemma own_removal (l : list nat) (i id : nat) :
  NoDup l -> l !! i = Some id ->
  JsArray.splice1 (JsArray.indexOf id l) l = delete i l.
Proof.
  intros Hnd Hi. pose proof (take_drop_middle l i id Hi) as E.
  assert (Hn : id ∉ take i l).
  { rewrite <- E in Hnd. apply NoDup_app in Hnd as (_ & Hd & _).
    intros Hin. apply (Hd id Hin). apply elem_of_cons. now left. }
  rewrite delete_take_drop. rewrite <- E at 1 2. now apply splice1_middle.
Qed.

Lemma first_removal_keeps (l : list nat) (id x : nat) :
  id ∈ l -> x <> id -> x ∈ l ->
  x ∈ JsArray.splice1 (JsArray.indexOf id l) l.
Proof.
  intros Hid Hne Hx.
  assert (Hsplit : exists l1 l2, l = l1 ++ id :: l2 /\ id ∉ l1).
  { clear Hx. induction l as [|y l IH]; [now apply elem_of_nil in Hid|].
    destruct (decide (id = y)) as [->|Hy].
    - exists [], l. split; [reflexivity | apply not_elem_of_nil].
    - apply elem_of_cons in Hid as [?|Hid]; [contradiction|].
      destruct (IH Hid) as (l1 & l2 & -> & Hn). exists (y :: l1), l2.
      split; [reflexivity|]. apply not_elem_of_cons. now split. }
  destruct Hsplit as (l1 & l2 & -> & Hn). rewrite splice1_middle by exact Hn.
  rewrite elem_of_app in *. rewrite elem_of_cons in Hx. tauto.
Qed.

Lemma frame_gracefulAbort id j w :
  j <> id -> heap (gracefulAbort id w) !! j = heap w !! j.
Proof.
  intros Hne. unfold gracefulAbort. rewrite heap_destroy, heap_handleRequestStop.
  simpl. now rewrite !list_lookup_alter_ne by congruence.
Qed.

Lemma frame_end_of_request id j w :
  j <> id ->
  heap (destroy id (handleRequestStop id (modifyThrottle id resolve_done w))) !! j
  = heap w !! j.
Proof. apply frame_gracefulAbort. Qed.

Lemma inFlight_end_of_request id w :
  inFlightRequests (destroy id (handleRequestStop id (modifyThrottle id resolve_done w)))
  = JsArray.splice1 (JsArray.indexOf id (inFlightRequests w)) (inFlightRequests w).
Proof.
  change (inFlightRequests (destroy id ?x)) with (inFlightRequests x).
  now rewrite inFlight_handleRequestStop.
Qed.

Lemma inFlight_process_finish id w :
  inFlightRequests (process_finish id w) = inFlightRequests w
  \/ inFlightRequests (process_finish id w)
     = JsArray.splice1 (JsArray.indexOf id (inFlightRequests w)) (inFlightRequests w).
Proof.
  unfold process_finish. destruct (heap w !! id); [|now left].
  destruct (_ || _ || _); [now left | right; apply inFlight_end_of_request].
Qed.

(** One request of the tick. *)
Lemma tickRequest_step p m id i w :
  let r := tickRequest p m id i w in
  (forall x, x <> id -> heap (fst r) !! x = heap w !! x)
  /\ (inFlightRequests (fst r) = inFlightRequests w
      \/ (inFlightRequests (fst r)
          = JsArray.splice1 (JsArray.indexOf id (inFlightRequests w))
              (inFlightRequests w)
          /\ forall b, snd r <> Awaits b)).
Proof.
  unfold tickRequest. destruct (heap w !! id) as [t|] eqn:Ht; [|now split; [|left]].
  destruct (_ || _); cbn [fst snd].
  - split; [intros x Hx; now apply frame_gracefulAbort|].
    right. split; [apply inFlight_end_of_request | discriminate].
  - unfold process_begin. rewrite Ht.
    destruct (process_take _ _ t) as [[t' c]|]; cbn [fst snd].
    + split; [|now left]. intros x Hx. simpl.
      now rewrite list_lookup_insert_ne by congruence.
    + split; [intros x Hx; now apply frame_process_finish|].
      destruct (inFlight_process_finish id w) as [E|E]; [now left|].
      right. split; [exact E | discriminate].
Qed.

Lemma process_resume_step id b w :
  let r := process_resume id b w in
  (forall x, x <> id -> heap (fst r) !! x = heap w !! x)
  /\ (inFlightRequests (fst r) = inFlightRequests w
      \/ inFlightRequests (fst r)
         = JsArray.splice1 (JsArray.indexOf id (inFlightRequests w))
             (inFlightRequests w)).
Proof.
  unfold process_resume. destruct (heap w !! id) as [t|] eqn:Ht; [|now split; [|left]].
  destruct (process_push b t) as [t1 c].
  assert (Hs : forall x, x <> id -> heap (storeThrottle id t1 w) !! x = heap w !! x)
    by (intros x Hx; simpl; now rewrite list_lookup_insert_ne by congruence).
  destruct c; cbn [fst]; try (split; [exact Hs | now left]).
  split.
  - intros x Hx. rewrite frame_process_finish by exact Hx. now apply Hs.
  - apply (inFlight_process_finish id (storeThrottle id t1 w)).
Qed.

(** The loop of the tick from position [i] on: it serves no request that
    stands before [i], and a request that ends takes the place of the next. *)
Lemma forEach_passes p m n : forall i w s,
  NoDup (inFlightRequests w) -> NoDup (map fst s) ->
  (forall x, x ∈ map fst s -> x ∈ take i (inFlightRequests w)) ->
  let r := forEachInFlight p m n i w s in
  NoDup (map fst (snd r))
  /\ (forall x, x ∈ map fst (snd r) -> x ∈ inFlightRequests (fst r))
  /\ (forall x, x ∈ inFlightRequests (fst r) -> x ∈ inFlightRequests w)
  /\ forall x, x ∉ drop i (inFlightRequests w) ->
       heap (fst r) !! x = heap w !! x
       /\ (x ∈ map fst (snd r) -> x ∈ map fst s)
       /\ (x ∈ inFlightRequests w -> x ∈ inFlightRequests (fst r)).
Proof.
  induction n as [|n IH]; intros i w s Hnd Hs Hin; cbn [forEachInFlight].
  - cbn [fst snd]. split_and!; auto.
    intros x Hx. apply Hin in Hx. apply elem_of_take in Hx as (j & Hj & _).
    apply list_elem_of_lookup. eauto.
  - destruct (inFlightRequests w !! i) as [id|] eqn:Hi.
    + pose proof (tickRequest_step p m id i w) as (Hframe & Hlist).
      destruct (tickRequest p m id i w) as [w1 c]. cbn [fst snd] in Hframe, Hlist.
      assert (Hidn : id ∉ take i (inFlightRequests w)).
      { pose proof (take_drop_middle _ i id Hi) as E. rewrite <- E in Hnd.
        apply NoDup_app in Hnd as (_ & Hd & _).
        intros Hx. apply (Hd id Hx). apply elem_of_cons. now left. }
      assert (Hdrop : forall x, x ∉ drop i (inFlightRequests w) ->
                x <> id /\ x ∉ drop (S i) (inFlightRequests w)).
      { intros x Hx. split.
        - intros ->. apply Hx. apply elem_of_drop_lookup. exists i. split; [exact Hi | lia].
        - intros Hd. apply Hx. apply elem_of_drop_lookup in Hd as (j & Hj & Hle).
          apply elem_of_drop_lookup. exists j. split; [exact Hj | lia]. }
      destruct Hlist as [Hsame | (Hgone & Hc)].
      * (* the request stays in flight *)
        assert (Hnd1 : NoDup (inFlightRequests w1)) by now rewrite Hsame.
        set (s1 := match c with Awaits b => s ++ [(id, b)] | _ => s end).
        assert (Hs1 : NoDup (map fst s1)
                      /\ (forall x, x ∈ map fst s1 ->
                            x ∈ take (S i) (inFlightRequests w1))
                      /\ (forall x, x ∈ map fst s1 -> x ∈ map fst s \/ x = id)).
        { rewrite Hsame, (take_S_r _ _ _ Hi).
          assert (Hold : forall x, x ∈ map fst s ->
                    x ∈ take i (inFlightRequests w) ++ [id])
            by (intros x Hx; apply elem_of_app; left; auto).
          subst s1. destruct c; try (split_and!; auto).
          - rewrite map_app. apply NoDup_app. split_and!; [exact Hs | | ].
            + intros x Hx Hx'. cbn in Hx'. apply list_elem_of_singleton in Hx'.
              subst x. apply Hidn, Hin, Hx.
            + cbn. apply NoDup_singleton.
          - intros x. rewrite map_app, elem_of_app. cbn.
            rewrite list_elem_of_singleton, elem_of_app, list_elem_of_singleton.
            intros [Hx| ->]; [left; auto | now right].
          - intros x. rewrite map_app, elem_of_app. cbn.
            now rewrite list_elem_of_singleton. }
        destruct Hs1 as (Hs1 & Hin1 & Hold1).
        destruct (IH (S i) w1 s1 Hnd1 Hs1 Hin1) as (R1 & R2 & R3 & R4).
        assert (E : forEachInFlight p m n (S i) w1 s1
                    = match c with
                      | Awaits b => forEachInFlight p m n (S i) w1 (s ++ [(id, b)])
                      | _ => forEachInFlight p m n (S i) w1 s
                      end) by (subst s1; now destruct c).
        rewrite E in R1, R2, R3, R4.
        assert (G : forall r,
          r = match c with
              | Awaits b => forEachInFlight p m n (S i) w1 (s ++ [(id, b)])
              | _ => forEachInFlight p m n (S i) w1 s
              end ->
          NoDup (map fst (snd r))
          /\ (forall x, x ∈ map fst (snd r) -> x ∈ inFlightRequests (fst r))
          /\ (forall x, x ∈ inFlightRequests (fst r) -> x ∈ inFlightRequests w)
          /\ forall x, x ∉ drop i (inFlightRequests w) ->
               heap (fst r) !! x = heap w !! x
               /\ (x ∈ map fst (snd r) -> x ∈ map fst s)
               /\ (x ∈ inFlightRequests w -> x ∈ inFlightRequests (fst r))).
        { intros r ->. split_and!; auto.
          - intros x Hx. rewrite <- Hsame. auto.
          - intros x Hx. destruct (Hdrop x Hx) as (Hne & Hx').
            rewrite <- Hsame in Hx'. destruct (R4 x Hx') as (H1 & H2 & H3).
            split_and!.
            + rewrite H1. now apply Hframe.
            + intros Hm. destruct (Hold1 x (H2 Hm)); [assumption | contradiction].
            + intros Hl. apply H3. now rewrite Hsame. }
        destruct c; now apply G.
      * (* the request has ended *)
        rewrite (own_removal _ i id Hnd Hi) in Hgone.
        assert (Hnd1 : NoDup (inFlightRequests w1)).
        { rewrite Hgone. eapply sublist_NoDup; [exact Hnd | apply sublist_delete]. }
        assert (Hlt : (i < length (inFlightRequests w))%nat)
          by (eapply lookup_lt_Some, Hi).
        assert (Hin1 : forall x, x ∈ map fst s ->
                  x ∈ take (S i) (inFlightRequests w1)).
        { intros x Hx. apply Hin in Hx. rewrite Hgone, delete_take_drop.
          apply elem_of_take in Hx as (j & Hj & Hji).
          apply elem_of_take. exists j. split; [|lia].
          rewrite lookup_app_l by (rewrite length_take; lia).
          rewrite lookup_take_lt by lia. exact Hj. }
        destruct (IH (S i) w1 s Hnd1 Hs Hin1) as (R1 & R2 & R3 & R4).
        assert (G : forall r, r = forEachInFlight p m n (S i) w1 s ->
          NoDup (map fst (snd r))
          /\ (forall x, x ∈ map fst (snd r) -> x ∈ inFlightRequests (fst r))
          /\ (forall x, x ∈ inFlightRequests (fst r) -> x ∈ inFlightRequests w)
          /\ forall x, x ∉ drop i (inFlightRequests w) ->
               heap (fst r) !! x = heap w !! x
               /\ (x ∈ map fst (snd r) -> x ∈ map fst s)
               /\ (x ∈ inFlightRequests w -> x ∈ inFlightRequests (fst r))).
        { intros r ->. split_and!; auto.
          - intros x Hx. apply R3 in Hx. rewrite Hgone in Hx.
            eapply elem_of_sublist; [exact Hx | apply sublist_delete].
          - intros x Hx. destruct (Hdrop x Hx) as (Hne & Hx').
            assert (Hx1 : x ∉ drop (S i) (inFlightRequests w1)).
            { rewrite Hgone, delete_take_drop. intros Hd.
              apply elem_of_drop_lookup in Hd as (j & Hj & Hle).
              rewrite lookup_app_r in Hj by (rewrite length_take; lia).
              rewrite length_take, lookup_drop in Hj.
              apply Hx'. apply elem_of_drop_lookup. eexists. split; [exact Hj | lia]. }
            destruct (R4 x Hx1) as (H1 & H2 & H3). split_and!.
            + rewrite H1. now apply Hframe.
            + exact H2.
            + intros Hl. apply H3. rewrite Hgone, <- (own_removal _ i id Hnd Hi).
              apply first_removal_keeps; try assumption.
              apply list_elem_of_lookup. eauto. }
        destruct c; [now apply G | now apply G | now destruct (Hc bytesToPush)].
    + assert (Hin1 : forall x, x ∈ map fst s -> x ∈ take (S i) (inFlightRequests w)).
      { intros x Hx. apply Hin in Hx. apply elem_of_take in Hx as (j & Hj & Hji).
        apply elem_of_take. exists j. split; [exact Hj | lia]. }
      destruct (IH (S i) w s Hnd Hs Hin1) as (R1 & R2 & R3 & R4).
      split_and!; auto. intros x Hx. apply R4. intros Hd. apply Hx.
      apply elem_of_drop_lookup in Hd as (j & Hj & Hle).
      apply elem_of_drop_lookup. exists j. split; [exact Hj | lia].
Qed.

Lemma resumeAll_passes s : forall w,
  NoDup (map fst s) -> (forall x, x ∈ map fst s -> x ∈ inFlightRequests w) ->
  (forall x, x ∈ inFlightRequests (resumeAll s w) -> x ∈ inFlightRequests w)
  /\ forall x, x ∉ map fst s ->
       heap (resumeAll s w) !! x = heap w !! x
       /\ (x ∈ inFlightRequests w -> x ∈ inFlightRequests (resumeAll s w)).
Proof.
  induction s as [|[id b] s IH]; intros w Hnd Hin; [now split|].
  change (resumeAll ((id, b) :: s) w)
    with (resumeAll s (fst (process_resume id b w))).
  cbn [map fst] in Hnd, Hin. apply NoDup_cons in Hnd as (Hid & Hnd).
  pose proof (process_resume_step id b w) as (Hframe & Hlist).
  set (w1 := fst (process_resume id b w)) in *.
  assert (Hidw : id ∈ inFlightRequests w) by (apply Hin, elem_of_cons; now left).
  assert (Hkeep : forall x, x <> id -> x ∈ inFlightRequests w ->
            x ∈ inFlightRequests w1).
  { intros x Hne Hx. destruct Hlist as [->| ->]; [exact Hx|].
    now apply first_removal_keeps. }
  assert (Hsub : forall x, x ∈ inFlightRequests w1 -> x ∈ inFlightRequests w).
  { intros x Hx. destruct Hlist as [E|E]; rewrite E in Hx; [exact Hx|].
    eapply elem_of_sublist; [exact Hx | apply splice1_sublist]. }
  destruct (IH w1 Hnd) as (R1 & R2).
  { intros x Hx. apply Hkeep; [intros ->; contradiction|].
    apply Hin, elem_of_cons. now right. }
  split; [auto|].
  intros x Hx. apply not_elem_of_cons in Hx as (Hne & Hx).
  destruct (R2 x Hx) as (H1 & H2). split.
  - rewrite H1. now apply Hframe.
  - auto.
Qed.

Lemma tick_runs now w :
  isThrottled (config w) && hasTicked w
  && Num.ltb (Num.of_Z (now - lastTickTime w)) (tickDurationMs (config w)) = false ->
  exists p m w2,
    let r := forEachInFlight p m (length (inFlightRequests w)) 0 w [] in
    heap w2 = heap (fst r) /\ inFlightRequests w2 = inFlightRequests (fst r)
    /\ processInFlightRequests now w = resumeAll (snd r) w2.
Proof.
  intros Hrun. unfold processInFlightRequests.
  assert (Hcond : isThrottled (config w) && hasTicked w
                  && Num.ltb (Num.of_Z (if hasTicked w then now - lastTickTime w else 0))
                       (tickDurationMs (config w)) = false).
  { destruct (hasTicked w); [exact Hrun | now rewrite andb_false_r]. }
  rewrite Hcond.
  exists (Z.rem (secondIndex w) (Z.of_nat (length (inFlightRequests w)))),
    (Num.max 1
       (Num.div (Num.of_Z (if hasTicked w then now - lastTickTime w else 0))
          (tickDurationMs (config w)))).
  destruct (forEachInFlight _ _ _ _ _ _) as [w1 s]. cbn [fst snd].
  eexists. split_and!; [| | reflexivity];
    (destruct (isTicking w1); [destruct (_ =? _)|]; reflexivity).
Qed.

(** X12: when the tick finds the first request in flight with an end that
    the host no longer holds locked, it aborts it gracefully, and the
    request that follows it is passed over in that tick.  The aborted
    request has [done] resolved, its buffer released and its controller
    terminated, and has left the in-flight list; the request behind it
    takes its place in the list while the loop moves on, so it stays in
    flight and is not touched by this tick: it emits nothing, whatever it
    holds. *)
Theorem tick_passes_over_the_request_after_an_aborted_one
    (now : Z) (w : World) (a b : nat) (rest : list nat) (ta : Throttle) :
  inFlightRequests w = a :: b :: rest -> NoDup (inFlightRequests w) ->
  heap w !! a = Some ta ->
  readableLocked ta && writableLocked ta = false ->
  isThrottled (config w) && hasTicked w
  && Num.ltb (Num.of_Z (now - lastTickTime w)) (tickDurationMs (config w)) = false ->
  let w' := processInFlightRequests now w in
  heap w' !! b = heap w !! b
  /\ b ∈ inFlightRequests w'
  /\ (a ∉ inFlightRequests w')
  /\ exists ta',
       heap w' !! a = Some ta'
       /\ done ta' = true /\ pendingBytesBuffer ta' = None
       /\ terminated ta' = (controller ta || terminated ta)
       /\ enqueued ta' = enqueued ta.
Proof.
  intros Hl Hnd Ha Hlock Hrun w'.
  destruct (tick_runs now w Hrun) as (p & m & w2 & Hh2 & Hl2 & E).
  subst w'. rewrite E. clear E.
  set (wa := gracefulAbort a w).
  assert (Hfe : forEachInFlight p m (length (inFlightRequests w)) 0 w []
                = forEachInFlight p m (S (length rest)) 1 wa []).
  { rewrite Hl at 1. cbn [length forEachInFlight]. rewrite Hl. cbn [lookup list_lookup].
    unfold tickRequest. rewrite Ha.
    destruct (readableLocked ta), (writableLocked ta); try discriminate; reflexivity. }
  rewrite Hfe in *. clear Hfe.
  assert (Hla : inFlightRequests wa = b :: rest).
  { subst wa. unfold gracefulAbort. rewrite inFlight_end_of_request, Hl.
    cbn [JsArray.indexOf]. rewrite Nat.eqb_refl. reflexivity. }
  rewrite Hl in Hnd. apply NoDup_cons in Hnd as (Hab & Hnd).
  pose proof Hnd as Hnd'. apply NoDup_cons in Hnd' as (Hb & _).
  apply not_elem_of_cons in Hab as (Hne & Har).
  destruct (forEach_passes p m (S (length rest)) 1 wa []) as (R1 & R2 & R3 & R4).
  { now rewrite Hla. } { constructor. } { intros x Hx. now apply elem_of_nil in Hx. }
  destruct (forEachInFlight p m (S (length rest)) 1 wa []) as [w1 s].
  cbn [fst snd] in *.
  destruct (resumeAll_passes s w2 R1) as (Q1 & Q2).
  { intros x Hx. rewrite Hl2. auto. }
  assert (Hbd : b ∉ drop 1 (inFlightRequests wa)) by (rewrite Hla; exact Hb).
  assert (Had : a ∉ drop 1 (inFlightRequests wa))
    by (rewrite Hla; exact Har).
  destruct (R4 b Hbd) as (B1 & B2 & B3). destruct (R4 a Had) as (A1 & A2 & _).
  assert (Hbs : b ∉ map fst s)
    by (intros Hx; apply B2 in Hx; now apply elem_of_nil in Hx).
  assert (Has : a ∉ map fst s)
    by (intros Hx; apply A2 in Hx; now apply elem_of_nil in Hx).
  destruct (Q2 b Hbs) as (B4 & B5). destruct (Q2 a Has) as (A4 & _).
  split_and!.
  - rewrite B4, Hh2, B1. subst wa. apply frame_gracefulAbort. congruence.
  - apply B5. rewrite Hl2. apply B3. rewrite Hla. apply elem_of_cons. now left.
  - intros Hx. apply Q1 in Hx. rewrite Hl2 in Hx. apply R3 in Hx.
    rewrite Hla in Hx. apply elem_of_cons in Hx as [?|?]; [congruence | contradiction].
  - rewrite A4, Hh2, A1. subst wa. unfold gracefulAbort.
    erewrite lookup_end_of_request by (apply lookup_modifyThrottle, Ha).
    eexists. split; [reflexivity|]. cbn. split_and!; reflexivity.
Qed.

Lemma tick_passes_over_the_request_after_an_aborted_one_witness :
  inFlightRequests readerGone = [0; 1; 2]%nat
  /\ map (fun id => emittedCount id (processInFlightRequests 0 readerGone))
       [0; 1; 2]%nat = [0; 0; 5]
  /\ heap (processInFlightRequests 0 readerGone) !! 1%nat = heap readerGone !! 1%nat
  /\ 1%nat ∈ inFlightRequests (processInFlightRequests 0 readerGone).
Proof.
  split; [reflexivity|]. split; [vm_compute; reflexivity|].
  destruct (tick_passes_over_the_request_after_an_aborted_one 0 readerGone 0 1
              [2%nat] _ ltac:(reflexivity)
              ltac:(apply (bool_decide_unpack _); vm_compute; reflexivity)
              ltac:(vm_compute; reflexivity) ltac:(reflexivity)
              ltac:(reflexivity))
    as (H1 & H2 & _).
  split; [exact H1 | exact H2].
Defined.

(** * A write after the end of the request *)

(** X13: a write to a throttle whose request has ended is not ignored.
    When the buffer has been released with nothing pending and the producer
    writes a chunk that is no longer than the expanded buffer size, on a
    throttled group, the call returns normally: the throttle is put in
    flight again and the clock runs, its count of pending bytes becomes the
    length of the chunk although it holds no buffer and no byte, and
    nothing is emitted.  From then on every call of [process] with a
    positive whole quota throws and changes nothing, so the request never
    ends. *)
Theorem write_after_the_end_is_not_ignored (id : nat) (chunk : list Byte.byte)
    (w : World) (t : Throttle) :
  heap w !! id = Some t ->
  pendingBytesBuffer t = None ->
  pendingBytesReadIndex t = Num.of_Z 0 -> pendingBytesCount t = Num.of_Z 0 ->
  isDataBeingWritten t = false ->
  isThrottled (config w) = true ->
  (0 < length chunk)%nat ->
  Z.of_nat (length chunk) <= pendingBytesBufferExpandedSize t ->
  let w' := fst (transform id chunk w) in
  snd (transform id chunk w) = Returns
  /\ inFlightRequests w' = inFlightRequests w ++ [id]
  /\ clockIntervalId w' <> None
  /\ (exists t',
        heap w' !! id = Some t'
        /\ pendingBytesBuffer t' = None
        /\ pendingBytesCount t' = Num.of_Z (Z.of_nat (length chunk))
        /\ pending t' = [] /\ enqueued t' = enqueued t
        /\ isDataBeingWritten t' = true /\ done t' = done t)
  /\ forall m, 0 < m -> process id (Finite (Num.of_Z m)) w' = (w', Throws).
Proof.
  intros Ht Hb Hr Hc Hw Hth Hlen Hroom w'.
  set (t1 := set_pendingBytesCount (Num.of_Z (Z.of_nat (length chunk)))
               (set_isDataBeingWritten true t)).
  set (w1 := modifyThrottle id (set_isDataBeingWritten true) (handleRequestStart id w)).
  assert (Hc1 : config w1 = config w)
    by (subst w1; unfold handleRequestStart; simpl; now destruct (clockIntervalId w)).
  assert (Ht1 : heap w1 !! id = Some (set_isDataBeingWritten true t)).
  { subst w1. apply lookup_modifyThrottle.
    unfold handleRequestStart. simpl. now destruct (clockIntervalId w). }
  assert (E : transform id chunk w = (storeThrottle id t1 w1, Returns)).
  { unfold transform. rewrite Ht, Hw. fold w1.
    unfold transform_buffer.
    cbn [pendingBytesBufferExpandedSize pendingBytesCount pendingBytesReadIndex
         set_isDataBeingWritten].
    rewrite Hc, add_of_Z, ltb_of_Z.
    destruct (Z.ltb_spec (pendingBytesBufferExpandedSize t)
                (Z.of_nat (length chunk) + 0)); [lia|].
    unfold append. cbn [pendingBytesBuffer pendingBytesCount set_isDataBeingWritten].
    rewrite Hb, Hc, add_of_Z, Z.add_0_l. fold t1.
    change (config (storeThrottle id t1 w1)) with (config w1).
    now rewrite Hc1, Hth. }
  subst w'. rewrite E. cbn [fst snd].
  pose proof (lookup_storeThrottle id t1 _ w1 Ht1) as Hs.
  split_and!.
  - reflexivity.
  - subst w1. unfold handleRequestStart. simpl. now destruct (clockIntervalId w).
  - subst w1. unfold handleRequestStart. simpl.
    destruct (clockIntervalId w) eqn:Hclk; simpl; congruence.
  - exists t1. split; [exact Hs|]. subst t1. unfold pending. cbn.
    rewrite Hb. now split_and!.
  - intros m Hm. unfold process, process_begin. rewrite Hs.
    assert (Htake : process_take (config (storeThrottle id t1 w1))
                      (Finite (Num.of_Z m)) t1 = Some (t1, Throws)).
    { unfold process_take, endReadIndex. subst t1.
      cbn [pendingBytesReadIndex pendingBytesCount pendingBytesBuffer variant
           set_pendingBytesCount set_isDataBeingWritten].
      rewrite Hr, Hb.
      destruct (variant t);
        rewrite ?round_of_Z, add_of_Z, min_of_Z, sub_of_Z;
        change 0%Q with (Num.of_Z 0); rewrite ltb_of_Z;
        (destruct (Z.ltb_spec 0 (Z.min (0 + m) (Z.of_nat (length chunk)) - 0));
           [reflexivity | lia]). }
    rewrite Htake. now rewrite storeThrottle_twice.
Qed.

Lemma write_after_the_end_is_not_ignored_witness :
  finalized 0 servedToTheEnd = true
  /\ inFlightRequests servedToTheEnd = []
  /\ inFlightRequests (fst (transform 0 (bytesFrom 0 10) servedToTheEnd)) = [0%nat]
  /\ forall m, 0 < m ->
       process 0 (Finite (Num.of_Z m)) (fst (transform 0 (bytesFrom 0 10) servedToTheEnd))
       = (fst (transform 0 (bytesFrom 0 10) servedToTheEnd), Throws).
Proof.
  split; [vm_compute; reflexivity|]. split; [vm_compute; reflexivity|].
  split; [vm_compute; reflexivity|].
  refine (proj2 (proj2 (proj2 (proj2
    (write_after_the_end_is_not_ignored 0 (bytesFrom 0 10) servedToTheEnd _
       _ _ _ _ _ _ _ _)))));
    try (vm_compute; reflexivity); simpl; lia.
Defined.

(** * Counting the chunks *)

Lemma CounterKept_trans a b c : CounterKept a b -> CounterKept b c -> CounterKept a c.
Proof. unfold CounterKept. intuition congruence. Qed.

Lemma CounterKept_push chunk r t : CounterKept t (fst (push chunk r t)).
Proof. unfold push. now destruct (_ || _). Qed.

Lemma CounterKeptW_same w w' : heap w' = heap w -> CounterKeptW w w'.
Proof. intros E id t Ht. exists t. rewrite E. now split. Qed.

Lemma CounterKeptW_trans a b c :
  CounterKeptW a b -> CounterKeptW b c -> CounterKeptW a c.
Proof.
  intros H1 H2 id t Ht. destruct (H1 id t Ht) as (t1 & Ht1 & K1).
  destruct (H2 id t1 Ht1) as (t2 & Ht2 & K2).
  exists t2. split; [exact Ht2 | exact (CounterKept_trans _ _ _ K1 K2)].
Qed.

Lemma CounterKeptW_modify id f w :
  (forall t, heap w !! id = Some t -> CounterKept t (f t)) ->
  CounterKeptW w (modifyThrottle id f w).
Proof.
  intros Hf j t Ht. simpl. destruct (decide (j = id)) as [->|Hne].
  - exists (f t). rewrite list_lookup_alter_eq, Ht. split; [reflexivity | auto].
  - exists t. rewrite list_lookup_alter_ne by congruence. now split.
Qed.

Ltac counter_kept :=
  try (intros; apply CounterKeptW_same; reflexivity);
  try (intros; split; reflexivity);
  try apply CounterKept_trans; try apply CounterKeptW_trans;
  try apply CounterKeptW_modify;
  try (intros; apply CounterKept_push);
  try (intros ? ? _; eapply CounterKept_trans; [|apply CounterKept_push];
       split; reflexivity).

Lemma CounterKeptW_step e w :
  match e with Chunk _ => False | _ => True end -> CounterKeptW w (step w e).
Proof.
  destruct e; intros He; try contradiction; cbn [step].
  - intros id t Ht. exists t. split; [|now split].
    destruct (createBandwidthThrottle_cases backpressure w) as [->|(t0 & _ & ->)];
      [exact Ht|].
    simpl. now apply lookup_app_l_Some.
  - now apply CounterKeptW_same.
  - apply CounterKeptW_modify. intros; now split.
  - apply (pass_transform CounterKept CounterKeptW); counter_kept.
  - apply (pass_flush CounterKept CounterKeptW); counter_kept.
  - apply (pass_process CounterKept CounterKeptW); counter_kept.
  - apply (pass_abort CounterKept CounterKeptW); counter_kept.
  - apply (pass_gracefulAbort CounterKept CounterKeptW); counter_kept.
  - apply (pass_destroy CounterKept CounterKeptW); counter_kept.
  - apply (pass_processInFlightRequests CounterKept CounterKeptW); counter_kept.
  - apply (pass_destroyAll CounterKept CounterKeptW); counter_kept.
Qed.

Lemma delivered_cons id e events :
  delivered id (e :: events)
  = (match e with
     | Chunk i => if decide (i = id) then 1 else 0
     | _ => 0
     end) + delivered id events.
Proof.
  unfold delivered. cbn [omap list_omap].
  destruct e; try (cbn; lia). destruct (decide (id0 = id)); cbn [length]; lia.
Qed.

Lemma counted_run events : forall w id t,
  heap w !! id = Some t ->
  exists t', heap (run events w) !! id = Some t'
    /\ variant t' = variant t
    /\ chunkCounter t' = chunkCounter t + delivered id events.
Proof.
  induction events as [|e events IH]; intros w id t Ht.
  - exists t. split; [exact Ht|]. split; [reflexivity|]. unfold delivered. cbn. lia.
  - change (run (e :: events) w) with (run events (step w e)).
    rewrite delivered_cons.
    assert (H1 : exists t1, heap (step w e) !! id = Some t1
                   /\ variant t1 = variant t
                   /\ chunkCounter t1
                      = chunkCounter t
                        + match e with
                          | Chunk i => if decide (i = id) then 1 else 0
                          | _ => 0
                          end).
    { assert (Hother : match e with Chunk _ => False | _ => True end ->
                exists t1, heap (step w e) !! id = Some t1
                  /\ variant t1 = variant t /\ chunkCounter t1 = chunkCounter t + 0).
      { intros He. destruct (CounterKeptW_step e w He id t Ht) as (t1 & Ht1 & K1 & K2).
        exists t1. split_and!; [exact Ht1 | exact K2 | lia]. }
      destruct e; try (apply Hother; exact I).
      cbn [step]. unfold onChunk.
      destruct (decide (id0 = id)) as [->|Hne].
      - rewrite Ht. destruct (variant t) eqn:Hv; cbn [fst];
          erewrite lookup_modifyThrottle by exact Ht;
          (eexists; split; [reflexivity|]; cbn; split; [exact Hv | lia]).
      - exists t. split; [|split; [reflexivity | lia]].
        destruct (heap w !! id0) as [t0|]; [|exact Ht].
        destruct (variant t0); cbn [fst]; simpl;
          now rewrite list_lookup_alter_ne by congruence. }
    destruct H1 as (t1 & Ht1 & Hv1 & Hc1).
    destruct (IH (step w e) id t1 Ht1) as (t' & Ht' & Hv' & Hc').
    exists t'. split; [exact Ht'|]. split; [congruence | lia].
Qed.

(** X14: the chunk counter of a throttle counts the chunks the host has
    delivered to it, and nothing else moves it: after any run it has grown
    by the number of deliveries.  A plain throttle never passes a delivered
    chunk on to [transform]; a backpressure throttle schedules [transform]
    for a chunk exactly when fewer than 1000 chunks have been delivered
    before it, so from the 1001st on a chunk is only counted. *)
Theorem chunks_are_counted (events : list Event) (w : World) (id : nat)
    (t : Throttle) :
  heap w !! id = Some t ->
  exists t',
    heap (run events w) !! id = Some t'
    /\ variant t' = variant t
    /\ chunkCounter t' = chunkCounter t + delivered id events
    /\ snd (onChunk id (run events w))
       = match variant t with
         | Plain => false
         | WithBackpressure => chunkCounter t + delivered id events <? 1000
         end.
Proof.
  intros Ht. destruct (counted_run events w id t Ht) as (t' & Ht' & Hv & Hc).
  exists t'. split_and!; try assumption.
  unfold onChunk. rewrite Ht', Hv. destruct (variant t); [reflexivity|].
  cbn [snd]. rewrite Hc.
  destruct (Z.leb_spec (chunkCounter t + delivered id events + 1) 1000),
    (Z.ltb_spec (chunkCounter t + delivered id events) 1000); (reflexivity || lia).
Qed.

Lemma chunks_are_counted_witness :
  snd (onChunk 1 (run (replicate 999 (Chunk 1%nat)) twoClasses)) = true
  /\ exists t',
       heap (run (replicate 1000 (Chunk 1%nat)) twoClasses) !! 1%nat = Some t'
       /\ variant t' = WithBackpressure
       /\ chunkCounter t' = 0 + delivered 1 (replicate 1000 (Chunk 1%nat))
       /\ snd (onChunk 1 (run (replicate 1000 (Chunk 1%nat)) twoClasses))
          = (0 + delivered 1 (replicate 1000 (Chunk 1%nat)) <? 1000).
Proof.
  split; [vm_compute; reflexivity|].
  apply (chunks_are_counted (replicate 1000 (Chunk 1%nat)) twoClasses 1
           (freshThrottle WithBackpressure)).
  reflexivity.
Defined.

(** * A call of [process] without an open controller *)

(** X15: a call of [process] on a throttle that has no controller yet, or
    whose controller is terminated, loses the slice it takes.  For a
    throttle at rest and a whole quota that takes [e > 0] bytes, the call
    throws; the first [e] unemitted bytes are gone from the pending bytes
    and nothing has been enqueued; no write is completed, and the
    backpressure throttle has dropped the resolver it held; the request is
    not ended and the group is as before. *)
Theorem process_without_an_open_controller_drops_the_slice
    (id : nat) (m : Z) (w : World) (t : Throttle) :
  heap w !! id = Some t -> atRest (config w) t = true ->
  negb (controller t) || terminated t = true ->
  let c := Z.of_nat (length (pending t)) in
  let e := Z.min m c in
  0 < e ->
  let w' := fst (process id (Finite (Num.of_Z m)) w) in
  snd (process id (Finite (Num.of_Z m)) w) = Throws
  /\ sched w' = sched w
  /\ bandwidthThrottles w' = bandwidthThrottles w
  /\ exists t',
       heap w' !! id = Some t'
       /\ enqueued t' = enqueued t
       /\ writesCompleted t' = writesCompleted t
       /\ pending t' = drop (Z.to_nat e) (pending t)
       /\ done t' = done t
       /\ (variant t = WithBackpressure -> resolver_backpressure t' = None).
Proof.
  intros Ht Hrest Hctl c e He w'.
  pose proof (atRest_Ready _ _ Hrest) as HR. fold c in HR.
  pose proof (endReadIndex_of_Z _ t c m HR) as Hend. fold e in Hend.
  destruct (Ready_pending _ _ _ HR) as (buf & Hb & Hp & Hpl).
  destruct HR as (buf' & Hb' & Hl & Hm & Hr & Hc & Hrange).
  rewrite Hb in Hb'. injection Hb' as <-.
  assert (Hec : e <= c) by (subst e; lia).
  assert (Hdrop : take (Z.to_nat (c - e)) (drop (Z.to_nat e) buf)
                  = drop (Z.to_nat e) (pending t)).
  { rewrite Hp, take_drop_commute. f_equal. f_equal. lia. }
  subst w'. unfold process, process_begin. rewrite Ht.
  unfold process_take. rewrite Hend, Hr, sub_of_Z.
  change 0%Q with (Num.of_Z 0). rewrite ltb_of_Z.
  destruct (Z.ltb_spec 0 (e - 0)); [|lia]. rewrite Hb.
  destruct (variant t) eqn:Hv.
  - (* the plain throttle pushes before it trims *)
    unfold push. cbn [controller terminated set_pendingBytesReadIndex].
    rewrite Hctl. cbn [fst snd].
    split_and!; try reflexivity.
    eexists. split; [apply (lookup_storeThrottle id _ t w Ht)|].
    split_and!; try reflexivity; try discriminate.
    rewrite <- Hdrop. unfold pending. cbn. rewrite Hb, Hc.
    now rewrite subarray_of_Z by lia.
  - (* the backpressure throttle trims, and pushes after the await *)
    rewrite (trim_buffer_of_Z (config w) _ buf e c); cbn;
      try assumption; try reflexivity; try lia.
    unfold process_resume.
    erewrite lookup_storeThrottle by exact Ht.
    unfold process_push. cbn. rewrite Hv. unfold push. cbn. rewrite Hctl.
    cbn [fst snd]. rewrite storeThrottle_twice.
    split_and!; try reflexivity.
    eexists. split; [apply (lookup_storeThrottle id _ t w Ht)|].
    split_and!; try reflexivity.
    rewrite <- Hdrop. unfold pending. cbn.
    change 0%Q with (Num.of_Z 0). rewrite subarray_of_Z.
    + rewrite drop_0, Z.sub_0_r. apply take_app_length'.
      rewrite length_take, length_drop. lia.
    + lia.
    + rewrite length_app, length_take, !length_drop. lia.
Qed.

Lemma process_without_an_open_controller_drops_the_slice_witness :
  map (fun t => length (pending t)) (heap unpiped) = [30%nat]
  /\ map (fun t => (length (emitted t), length (pending t)))
       (heap (fst (process 0 (Finite (Num.of_Z 10)) unpiped))) = [(0, 20)%nat]
  /\ snd (process 0 (Finite (Num.of_Z 10)) unpiped) = Throws.
Proof.
  split; [vm_compute; reflexivity|]. split; [vm_compute; reflexivity|].
  refine (proj1 (process_without_an_open_controller_drops_the_slice 0 10 unpiped
                   _ _ _ _ _));
    vm_compute; reflexivity.
Defined.
